(** * Unified Docs Hub: document store, quality scorer, search analytics
      and response limiter

    A shallow embedding of [database.py], [quality_scorer.py],
    [search_analytics.py] and [response_limiter.py], and the properties of
    the specification checked against it.

    Conventions of the embedding:
    - a Python [str] is the list of its Unicode code points ([list N]);
      [len] is the length of that list, the byte size is the length of the
      UTF-8 encoding;
    - a Python [int] is a [Z]; a Python [float] is a binary64 number, the
      primitive float of the kernel;
    - a Python exception is the result [None] of an [option]-valued
      function;
    - the SQLite tables are lists of rows, in rowid order. *)

From Stdlib Require Import ZArith NArith QArith Lqa List String Ascii Bool Lia Sorting.Sorted Permutation.
From Stdlib Require Floats.Floats Numbers.Cyclic.Int63.Uint63.
From stdpp Require Import base option list gmap.

Import ListNotations.
#[local] Open Scope Z_scope.

(** ** Python floats

    A Python [float] is an IEEE 754 binary64 number, the primitive float of
    the kernel.  A decimal literal such as [0.8] denotes the double nearest
    to 8/10, which is what the correctly rounded division of 8 by 10
    gives.  [of_int] converts an int below 2^63 in absolute value, which
    every length and every count of the sources is. *)

Module PyFloat.

Definition of_int (z : Z) : PrimFloat.float :=
  if z <? 0 then PrimFloat.opp (PrimFloat.of_uint63 (Uint63.of_Z (- z)))
  else PrimFloat.of_uint63 (Uint63.of_Z z).

Definition decimal_literal (num den : Z) : PrimFloat.float :=
  PrimFloat.div (of_int num) (of_int den).

End PyFloat.

(** ** Binary64 arithmetic

    The primitive floats of the kernel are specified by [SpecFloat]: an
    operation is the exact operation followed by the rounding to nearest,
    ties to even.  This module derives from that specification what the
    sources need: the comparisons as an order on integers, and the
    monotonicity of the addition and the multiplication of nonnegative
    finite numbers. *)

Module Binary64.
Import Floats.Floats.

(** [lia] and [nia] with the powers of two taken as unknowns. *)
Ltac pow_atoms :=
  repeat match goal with
    | |- context [2 ^ ?e] =>
        let p := fresh "p" in set (p := 2 ^ e) in *; clearbody p
    | H : context [2 ^ ?e] |- _ =>
        let p := fresh "p" in set (p := 2 ^ e) in *; clearbody p
    end.
Ltac plia := pow_atoms; lia.
Ltac pnia := pow_atoms; nia.

(** The number of bits of a positive number. *)
Lemma digits2_pos_bounds (m : positive) :
  2 ^ (Zpos (digits2_pos m) - 1) <= Zpos m < 2 ^ Zpos (digits2_pos m).
Proof.
  induction m as [m IH|m IH|]; cbn [digits2_pos].
  - rewrite Pos2Z.inj_succ, (Pos2Z.inj_xI m).
    remember (Zpos (digits2_pos m)) as d eqn:Hd.
    assert (0 < d) by (subst d; lia).
    replace (Z.succ d - 1) with (Z.succ (d - 1)) by lia.
    rewrite !Z.pow_succ_r by lia. plia.
  - rewrite Pos2Z.inj_succ, (Pos2Z.inj_xO m).
    remember (Zpos (digits2_pos m)) as d eqn:Hd.
    assert (0 < d) by (subst d; lia).
    replace (Z.succ d - 1) with (Z.succ (d - 1)) by lia.
    rewrite !Z.pow_succ_r by lia. plia.
  - cbn. lia.
Qed.

(** The value of a float that is not NaN, in units of 2^-1074; an infinity
    counts as 2^2100, beyond every finite value. *)
Definition ord (s : spec_float) : Z :=
  match s with
  | S754_zero _ => 0
  | S754_infinity false => 2 ^ 2100
  | S754_infinity true => - 2 ^ 2100
  | S754_nan => 0
  | S754_finite false m e => Zpos m * 2 ^ (e + 1074)
  | S754_finite true m e => - (Zpos m * 2 ^ (e + 1074))
  end.

Definition is_number (s : spec_float) : Prop := s <> S754_nan.

Lemma valid_finite s m e :
  valid_binary (S754_finite s m e) = true ->
  -1074 <= e <= 971 /\ Zpos (digits2_pos m) <= 53 /\
  (Zpos (digits2_pos m) = 53 \/ e = -1074).
Proof.
  cbn [SpecFloat.valid_binary]. unfold bounded, canonical_mantissa, fexp, SpecFloat.emin.
  change prec with 53. change emax with 1024.
  intros H. apply andb_true_iff in H. destruct H as [H1 H2].
  apply Z.eqb_eq in H1. apply Z.leb_le in H2. lia.
Qed.

Lemma finite_ord_bounds s m e :
  valid_binary (S754_finite s m e) = true ->
  0 < Zpos m * 2 ^ (e + 1074) < 2 ^ 2098.
Proof.
  intros H. destruct (valid_finite _ _ _ H) as (He & Hd & _).
  pose proof (digits2_pos_bounds m) as [_ Hm].
  assert (Hp : 0 < 2 ^ (e + 1074)) by (apply Z.pow_pos_nonneg; lia).
  split; [plia|].
  assert (Hm53 : Zpos m < 2 ^ 53).
  { eapply Z.lt_le_trans; [exact Hm|]. apply Z.pow_le_mono_r; lia. }
  assert (H2 : 2 ^ (e + 1074) <= 2 ^ 2045) by (apply Z.pow_le_mono_r; lia).
  replace (2 ^ 2098) with (2 ^ 53 * 2 ^ 2045) by (rewrite <- Z.pow_add_r by lia; reflexivity).
  pnia.
Qed.

Lemma finite_compare m1 e1 m2 e2 s1 s2 :
  valid_binary (S754_finite s1 m1 e1) = true ->
  valid_binary (S754_finite s2 m2 e2) = true ->
  match e1 ?= e2 with
  | Lt => Lt
  | Gt => Gt
  | Eq => Pos.compare_cont Eq m1 m2
  end = (Zpos m1 * 2 ^ (e1 + 1074) ?= Zpos m2 * 2 ^ (e2 + 1074)).
Proof.
  intros H1 H2.
  destruct (valid_finite _ _ _ H1) as (He1 & Hd1 & Hc1).
  destruct (valid_finite _ _ _ H2) as (He2 & Hd2 & Hc2).
  pose proof (digits2_pos_bounds m1) as [Hl1 Hu1].
  pose proof (digits2_pos_bounds m2) as [Hl2 Hu2].
  assert (Hm1 : Zpos m1 < 2 ^ 53)
    by (eapply Z.lt_le_trans; [exact Hu1|apply Z.pow_le_mono_r; lia]).
  assert (Hm2 : Zpos m2 < 2 ^ 53)
    by (eapply Z.lt_le_trans; [exact Hu2|apply Z.pow_le_mono_r; lia]).
  assert (Hstep : forall ma ea mb eb,
            -1074 <= ea < eb -> Zpos ma < 2 ^ 53 -> 2 ^ 52 <= Zpos mb ->
            Zpos ma * 2 ^ (ea + 1074) < Zpos mb * 2 ^ (eb + 1074)).
  { intros ma ea mb eb Hab Hma Hmb.
    assert (Hpa : 0 < 2 ^ (ea + 1074)) by (apply Z.pow_pos_nonneg; lia).
    assert (Hpb : 2 * 2 ^ (ea + 1074) <= 2 ^ (eb + 1074)).
    { rewrite <- Z.pow_succ_r by lia. apply Z.pow_le_mono_r; lia. }
    change (2 ^ 53) with (2 * 2 ^ 52) in Hma. pnia. }
  destruct (Z.compare_spec e1 e2) as [->|Hlt|Hgt].
  - rewrite Pos.compare_cont_spec. cbn [Pos.switch_Eq].
    assert (Hp : 0 < 2 ^ (e2 + 1074)) by (apply Z.pow_pos_nonneg; lia).
    change (m1 ?= m2)%positive with (Zpos m1 ?= Zpos m2).
    destruct (Z.compare_spec (Zpos m1) (Zpos m2)) as [Heq|Hl|Hg]; symmetry.
    + apply Z.compare_eq_iff. rewrite Heq. reflexivity.
    + apply Z.compare_lt_iff. pnia.
    + apply Z.compare_gt_iff. pnia.
  - symmetry. apply Z.compare_lt_iff. apply (Hstep m1 e1 m2 e2); try lia.
    replace (Zpos (digits2_pos m2)) with 53 in Hl2 by lia. exact Hl2.
  - symmetry. apply Z.compare_gt_iff. apply (Hstep m2 e2 m1 e1); try lia.
    replace (Zpos (digits2_pos m1)) with 53 in Hl1 by lia. exact Hl1.
Qed.

Lemma cmp_Lt a b : a < b -> Some Lt = Some (a ?= b).
Proof. intros H. apply Z.compare_lt_iff in H. rewrite H. reflexivity. Qed.

Lemma cmp_Gt a b : b < a -> Some Gt = Some (a ?= b).
Proof. intros H. apply Z.compare_gt_iff in H. rewrite H. reflexivity. Qed.

Lemma cmp_Eq a b : a = b -> Some Eq = Some (a ?= b).
Proof. intros ->. rewrite Z.compare_refl. reflexivity. Qed.

(** [SFcompare] compares the order values. *)
Lemma compare_ord x y :
  valid_binary x = true -> valid_binary y = true ->
  is_number x -> is_number y ->
  SFcompare x y = Some (ord x ?= ord y).
Proof.
  intros Hx Hy Nx Ny.
  assert (Hbig : 0 < 2 ^ 2100) by (apply Z.pow_pos_nonneg; lia).
  assert (Hlt : 2 ^ 2098 < 2 ^ 2100) by (apply Z.pow_lt_mono_r; lia).
  destruct x as [sx|sx| |sx mx ex], y as [sy|sy| |sy my ey];
    try (exfalso; apply Nx; reflexivity); try (exfalso; apply Ny; reflexivity);
    cbn [SFcompare ord];
    try (pose proof (finite_ord_bounds _ _ _ Hx) as Bx);
    try (pose proof (finite_ord_bounds _ _ _ Hy) as By);
    try (destruct sx); try (destruct sy);
    try (first [apply cmp_Lt; plia | apply cmp_Gt; plia | apply cmp_Eq; plia]).
  - pose proof (finite_compare mx ex my ey true true Hx Hy) as Hc.
    rewrite Z.compare_opp.
    rewrite (Z.compare_antisym (Zpos mx * 2 ^ (ex + 1074)) (Zpos my * 2 ^ (ey + 1074))).
    rewrite <- Hc.
    destruct (ex ?= ey); reflexivity.
  - f_equal. apply (finite_compare mx ex my ey false false Hx Hy).
Qed.


(** *** Rounding to nearest, ties to even *)

(** [m / 2^n] rounded to the nearest integer, a tie going to the even
    one. *)
Definition rne_div (m n : Z) : Z :=
  if n <=? 0 then m
  else
    let f := m / 2 ^ n in
    let r := m mod 2 ^ n in
    let h := 2 ^ (n - 1) in
    if r <? h then f else if h <? r then f + 1 else if Z.even f then f else f + 1.

Lemma iter_pos_nat {A} (f : A -> A) p : forall x,
  iter_pos f p x = Nat.iter (Pos.to_nat p) f x.
Proof.
  induction p as [p IH|p IH|]; intros x; cbn [iter_pos].
  - rewrite !IH, Pos2Nat.inj_xI.
    replace (S (2 * Pos.to_nat p)) with (Pos.to_nat p + S (Pos.to_nat p))%nat by lia.
    rewrite Nat.iter_add, Nat.iter_succ_r. reflexivity.
  - rewrite !IH, Pos2Nat.inj_xO.
    replace (2 * Pos.to_nat p)%nat with (Pos.to_nat p + Pos.to_nat p)%nat by lia.
    rewrite Nat.iter_add. reflexivity.
  - reflexivity.
Qed.

Lemma shr_1_spec m r s :
  0 <= m ->
  shr_1 {| shr_m := m; shr_r := r; shr_s := s |}
  = {| shr_m := m / 2; shr_r := Z.odd m; shr_s := r || s |}.
Proof.
  intros Hm. rewrite <- Z.div2_div.
  destruct m as [|[p|p|]|p]; try reflexivity. lia.
Qed.

Lemma mod_pow2_succ m k :
  0 <= k -> m mod 2 ^ (k + 1) = m mod 2 ^ k + 2 ^ k * ((m / 2 ^ k) mod 2).
Proof.
  intros Hk. rewrite Z.pow_add_r, Z.pow_1_r by lia.
  apply Z.rem_mul_r; [|lia].
  assert (0 < 2 ^ k) by (apply Z.pow_pos_nonneg; lia). lia.
Qed.

Lemma odd_mod2 a : Z.odd a = negb (a mod 2 =? 0).
Proof.
  rewrite Zmod_odd. destruct (Z.odd a); reflexivity.
Qed.

Lemma sticky_succ m k :
  0 <= k ->
  negb (m mod 2 ^ (k + 1) =? 0)
  = Z.odd (m / 2 ^ k) || negb (m mod 2 ^ k =? 0).
Proof.
  intros Hk. rewrite mod_pow2_succ by lia. rewrite odd_mod2.
  assert (Hp : 0 < 2 ^ k) by (apply Z.pow_pos_nonneg; lia).
  pose proof (Z.mod_pos_bound m (2 ^ k) Hp) as Hr.
  pose proof (Z.mod_pos_bound (m / 2 ^ k) 2 ltac:(lia)) as Hb.
  set (r0 := m mod 2 ^ k) in *. set (b := (m / 2 ^ k) mod 2) in *.
  set (h := 2 ^ k) in *.
  destruct (Z.eqb_spec b 0) as [Hb0|Hb0]; destruct (Z.eqb_spec r0 0) as [Hr0|Hr0];
    destruct (Z.eqb_spec (r0 + h * b) 0) as [Hs|Hs]; cbn [negb orb];
    try reflexivity; exfalso.
  - apply Hs. rewrite Hb0, Hr0. lia.
  - apply Hr0. rewrite Hb0 in Hs. lia.
  - assert (b = 1) as Hb1 by lia. rewrite Hb1 in Hs. lia.
  - assert (b = 1) as Hb1 by lia. rewrite Hb1 in Hs. lia.
Qed.

Lemma shr_iter k m r s :
  0 <= m ->
  Nat.iter (S k) shr_1 {| shr_m := m; shr_r := r; shr_s := s |}
  = {| shr_m := m / 2 ^ Z.of_nat (S k);
       shr_r := Z.odd (m / 2 ^ Z.of_nat k);
       shr_s := negb (m mod 2 ^ Z.of_nat k =? 0) || r || s |}.
Proof.
  intros Hm. induction k as [|k IH].
  - cbn [Nat.iter]. rewrite shr_1_spec by exact Hm.
    change (Z.of_nat 1) with 1. change (Z.of_nat 0) with 0.
    rewrite Z.pow_1_r, Z.pow_0_r, Z.div_1_r, Z.mod_1_r. reflexivity.
  - change (Nat.iter (S (S k)) shr_1 ?x) with (shr_1 (Nat.iter (S k) shr_1 x)).
    rewrite IH.
    assert (Hp : 0 < 2 ^ Z.of_nat (S k)) by (apply Z.pow_pos_nonneg; lia).
    rewrite shr_1_spec by (apply Z.div_pos; lia).
    f_equal.
    + rewrite Z.div_div by lia.
      replace (Z.of_nat (S (S k))) with (Z.of_nat (S k) + 1) by lia.
      rewrite Z.pow_add_r, Z.pow_1_r by lia. reflexivity.
    + replace (Z.of_nat (S k)) with (Z.of_nat k + 1) by lia.
      rewrite sticky_succ by lia.
      destruct (Z.odd (m / 2 ^ Z.of_nat k)), (negb (m mod 2 ^ Z.of_nat k =? 0)), r, s;
        reflexivity.
Qed.

(** Shifting an exact mantissa right by [n >= 1] bits and rounding. *)
Lemma shr_round m (p : positive) :
  0 <= m ->
  let mrs := iter_pos shr_1 p {| shr_m := m; shr_r := false; shr_s := false |} in
  round_nearest_even (shr_m mrs) (loc_of_shr_record mrs) = rne_div m (Zpos p).
Proof.
  intros Hm. cbv zeta. rewrite iter_pos_nat.
  destruct (Pos2Nat.is_succ p) as [k Hk]. rewrite Hk, shr_iter by exact Hm.
  assert (Hn : Zpos p = Z.of_nat k + 1) by lia.
  unfold rne_div. destruct (Z.leb_spec (Zpos p) 0); [lia|].
  rewrite Hn. replace (Z.of_nat k + 1 - 1) with (Z.of_nat k) by lia.
  replace (Z.of_nat (S k)) with (Z.of_nat k + 1) by lia.
  rewrite mod_pow2_succ by lia. rewrite odd_mod2, !orb_false_r.
  cbn [shr_m loc_of_shr_record].
  assert (Hp : 0 < 2 ^ Z.of_nat k) by (apply Z.pow_pos_nonneg; lia).
  pose proof (Z.mod_pos_bound m (2 ^ Z.of_nat k) Hp) as Hr.
  pose proof (Z.mod_pos_bound (m / 2 ^ Z.of_nat k) 2 ltac:(lia)) as Hb.
  set (f := m / 2 ^ (Z.of_nat k + 1)).
  set (r0 := m mod 2 ^ Z.of_nat k) in *.
  set (b := (m / 2 ^ Z.of_nat k) mod 2) in *.
  set (h := 2 ^ Z.of_nat k) in *.
  destruct (Z.eqb_spec b 0) as [Hb0|Hb0]; destruct (Z.eqb_spec r0 0) as [Hr0|Hr0];
    cbn [negb round_nearest_even].
  - rewrite Hb0. destruct (Z.ltb_spec (r0 + h * 0) h); [reflexivity|lia].
  - rewrite Hb0. destruct (Z.ltb_spec (r0 + h * 0) h); [reflexivity|lia].
  - assert (b = 1) as -> by lia.
    destruct (Z.ltb_spec (r0 + h * 1) h); [lia|].
    destruct (Z.ltb_spec h (r0 + h * 1)); [lia|]. reflexivity.
  - assert (b = 1) as -> by lia.
    destruct (Z.ltb_spec (r0 + h * 1) h); [lia|].
    destruct (Z.ltb_spec h (r0 + h * 1)); [reflexivity|lia].
Qed.


(** *** Properties of [rne_div] *)

Lemma rne_div_exact k n : 0 <= n -> rne_div (k * 2 ^ n) n = k.
Proof.
  intros Hn. unfold rne_div. destruct (Z.leb_spec n 0) as [H0|H0].
  - assert (n = 0) as -> by lia. rewrite Z.pow_0_r. lia.
  - assert (Hp : 0 < 2 ^ n) by (apply Z.pow_pos_nonneg; lia).
    assert (Hh : 0 < 2 ^ (n - 1)) by (apply Z.pow_pos_nonneg; lia).
    rewrite Z.div_mul by lia. rewrite Z.mod_mul by lia. cbv zeta.
    destruct (Z.ltb_spec 0 (2 ^ (n - 1))); [reflexivity|lia].
Qed.

Lemma rne_div_floor m n :
  0 < n -> m / 2 ^ n <= rne_div m n <= m / 2 ^ n + 1.
Proof.
  intros Hn. unfold rne_div. destruct (Z.leb_spec n 0); [lia|]. cbv zeta.
  destruct (_ <? _); [lia|]. destruct (_ <? _); [lia|]. destruct (Z.even _); lia.
Qed.

Lemma rne_div_mono a b n : a <= b -> rne_div a n <= rne_div b n.
Proof.
  intros Hab. destruct (Z.leb_spec n 0) as [H0|H0].
  { unfold rne_div. destruct (Z.leb_spec n 0); [exact Hab|lia]. }
  assert (Hp : 0 < 2 ^ n) by (apply Z.pow_pos_nonneg; lia).
  pose proof (Z.div_le_mono a b (2 ^ n) Hp Hab) as Hf.
  destruct (Z.eq_dec (a / 2 ^ n) (b / 2 ^ n)) as [Heq|Hne].
  - pose proof (Z.div_mod a (2 ^ n) ltac:(lia)) as Ha.
    pose proof (Z.div_mod b (2 ^ n) ltac:(lia)) as Hb.
    rewrite Heq in Ha.
    assert (Hr : a mod 2 ^ n <= b mod 2 ^ n) by lia.
    unfold rne_div. destruct (Z.leb_spec n 0); [lia|]. cbv zeta.
    rewrite Heq.
    destruct (Z.ltb_spec (a mod 2 ^ n) (2 ^ (n - 1)));
      destruct (Z.ltb_spec (b mod 2 ^ n) (2 ^ (n - 1)));
      destruct (Z.ltb_spec (2 ^ (n - 1)) (a mod 2 ^ n));
      destruct (Z.ltb_spec (2 ^ (n - 1)) (b mod 2 ^ n));
      destruct (Z.even (b / 2 ^ n)); lia.
  - pose proof (rne_div_floor a n H0). pose proof (rne_div_floor b n H0). lia.
Qed.

Lemma rne_div_nonneg m n : 0 <= m -> 0 <= rne_div m n.
Proof.
  intros Hm. destruct (Z.leb_spec n 0) as [H0|H0].
  - unfold rne_div. destruct (Z.leb_spec n 0); [exact Hm|lia].
  - pose proof (rne_div_floor m n H0).
    assert (0 <= m / 2 ^ n) by (apply Z.div_pos; [lia|apply Z.pow_pos_nonneg; lia]).
    lia.
Qed.

(** Scaling the dividend and the divisor by the same power of two. *)
Lemma rne_div_scale m n k :
  0 <= n -> 0 <= k -> rne_div (m * 2 ^ k) (n + k) = rne_div m n.
Proof.
  intros Hn Hk. destruct (Z.eq_dec n 0) as [->|Hn0].
  - rewrite Z.add_0_l, rne_div_exact by lia. reflexivity.
  - unfold rne_div. destruct (Z.leb_spec (n + k) 0); [lia|].
    destruct (Z.leb_spec n 0); [lia|]. cbv zeta.
    assert (Hp : 0 < 2 ^ n) by (apply Z.pow_pos_nonneg; lia).
    assert (Hq : 0 < 2 ^ k) by (apply Z.pow_pos_nonneg; lia).
    assert (Hh : 0 < 2 ^ (n - 1)) by (apply Z.pow_pos_nonneg; lia).
    rewrite (Z.pow_add_r 2 n k) by lia.
    rewrite Z.div_mul_cancel_r by lia.
    rewrite Z.mul_mod_distr_r by lia.
    replace (n + k - 1) with (n - 1 + k) by lia.
    rewrite (Z.pow_add_r 2 (n - 1) k) by lia.
    set (r := m mod 2 ^ n). set (h := 2 ^ (n - 1)) in *. set (q := 2 ^ k) in *.
    destruct (Z.ltb_spec r h); destruct (Z.ltb_spec (r * q) (h * q));
      try (exfalso; nia); [reflexivity|].
    destruct (Z.ltb_spec h r); destruct (Z.ltb_spec (h * q) (r * q));
      try (exfalso; nia); reflexivity.
Qed.

(** *** The digits of a positive number *)

Lemma digits_unique p k :
  2 ^ (k - 1) <= Zpos p < 2 ^ k -> Zpos (digits2_pos p) = k.
Proof.
  intros [Hlo Hhi]. pose proof (digits2_pos_bounds p) as [Dlo Dhi].
  set (d := Zpos (digits2_pos p)) in *.
  assert (Hd : 0 < d) by (unfold d; lia).
  destruct (Z.lt_trichotomy d k) as [Hlt|[Heq|Hgt]]; [|exact Heq|].
  - assert (2 ^ d <= 2 ^ (k - 1)) by (apply Z.pow_le_mono_r; lia). lia.
  - destruct (Z.le_gt_cases 0 k) as [Hk|Hk].
    + assert (2 ^ k <= 2 ^ (d - 1)) by (apply Z.pow_le_mono_r; lia). lia.
    + rewrite (Z.pow_neg_r 2 k) in Hhi by lia. lia.
Qed.

Lemma digits_log2 p : Zpos (digits2_pos p) = Z.log2 (Zpos p) + 1.
Proof.
  apply digits_unique.
  pose proof (Z.log2_spec (Zpos p) ltac:(lia)) as [Hlo Hhi].
  replace (Z.log2 (Zpos p) + 1 - 1) with (Z.log2 (Zpos p)) by lia.
  rewrite <- Z.add_1_r in Hhi. split; [exact Hlo|exact Hhi].
Qed.


(** *** Rounding a mantissa and an exponent to binary64 *)

(** The order value of a result that overflows is that of the infinity. *)
Definition cap (V : Z) : Z := if V <? 2 ^ 2098 then V else 2 ^ 2100.

Definition SFnonneg (s : spec_float) : Prop :=
  match s with
  | S754_zero _ | S754_infinity false | S754_finite false _ _ => True
  | _ => False
  end.

Lemma fexp_eq k : fexp prec emax k = Z.max (k - 53) (-1074).
Proof. reflexivity. Qed.

Lemma shr_nonpos mrs e n : n <= 0 -> shr mrs e n = (mrs, e).
Proof. intros Hn. destruct n as [|p|p]; [reflexivity|lia|reflexivity]. Qed.

Lemma shr_first (m : positive) e n :
  0 <= n ->
  exists mrs,
    shr {| shr_m := Zpos m; shr_r := false; shr_s := false |} e n = (mrs, e + n) /\
    round_nearest_even (shr_m mrs) (loc_of_shr_record mrs) = rne_div (Zpos m) n.
Proof.
  intros Hn. destruct n as [|p|p]; [| |lia].
  - eexists. split; [cbn [shr]; rewrite Z.add_0_r; reflexivity|]. reflexivity.
  - eexists. split; [reflexivity|]. apply shr_round. lia.
Qed.

Definition finish (mrs : shr_record) (e : Z) : spec_float :=
  match shr_m mrs with
  | Z0 => S754_zero false
  | Zpos m => if e <=? emax - prec then S754_finite false m e else S754_infinity false
  | Zneg _ => S754_nan
  end.

Lemma pow2_mono a b : a <= b -> 0 <= a -> 2 ^ a <= 2 ^ b.
Proof. intros. apply Z.pow_le_mono_r; lia. Qed.

Lemma pow2_split a b : 0 <= a -> 0 <= b -> 2 ^ (a + b) = 2 ^ a * 2 ^ b.
Proof. intros. apply Z.pow_add_r; lia. Qed.

Lemma finish_ord mrs e :
  0 < shr_m mrs ->
  SFnonneg (finish mrs e) /\
  ord (finish mrs e) = if e <=? 971 then shr_m mrs * 2 ^ (e + 1074) else 2 ^ 2100.
Proof.
  intros Hm. unfold finish. destruct (shr_m mrs) as [|p|p]; try lia.
  change (emax - prec) with 971.
  destruct (e <=? 971); split; try exact I; reflexivity.
Qed.

Lemma cap_small V : V < 2 ^ 2098 -> cap V = V.
Proof. intros H. unfold cap. destruct (Z.ltb_spec V (2 ^ 2098)); [reflexivity|lia]. Qed.

Lemma cap_large V : 2 ^ 2098 <= V -> cap V = 2 ^ 2100.
Proof. intros H. unfold cap. destruct (Z.ltb_spec V (2 ^ 2098)); [lia|reflexivity]. Qed.

Lemma round_final q E :
  0 <= q <= 2 ^ 53 -> -1074 <= E -> (E = -1074 \/ 2 ^ 52 <= q) ->
  let r := finish (fst (shr_fexp prec emax q E loc_Exact))
                  (snd (shr_fexp prec emax q E loc_Exact)) in
  SFnonneg r /\ ord r = cap (q * 2 ^ (E + 1074)).
Proof.
  intros [Hq0 Hq1] HE Hnorm. cbv zeta. unfold shr_fexp. rewrite fexp_eq.
  cbn [shr_record_of_loc].
  assert (Hp : 0 < 2 ^ (E + 1074)) by (apply Z.pow_pos_nonneg; lia).
  destruct q as [|qp|qp]; [| |lia].
  - cbn [Zdigits2]. rewrite shr_nonpos by lia. cbn. split; [exact I|reflexivity].
  - cbn [Zdigits2].
    pose proof (digits2_pos_bounds qp) as [Dlo Dhi].
    set (dq := Zpos (digits2_pos qp)) in *.
    assert (Hdq : 0 < dq) by (unfold dq; lia).
    destruct (Z.eq_dec (Zpos qp) (2 ^ 53)) as [Heq|Hne].
    + assert (Hd : dq = 54).
      { unfold dq. apply digits_unique. rewrite Heq. split; reflexivity. }
      rewrite Hd.
      replace (Z.max (54 + E - 53) (-1074) - E) with 1 by lia.
      cbn [shr iter_pos]. rewrite shr_1_spec by lia. cbn [fst snd].
      match goal with
      | |- context [finish ?mrs ?e] =>
          destruct (finish_ord mrs e) as [Hn Ho]
      end.
      { cbn [shr_m]. rewrite Heq. reflexivity. }
      split; [exact Hn|]. rewrite Ho. cbn [shr_m]. rewrite Heq.
      change (2 ^ 53 / 2) with (2 ^ 52).
      destruct (Z.leb_spec (E + 1) 971) as [Hle|Hgt].
      * replace (E + 1 + 1074) with (E + 1074 + 1) by lia.
        rewrite (pow2_split (E + 1074) 1) by lia. change (2 ^ 1) with 2.
        assert (Hb : 2 ^ (E + 1074) <= 2 ^ 2044) by (apply pow2_mono; lia).
        assert (H98 : 2 ^ 2098 = 2 ^ 53 * (2 * 2 ^ 2044)) by reflexivity.
        assert (H53 : 2 ^ 53 = 2 * 2 ^ 52) by reflexivity.
        assert (H52 : 0 < 2 ^ 52) by reflexivity.
        rewrite cap_small; [rewrite H53; ring|].
        rewrite H98, H53. pnia.
      * assert (Hb : 2 ^ 2045 <= 2 ^ (E + 1074)) by (apply pow2_mono; lia).
        assert (H98 : 2 ^ 2098 = 2 ^ 53 * 2 ^ 2045) by reflexivity.
        assert (H53 : 0 < 2 ^ 53) by reflexivity.
        rewrite cap_large; [reflexivity|].
        rewrite H98. pnia.
    + assert (Hlt53 : Zpos qp < 2 ^ 53) by lia.
      assert (Hd : dq <= 53).
      { destruct (Z.le_gt_cases dq 53) as [Hle|Hgt]; [exact Hle|].
        assert (2 ^ 53 <= 2 ^ (dq - 1)) by (apply pow2_mono; lia). lia. }
      rewrite shr_nonpos by lia. cbn [fst snd].
      match goal with
      | |- context [finish ?mrs ?e] =>
          destruct (finish_ord mrs e) as [Hn Ho]
      end.
      { cbn [shr_m]. lia. }
      split; [exact Hn|]. rewrite Ho. cbn [shr_m].
      destruct (Z.leb_spec E 971) as [Hle|Hgt].
      * assert (Hb : 2 ^ (E + 1074) <= 2 ^ 2045) by (apply pow2_mono; lia).
        assert (H98 : 2 ^ 2098 = 2 ^ 53 * 2 ^ 2045) by reflexivity.
        assert (H53 : 0 < 2 ^ 53) by reflexivity.
        rewrite cap_small; [reflexivity|].
        rewrite H98. pnia.
      * destruct Hnorm as [->|Hnorm]; [lia|].
        assert (Hb : 2 ^ 2046 <= 2 ^ (E + 1074)) by (apply pow2_mono; lia).
        assert (H98 : 2 ^ 2098 = 2 ^ 52 * 2 ^ 2046) by reflexivity.
        assert (H52 : 0 < 2 ^ 52) by reflexivity.
        rewrite cap_large; [reflexivity|].
        rewrite H98. pnia.
Qed.

(** [binary_round_aux] on an exact mantissa whose exponent is not above
    the exponent of the format. *)
Lemma round_aux_exact (m : positive) e :
  let E := fexp prec emax (Zpos (digits2_pos m) + e) in
  e <= E ->
  let r := binary_round_aux prec emax false (Zpos m) e loc_Exact in
  SFnonneg r /\ ord r = cap (rne_div (Zpos m) (E - e) * 2 ^ (E + 1074)).
Proof.
  intros E HE. cbv zeta.
  destruct (shr_first m e (E - e) ltac:(lia)) as (mrs & Hshr & Hround).
  assert (Haux : binary_round_aux prec emax false (Zpos m) e loc_Exact
                 = finish (fst (shr_fexp prec emax (rne_div (Zpos m) (E - e)) E loc_Exact))
                          (snd (shr_fexp prec emax (rne_div (Zpos m) (E - e)) E loc_Exact))).
  { unfold binary_round_aux.
    change (shr_fexp prec emax (Zpos m) e loc_Exact)
      with (shr {| shr_m := Zpos m; shr_r := false; shr_s := false |} e (E - e)).
    rewrite Hshr, Hround. replace (e + (E - e)) with E by lia.
    destruct (shr_fexp prec emax (rne_div (Zpos m) (E - e)) E loc_Exact) as [mrs2 e2].
    reflexivity. }
  rewrite Haux.
  pose proof (digits2_pos_bounds m) as [Dlo Dhi].
  set (d := Zpos (digits2_pos m)) in *.
  assert (Hd : 0 < d) by (unfold d; lia).
  assert (HEv : E = Z.max (d + e - 53) (-1074)) by reflexivity.
  assert (Hn : 0 <= E - e) by lia.
  assert (Hpn : 0 < 2 ^ (E - e)) by (apply Z.pow_pos_nonneg; lia).
  apply round_final.
  - split; [apply rne_div_nonneg; lia|].
    rewrite <- (rne_div_exact (2 ^ 53) (E - e)) by lia.
    apply rne_div_mono.
    rewrite <- pow2_split by lia.
    assert (2 ^ d <= 2 ^ (53 + (E - e))) by (apply pow2_mono; lia). lia.
  - lia.
  - destruct (Z.eq_dec E (-1074)) as [HE'|HE']; [left; exact HE'|right].
    assert (HEd : E - e = d - 53) by lia.
    rewrite <- (rne_div_exact (2 ^ 52) (E - e)) by lia.
    apply rne_div_mono.
    rewrite <- pow2_split by lia.
    replace (52 + (E - e)) with (d - 1) by lia. exact Dlo.
Qed.


(** *** Rounding a nonnegative integer to 53 significant bits

    [RNu c X] rounds [X], counted in units of [2^(-1074-c)], to the nearest
    binary64 number (ignoring overflow), counted in units of [2^(-1074)]:
    the last [N] bits are rounded away, [N] being what exceeds 53 bits and
    at least [c]. *)
Definition RNu (c X : Z) : Z :=
  let N := Z.max (Z.log2 X + 1 - 53) c in
  rne_div X N * 2 ^ (N - c).

Lemma RNu_0 c : 0 <= c -> RNu c 0 = 0.
Proof.
  intros Hc. unfold RNu. cbv zeta. change (Z.log2 0) with 0.
  replace (Z.max (0 + 1 - 53) c) with c by lia.
  pose proof (rne_div_exact 0 c Hc) as H. rewrite Z.mul_0_l in H.
  rewrite H. lia.
Qed.

Lemma RNu_mono c X Y : 0 <= c -> 0 <= X <= Y -> RNu c X <= RNu c Y.
Proof.
  intros Hc [HX HXY]. unfold RNu. cbv zeta.
  pose proof (Z.log2_le_mono X Y HXY) as Hlog.
  pose proof (Z.log2_nonneg X) as HlX.
  set (NX := Z.max (Z.log2 X + 1 - 53) c).
  set (NY := Z.max (Z.log2 Y + 1 - 53) c).
  assert (HNX : 0 <= NX) by (unfold NX; lia).
  assert (HN : NX <= NY) by (unfold NX, NY; lia).
  destruct (Z.eq_dec NX NY) as [Heq|Hne].
  - rewrite <- Heq. apply Z.mul_le_mono_nonneg_r; [apply Z.pow_nonneg; lia|].
    apply rne_div_mono, HXY.
  - assert (HNY : NY = Z.log2 Y + 1 - 53) by (unfold NX, NY in *; lia).
    assert (HY : 0 < Y).
    { destruct (Z.lt_ge_cases 0 Y) as [H|H]; [exact H|].
      rewrite (Z.log2_nonpos Y) in HNY by lia. lia. }
    pose proof (Z.log2_spec Y HY) as [HYlo _].
    assert (HXhi : X < 2 ^ (NX + 53)).
    { destruct (Z.eq_dec X 0) as [->|HX0]; [apply Z.pow_pos_nonneg; lia|].
      pose proof (Z.log2_spec X ltac:(lia)) as [_ HXhi].
      rewrite <- Z.add_1_r in HXhi.
      assert (2 ^ (Z.log2 X + 1) <= 2 ^ (NX + 53))
        by (apply pow2_mono; unfold NX; lia).
      lia. }
    assert (H1 : rne_div X NX <= 2 ^ 53).
    { rewrite <- (rne_div_exact (2 ^ 53) NX) by lia. apply rne_div_mono.
      rewrite <- pow2_split by lia. rewrite Z.add_comm. lia. }
    assert (H2 : 2 ^ 52 <= rne_div Y NY).
    { rewrite <- (rne_div_exact (2 ^ 52) NY) by lia. apply rne_div_mono.
      rewrite <- pow2_split by lia.
      replace (52 + NY) with (Z.log2 Y) by lia. exact HYlo. }
    assert (H3 : 2 * 2 ^ (NX - c) <= 2 ^ (NY - c)).
    { change 2 with (2 ^ 1) at 1. rewrite <- pow2_split by (unfold NX; lia).
      apply pow2_mono; unfold NX in *; lia. }
    assert (H4 : 0 < 2 ^ (NX - c)) by (apply Z.pow_pos_nonneg; unfold NX; lia).
    assert (H53 : 2 ^ 53 = 2 * 2 ^ 52) by reflexivity.
    assert (H52 : 0 < 2 ^ 52) by reflexivity.
    pose proof (rne_div_nonneg X NX HX) as H5.
    rewrite H53 in H1.
    set (a := rne_div X NX) in *. set (b := rne_div Y NY) in *.
    set (p := 2 ^ (NX - c)) in *. set (q := 2 ^ (NY - c)) in *.
    set (t := 2 ^ 52) in *. clearbody a b p q t.
    clear - H1 H2 H3 H4 H5 H52.
    assert (a * p <= 2 * t * p) by nia.
    assert (t * (2 * p) <= b * q) by nia.
    lia.
Qed.

Lemma cap_mono V W : V <= W -> cap V <= cap W.
Proof.
  intros H. unfold cap.
  assert (H0 : 2 ^ 2098 <= 2 ^ 2100) by (apply pow2_mono; lia).
  destruct (Z.ltb_spec V (2 ^ 2098)); destruct (Z.ltb_spec W (2 ^ 2098)); lia.
Qed.

Lemma ord_finite_digits (m : positive) k :
  0 <= k -> Z.log2 (Zpos m * 2 ^ k) + 1 = Zpos (digits2_pos m) + k.
Proof.
  intros Hk. rewrite Z.log2_mul_pow2 by lia. rewrite digits_log2. lia.
Qed.

(** A binary64 number is its own rounding. *)
Lemma RNu_representable s m e :
  valid_binary (S754_finite s m e) = true ->
  RNu 0 (Zpos m * 2 ^ (e + 1074)) = Zpos m * 2 ^ (e + 1074).
Proof.
  intros Hv. apply valid_finite in Hv. destruct Hv as (He & Hd & Hc).
  unfold RNu. cbv zeta. rewrite ord_finite_digits by lia.
  replace (Z.max (Zpos (digits2_pos m) + (e + 1074) - 53) 0) with (e + 1074) by lia.
  rewrite rne_div_exact by lia. rewrite Z.sub_0_r. reflexivity.
Qed.

Lemma round_aux_ord (m : positive) e c :
  0 <= c -> 0 <= e + 1074 + c ->
  e <= fexp prec emax (Zpos (digits2_pos m) + e) ->
  let r := binary_round_aux prec emax false (Zpos m) e loc_Exact in
  SFnonneg r /\ ord r = cap (RNu c (Zpos m * 2 ^ (e + 1074 + c))).
Proof.
  intros Hc Hk HE. cbv zeta.
  destruct (round_aux_exact m e HE) as [Hn Ho]. split; [exact Hn|].
  rewrite Ho. f_equal. unfold RNu. cbv zeta.
  rewrite ord_finite_digits by lia. rewrite fexp_eq in *.
  set (E := Z.max (Zpos (digits2_pos m) + e - 53) (-1074)) in *.
  replace (Z.max (Zpos (digits2_pos m) + (e + 1074 + c) - 53) c)
    with (E - e + (e + 1074 + c)) by (unfold E; lia).
  rewrite rne_div_scale by lia.
  replace (E - e + (e + 1074 + c) - c) with (E + 1074) by lia.
  reflexivity.
Qed.


(** *** Addition and multiplication of nonnegative finite numbers *)

Definition SFfinite (s : spec_float) : Prop :=
  match s with
  | S754_zero _ | S754_finite false _ _ => True
  | _ => False
  end.

Lemma iter_xO m d : Zpos (Pos.iter xO m d) = Zpos m * 2 ^ Zpos d.
Proof.
  induction d as [|d IH] using Pos.peano_ind.
  - cbn [Pos.iter]. rewrite (Pos2Z.inj_xO m). change (2 ^ 1) with 2. ring.
  - rewrite Pos.iter_succ, Pos2Z.inj_succ, Z.pow_succ_r by lia.
    rewrite (Pos2Z.inj_xO (Pos.iter xO m d)), IH. ring.
Qed.

Lemma shl_align_spec mx ex ex' :
  shl_align mx ex ex' =
    if ex' <? ex then (Z.to_pos (Zpos mx * 2 ^ (ex - ex')), ex') else (mx, ex).
Proof.
  unfold shl_align. destruct (Z.ltb_spec ex' ex) as [Hlt|Hge].
  - destruct (ex' - ex) as [|d|d] eqn:Hd; try lia.
    replace (ex - ex') with (Zpos d) by lia.
    rewrite <- iter_xO. reflexivity.
  - destruct (ex' - ex) as [|d|d] eqn:Hd; try lia; reflexivity.
Qed.

Lemma to_pos_shift (m : positive) k :
  0 <= k -> Zpos (Z.to_pos (Zpos m * 2 ^ k)) = Zpos m * 2 ^ k.
Proof.
  intros Hk. apply Z2Pos.id.
  assert (0 < 2 ^ k) by (apply Z.pow_pos_nonneg; lia). lia.
Qed.

Lemma digits_shift (m : positive) k :
  0 <= k ->
  Zpos (digits2_pos (Z.to_pos (Zpos m * 2 ^ k))) = Zpos (digits2_pos m) + k.
Proof.
  intros Hk. rewrite digits_log2, to_pos_shift by lia.
  apply ord_finite_digits, Hk.
Qed.

Lemma binary_round_ord (S : positive) ez :
  -1074 <= ez ->
  let r := binary_round prec emax false S ez in
  SFnonneg r /\ ord r = cap (RNu 0 (Zpos S * 2 ^ (ez + 1074))).
Proof.
  intros Hez. cbv zeta. unfold binary_round. rewrite shl_align_spec.
  rewrite fexp_eq.
  set (E0 := Z.max (Zpos (digits2_pos S) + ez - 53) (-1074)).
  destruct (Z.ltb_spec E0 ez) as [Hlt|Hge].
  - destruct (round_aux_ord (Z.to_pos (Zpos S * 2 ^ (ez - E0))) E0 0) as [Hn Ho].
    + lia.
    + unfold E0. lia.
    + rewrite fexp_eq, digits_shift by lia. unfold E0. lia.
    + split; [exact Hn|]. rewrite Ho. f_equal. f_equal.
      rewrite to_pos_shift by lia. rewrite Z.add_0_r.
      rewrite <- Z.mul_assoc, <- pow2_split by (unfold E0; lia).
      f_equal. f_equal. lia.
  - destruct (round_aux_ord S ez 0) as [Hn Ho].
    + lia.
    + lia.
    + rewrite fexp_eq. fold E0. exact Hge.
    + split; [exact Hn|]. rewrite Ho, Z.add_0_r. reflexivity.
Qed.

(** The sum of two nonnegative finite numbers has the order value of the
    exact sum, rounded (and capped).  Likewise for the product, whose exact
    value is counted in units of 2^-2148. *)
Lemma SFadd_ord x y :
  valid_binary x = true -> valid_binary y = true -> SFfinite x -> SFfinite y ->
  SFnonneg (SFadd prec emax x y) /\
  ord (SFadd prec emax x y) = cap (RNu 0 (ord x + ord y)).
Proof.
  intros Hx Hy Fx Fy.
  destruct x as [sx|sx| |[|] mx ex]; try (exfalso; exact Fx);
    destruct y as [sy|sy| |[|] my ey]; try (exfalso; exact Fy).
  - split; [destruct sx, sy; exact I|].
    cbn [ord]. rewrite RNu_0 by lia.
    destruct sx, sy; reflexivity.
  - cbn [SFadd ord]. split; [exact I|]. rewrite Z.add_0_l.
    rewrite (RNu_representable _ _ _ Hy), cap_small; [reflexivity|].
    apply (finite_ord_bounds false my ey Hy).
  - cbn [SFadd ord]. split; [exact I|]. rewrite Z.add_0_r.
    rewrite (RNu_representable _ _ _ Hx), cap_small; [reflexivity|].
    apply (finite_ord_bounds false mx ex Hx).
  - pose proof (valid_finite _ _ _ Hx) as (Hex & _).
    pose proof (valid_finite _ _ _ Hy) as (Hey & _).
    cbn [SFadd ord cond_Zopp]. rewrite !shl_align_spec.
    set (ez := Z.min ex ey).
    assert (Hsum : forall a b : positive,
               Zpos a = Zpos mx * 2 ^ (ex - ez) -> Zpos b = Zpos my * 2 ^ (ey - ez) ->
               SFnonneg (binary_normalize prec emax (Zpos a + Zpos b) ez false) /\
               ord (binary_normalize prec emax (Zpos a + Zpos b) ez false)
               = cap (RNu 0 (Zpos mx * 2 ^ (ex + 1074) + Zpos my * 2 ^ (ey + 1074)))).
    { intros a b Ha Hb. change (Zpos a + Zpos b) with (Zpos (a + b)).
      cbn [binary_normalize].
      destruct (binary_round_ord (a + b) ez) as [Hn Ho]; [unfold ez; lia|].
      split; [exact Hn|]. rewrite Ho. f_equal. f_equal.
      rewrite Pos2Z.inj_add, Ha, Hb, Z.mul_add_distr_r.
      rewrite <- !Z.mul_assoc, <- !pow2_split by (unfold ez; lia).
      f_equal; f_equal; f_equal; lia. }
    destruct (Z.ltb_spec ez ex) as [H1|H1]; destruct (Z.ltb_spec ez ey) as [H2|H2];
      cbn [fst]; apply Hsum;
      rewrite ?to_pos_shift by lia;
      try reflexivity.
    all: try (replace (ex - ez) with 0 by (unfold ez in *; lia); rewrite Z.pow_0_r; lia).
    all: try (replace (ey - ez) with 0 by (unfold ez in *; lia); rewrite Z.pow_0_r; lia).
Qed.

Lemma digits_mul_ge (a b : positive) :
  Zpos (digits2_pos a) <= Zpos (digits2_pos (a * b)).
Proof.
  rewrite !digits_log2. apply Z.add_le_mono_r, Z.log2_le_mono.
  rewrite Pos2Z.inj_mul. nia.
Qed.

Lemma SFmul_ord x y :
  valid_binary x = true -> valid_binary y = true -> SFfinite x -> SFfinite y ->
  SFnonneg (SFmul prec emax x y) /\
  ord (SFmul prec emax x y) = cap (RNu 1074 (ord x * ord y)).
Proof.
  intros Hx Hy Fx Fy.
  destruct x as [sx|sx| |[|] mx ex]; try (exfalso; exact Fx);
    destruct y as [sy|sy| |[|] my ey]; try (exfalso; exact Fy).
  - cbn [SFmul ord]. rewrite Z.mul_0_l, RNu_0 by lia. split; [exact I|reflexivity].
  - cbn [SFmul ord]. rewrite Z.mul_0_l, RNu_0 by lia. split; [exact I|reflexivity].
  - cbn [SFmul ord]. rewrite Z.mul_0_r, RNu_0 by lia. split; [exact I|reflexivity].
  - pose proof (valid_finite _ _ _ Hx) as (Hex & Hdx & Hcx).
    pose proof (valid_finite _ _ _ Hy) as (Hey & Hdy & Hcy).
    cbn [SFmul ord xorb].
    destruct (round_aux_ord (mx * my) (ex + ey) 1074) as [Hn Ho].
    + lia.
    + lia.
    + rewrite fexp_eq.
      pose proof (digits_mul_ge mx my) as H1.
      pose proof (digits_mul_ge my mx) as H2.
      rewrite (Pos.mul_comm my mx) in H2.
      lia.
    + split; [exact Hn|]. rewrite Ho. f_equal. f_equal.
      rewrite Pos2Z.inj_mul.
      replace (ex + ey + 1074 + 1074) with ((ex + 1074) + (ey + 1074)) by lia.
      rewrite pow2_split by lia. ring.
Qed.

(** *** The sign of a rounded result *)

Lemma shr_1_nonneg mrs : 0 <= shr_m mrs -> 0 <= shr_m (shr_1 mrs).
Proof.
  destruct mrs as [m r s]. cbn [shr_m]. intros Hm.
  rewrite shr_1_spec by exact Hm. cbn [shr_m]. apply Z.div_pos; lia.
Qed.

Lemma shr_nonneg mrs e n : 0 <= shr_m mrs -> 0 <= shr_m (fst (shr mrs e n)).
Proof.
  intros Hm. destruct n as [|p|p]; cbn [shr fst]; try exact Hm.
  rewrite iter_pos_nat. induction (Pos.to_nat p) as [|k IH]; [exact Hm|].
  cbn [Nat.iter]. apply shr_1_nonneg, IH.
Qed.

Lemma round_nearest_even_nonneg m l : 0 <= m -> 0 <= round_nearest_even m l.
Proof.
  intros Hm. destruct l as [|[]]; cbn [round_nearest_even]; try lia.
  destruct (Z.even m); lia.
Qed.

Lemma shr_record_of_loc_m m l : shr_m (shr_record_of_loc m l) = m.
Proof. destruct l as [|[]]; reflexivity. Qed.

Lemma round_aux_nonneg mx ex lx :
  0 <= mx -> SFnonneg (binary_round_aux prec emax false mx ex lx).
Proof.
  intros Hm. unfold binary_round_aux, shr_fexp.
  match goal with
  | |- context [shr ?mrs ?e ?n] =>
      pose proof (shr_nonneg mrs e n) as H1; destruct (shr mrs e n) as [mrs1 e1]
  end.
  rewrite shr_record_of_loc_m in H1. specialize (H1 Hm). cbn [fst] in H1.
  pose proof (round_nearest_even_nonneg _ (loc_of_shr_record mrs1) H1) as H2.
  match goal with
  | |- context [shr ?mrs ?e ?n] =>
      pose proof (shr_nonneg mrs e n) as H3; destruct (shr mrs e n) as [mrs2 e2]
  end.
  cbn [shr_record_of_loc shr_m fst] in H3. specialize (H3 H2).
  destruct (shr_m mrs2) as [|p|p]; [exact I| |lia].
  destruct (e2 <=? emax - prec); exact I.
Qed.

Lemma SFdiv_nonneg x my ey :
  SFnonneg x ->
  SFnonneg (SFdiv prec emax x (S754_finite false my ey)).
Proof.
  intros Hx. destruct x as [sx|[|]| |[|] mx ex]; try (exfalso; exact Hx).
  - destruct sx; exact I.
  - exact I.
  - cbn [SFdiv xorb]. unfold SFdiv_core_binary.
    match goal with
    | |- context [Z.div_eucl ?a ?b] =>
        pose proof (Z.div_eucl_eq a b ltac:(lia)) as Heq;
        pose proof (Z.mod_pos_bound a b ltac:(lia)) as Hr;
        assert (Ha : 0 <= a);
        [|unfold Z.modulo in Hr; destruct (Z.div_eucl a b) as [q r]]
    end.
    { destruct (ex - ey - _) as [|p|p]; [lia| |lia]. apply Z.shiftl_nonneg. lia. }
    apply round_aux_nonneg. nia.
Qed.


(** *** Binary64 numbers of the kernel *)

Definition ordf (x : float) : Z := ord (Prim2SF x).
Definition number (x : float) : Prop := Prim2SF x <> S754_nan.

(** Nonnegative (a zero of either sign, a positive number or the positive
    infinity) and, moreover, finite. *)
Definition nonneg (x : float) : Prop := SFnonneg (Prim2SF x).
Definition finite (x : float) : Prop := SFfinite (Prim2SF x).

(** The comparisons of floats are those of their order values. *)
Lemma leb_iff x y :
  (x <=? y)%float = true <-> number x /\ number y /\ ordf x <= ordf y.
Proof.
  rewrite leb_spec. unfold SFleb, number, ordf.
  destruct (Prim2SF x) as [sx|sx| |sx mx ex] eqn:Hx.
  3: { cbn. split; [discriminate|]. intros (H & _). congruence. }
  all: destruct (Prim2SF y) as [sy|sy| |sy my ey] eqn:Hy.
  all: try (rewrite (compare_ord _ _);
            [ | rewrite <- ?Hx, <- ?Hy; apply Prim2SF_valid ..| discriminate | discriminate ];
            match goal with
            | |- context [?a ?= ?b] =>
                destruct (Z.compare_spec a b);
                (split; [intros H'; try discriminate H';
                         repeat split; try discriminate; lia
                        |intros (_ & _ & H'); try reflexivity; lia])
            end).
  all: cbn; split; [discriminate|]; intros (_ & H & _); congruence.
Qed.


Lemma ltb_iff x y :
  (x <? y)%float = true <-> number x /\ number y /\ ordf x < ordf y.
Proof.
  rewrite ltb_spec. unfold SFltb, number, ordf.
  destruct (Prim2SF x) as [sx|sx| |sx mx ex] eqn:Hx.
  3: { cbn. split; [discriminate|]. intros (H & _). congruence. }
  all: destruct (Prim2SF y) as [sy|sy| |sy my ey] eqn:Hy.
  all: try (rewrite (compare_ord _ _);
            [ | rewrite <- ?Hx, <- ?Hy; apply Prim2SF_valid ..| discriminate | discriminate ];
            match goal with
            | |- context [?a ?= ?b] =>
                destruct (Z.compare_spec a b);
                (split; [intros H'; try discriminate H';
                         repeat split; try discriminate; lia
                        |intros (_ & _ & H'); try reflexivity; lia])
            end).
  all: cbn; split; [discriminate|]; intros (_ & H & _); congruence.
Qed.

(** Between numbers, [<] is the negation of the converse [<=]. *)
Lemma ltb_negb_leb x y :
  number x -> number y -> (x <? y)%float = negb (y <=? x)%float.
Proof.
  intros Hx Hy.
  destruct (x <? y)%float eqn:Hlt; destruct (y <=? x)%float eqn:Hle;
    try reflexivity; exfalso.
  - apply ltb_iff in Hlt. apply leb_iff in Hle. lia.
  - destruct (Z.lt_ge_cases (ordf x) (ordf y)) as [H|H].
    + assert (Ht : (x <? y)%float = true) by (apply ltb_iff; auto). congruence.
    + assert (Ht : (y <=? x)%float = true) by (apply leb_iff; auto). congruence.
Qed.

Lemma leb_number x y : (x <=? y)%float = true -> number x /\ number y.
Proof. rewrite leb_iff. tauto. Qed.

Lemma leb_trans x y z :
  (x <=? y)%float = true -> (y <=? z)%float = true -> (x <=? z)%float = true.
Proof. rewrite !leb_iff. intros (? & ? & ?) (? & ? & ?). repeat split; auto; lia. Qed.

Lemma ord_nonneg s : valid_binary s = true -> SFnonneg s -> 0 <= ord s.
Proof.
  intros Hv Hs. destruct s as [sx|[|]| |[|] m e]; try (exfalso; exact Hs); cbn [ord].
  - lia.
  - apply Z.pow_nonneg. lia.
  - pose proof (finite_ord_bounds _ _ _ Hv). lia.
Qed.

Lemma nonneg_iff x : nonneg x <-> (0 <=? x)%float = true.
Proof.
  rewrite leb_iff. unfold nonneg, number, ordf.
  change (Prim2SF 0) with (S754_zero false). cbn [ord].
  pose proof (Prim2SF_valid x) as Hv.
  destruct (Prim2SF x) as [sx|[|]| |[|] m e]; cbn [SFnonneg ord].
  - split; [intros _; repeat split; try discriminate; lia|tauto].
  - split; [intros []|]. intros (_ & _ & H).
    assert (0 < 2 ^ 2100) by (apply Z.pow_pos_nonneg; lia). lia.
  - split; [intros _; repeat split; try discriminate; apply Z.pow_nonneg; lia|tauto].
  - split; [intros []|]. intros (_ & H & _). congruence.
  - split; [intros []|]. intros (_ & _ & H).
    pose proof (finite_ord_bounds _ _ _ Hv). lia.
  - split; [|tauto]. intros _. pose proof (finite_ord_bounds _ _ _ Hv).
    repeat split; try discriminate; lia.
Qed.

Lemma finite_nonneg x : finite x -> nonneg x.
Proof.
  unfold finite, nonneg. destruct (Prim2SF x) as [sx|[|]| |[|] m e]; cbn; tauto.
Qed.

Lemma finite_iff x : finite x <-> nonneg x /\ ordf x < 2 ^ 2098.
Proof.
  unfold finite, nonneg, ordf. pose proof (Prim2SF_valid x) as Hv.
  assert (H98 : 0 < 2 ^ 2098) by (apply Z.pow_pos_nonneg; lia).
  assert (H100 : 2 ^ 2098 < 2 ^ 2100) by (apply Z.pow_lt_mono_r; lia).
  destruct (Prim2SF x) as [sx|[|]| |[|] m e]; cbn [SFfinite SFnonneg ord].
  - split; [intros _; split; [exact I|lia]|intros _; exact I].
  - split; [intros []|intros [[] _]].
  - split; [intros []|intros [_ H]; lia].
  - split; [intros []|intros [[] _]].
  - split; [intros []|intros [[] _]].
  - pose proof (finite_ord_bounds _ _ _ Hv).
    split; [intros _; split; [exact I|lia]|intros _; exact I].
Qed.

(** A nonnegative number below a finite one is finite. *)
Lemma le_finite x y : nonneg x -> (x <=? y)%float = true -> finite y -> finite x.
Proof.
  intros Hx Hle Hy. apply finite_iff. apply finite_iff in Hy.
  apply leb_iff in Hle. split; [exact Hx|]. lia.
Qed.

Lemma nonneg_number x : nonneg x -> number x.
Proof.
  unfold nonneg, number. destruct (Prim2SF x) as [sx|[|]| |[|] m e]; cbn; try tauto;
    discriminate.
Qed.

(** The sum and the product of nonnegative finite numbers: the exact
    result, rounded. *)
Lemma add_ord x y :
  finite x -> finite y ->
  nonneg (x + y) /\ ordf (x + y) = cap (RNu 0 (ordf x + ordf y)).
Proof.
  intros Hx Hy. unfold nonneg, ordf. rewrite add_spec.
  apply SFadd_ord; auto using Prim2SF_valid.
Qed.

Lemma mul_ord x y :
  finite x -> finite y ->
  nonneg (x * y) /\ ordf (x * y) = cap (RNu 1074 (ordf x * ordf y)).
Proof.
  intros Hx Hy. unfold nonneg, ordf. rewrite mul_spec.
  apply SFmul_ord; auto using Prim2SF_valid.
Qed.

Lemma ordf_nonneg x : nonneg x -> 0 <= ordf x.
Proof. intros H. apply ord_nonneg; [apply Prim2SF_valid|exact H]. Qed.

(** Rounded addition and multiplication are monotone. *)
Lemma add_le_mono x x' y y' :
  nonneg x -> nonneg y -> finite x' -> finite y' ->
  (x <=? x')%float = true -> (y <=? y')%float = true ->
  nonneg (x + y) /\ (x + y <=? x' + y')%float = true.
Proof.
  intros Hx Hy Hx' Hy' Hxx Hyy.
  pose proof (le_finite _ _ Hx Hxx Hx') as Fx.
  pose proof (le_finite _ _ Hy Hyy Hy') as Fy.
  destruct (add_ord x y Fx Fy) as [Hn Ho].
  destruct (add_ord x' y' Hx' Hy') as [Hn' Ho'].
  split; [exact Hn|]. apply leb_iff.
  split; [apply nonneg_number, Hn|]. split; [apply nonneg_number, Hn'|].
  rewrite Ho, Ho'. apply cap_mono, RNu_mono; [lia|].
  apply leb_iff in Hxx, Hyy.
  pose proof (ordf_nonneg x Hx). pose proof (ordf_nonneg y Hy). lia.
Qed.

Lemma mul_le_mono x x' w :
  nonneg x -> finite x' -> finite w ->
  (x <=? x')%float = true ->
  nonneg (x * w) /\ (x * w <=? x' * w)%float = true.
Proof.
  intros Hx Hx' Hw Hxx.
  pose proof (le_finite _ _ Hx Hxx Hx') as Fx.
  destruct (mul_ord x w Fx Hw) as [Hn Ho].
  destruct (mul_ord x' w Hx' Hw) as [Hn' Ho'].
  split; [exact Hn|]. apply leb_iff.
  split; [apply nonneg_number, Hn|]. split; [apply nonneg_number, Hn'|].
  rewrite Ho, Ho'. apply cap_mono, RNu_mono; [lia|].
  apply leb_iff in Hxx.
  pose proof (ordf_nonneg x Hx). pose proof (ordf_nonneg w (finite_nonneg w Hw)).
  split; [nia|]. apply Z.mul_le_mono_nonneg_r; lia.
Qed.

(** The sum of nonnegative numbers, infinite ones included. *)
Lemma add_nonneg x y : nonneg x -> nonneg y -> nonneg (x + y).
Proof.
  intros Hx Hy. unfold nonneg in *. rewrite add_spec.
  pose proof (Prim2SF_valid x) as Vx. pose proof (Prim2SF_valid y) as Vy.
  destruct (Prim2SF x) as [sx|[|]| |[|] mx ex] eqn:Ex; try (exfalso; exact Hx);
    destruct (Prim2SF y) as [sy|[|]| |[|] my ey] eqn:Ey; try (exfalso; exact Hy);
    try exact I.
  - destruct sx, sy; exact I.
  - apply (SFadd_ord (S754_finite false mx ex) (S754_finite false my ey)); auto; exact I.
Qed.

(** The quotient of a nonnegative number by a positive finite one. *)
Definition positive_finite (x : float) : Prop :=
  match Prim2SF x with S754_finite false _ _ => True | _ => False end.

Lemma div_nonneg x y : nonneg x -> positive_finite y -> nonneg (x / y).
Proof.
  intros Hx Hy. unfold nonneg, positive_finite in *. rewrite div_spec.
  destruct (Prim2SF y) as [sy|sy| |[|] my ey]; try (exfalso; exact Hy).
  apply SFdiv_nonneg, Hx.
Qed.


(** *** Integers as floats *)

Lemma RNu_pow2 k : 0 <= k -> RNu 0 (2 ^ k) = 2 ^ k.
Proof.
  intros Hk. unfold RNu. cbv zeta. rewrite Z.log2_pow2 by lia.
  destruct (Z.le_gt_cases k 52) as [Hle|Hgt].
  - replace (Z.max (k + 1 - 53) 0) with 0 by lia.
    unfold rne_div. cbn. lia.
  - replace (Z.max (k + 1 - 53) 0) with (k - 52) by lia.
    replace (2 ^ k) with (2 ^ 52 * 2 ^ (k - 52))
      by (rewrite <- pow2_split by lia; f_equal; lia).
    rewrite rne_div_exact by lia. rewrite Z.sub_0_r. reflexivity.
Qed.

Lemma SFnonneg_small s : SFnonneg s -> ord s < 2 ^ 2100 -> SFfinite s.
Proof.
  destruct s as [sx|[|]| |[|] m e]; cbn [SFnonneg SFfinite ord]; try tauto. lia.
Qed.

Lemma of_uint63_ord n :
  finite (of_uint63 n) /\ ordf (of_uint63 n) = RNu 0 (Uint63.to_Z n * 2 ^ 1074).
Proof.
  unfold finite, ordf. rewrite of_uint63_spec.
  pose proof (Uint63.to_Z_bounded n) as [Hlo Hhi].
  change Uint63.wB with (2 ^ 63) in Hhi.
  destruct (Uint63.to_Z n) as [|p|p] eqn:Hn; [| |lia].
  - cbn [binary_normalize SFfinite ord]. rewrite Z.mul_0_l, RNu_0 by lia.
    split; [exact I|reflexivity].
  - cbn [binary_normalize].
    destruct (binary_round_ord p 0 ltac:(lia)) as [Hnn Ho].
    rewrite Z.add_0_l in Ho.
    assert (Hle : RNu 0 (Zpos p * 2 ^ 1074) <= 2 ^ 1137).
    { rewrite <- (RNu_pow2 1137) by lia. apply RNu_mono; [lia|].
      change (2 ^ 1137) with (2 ^ 63 * 2 ^ 1074).
      assert (0 < 2 ^ 1074) by (apply Z.pow_pos_nonneg; lia). nia. }
    assert (H98 : 2 ^ 1137 < 2 ^ 2098) by (apply Z.pow_lt_mono_r; lia).
    assert (H100 : 2 ^ 2098 < 2 ^ 2100) by (apply Z.pow_lt_mono_r; lia).
    rewrite cap_small in Ho by lia.
    split; [|exact Ho]. apply SFnonneg_small; [exact Hnn|]. lia.
Qed.

Lemma of_int_finite z : 0 <= z -> finite (PyFloat.of_int z).
Proof.
  intros Hz. unfold PyFloat.of_int. destruct (Z.ltb_spec z 0); [lia|].
  apply of_uint63_ord.
Qed.

Lemma of_int_positive z : 0 < z < 2 ^ 63 -> positive_finite (PyFloat.of_int z).
Proof.
  intros [Hlo Hhi]. unfold PyFloat.of_int. destruct (Z.ltb_spec z 0); [lia|].
  destruct (of_uint63_ord (Uint63.of_Z z)) as [Hf Ho].
  rewrite Uint63.of_Z_spec in Ho. change Uint63.wB with (2 ^ 63) in Ho.
  rewrite Z.mod_small in Ho by lia.
  assert (Hge : 2 ^ 1074 <= RNu 0 (z * 2 ^ 1074)).
  { rewrite <- (RNu_pow2 1074) at 1 by lia. apply RNu_mono; [lia|].
    assert (0 < 2 ^ 1074) by (apply Z.pow_pos_nonneg; lia). nia. }
  assert (Hp : 0 < 2 ^ 1074) by (apply Z.pow_pos_nonneg; lia).
  unfold finite, ordf, positive_finite in *.
  destruct (Prim2SF (of_uint63 (Uint63.of_Z z))) as [sx|[|]| |[|] m e];
    cbn [SFfinite ord] in *; try tauto; lia.
Qed.


Lemma eqb_refl_iff x : (x =? x)%float = true <-> number x.
Proof.
  rewrite eqb_spec. unfold SFeqb, number.
  pose proof (Prim2SF_valid x) as Hv.
  destruct (Prim2SF x) as [sx|sx| |sx mx ex] eqn:Hx.
  3: { cbn. split; [discriminate|congruence]. }
  all: rewrite compare_ord by (assumption || discriminate);
    rewrite Z.compare_refl; split; [discriminate|reflexivity].
Qed.

(** Not to reach [t] is to be below it, or not to be a number. *)
Lemma not_leb_iff t s :
  number t ->
  ((t <=? s)%float = false <-> (s <? t)%float = true \/ (s =? s)%float = false).
Proof.
  intros Ht. split.
  - intros Hf. destruct (s =? s)%float eqn:E; [left|right; reflexivity].
    apply eqb_refl_iff in E. rewrite ltb_negb_leb by assumption.
    rewrite Hf. reflexivity.
  - intros [Hlt|Hnan]; destruct (t <=? s)%float eqn:E; try reflexivity; exfalso.
    + apply ltb_iff in Hlt. apply leb_iff in E. lia.
    + apply leb_number in E. destruct E as [_ Hs].
      apply eqb_refl_iff in Hs. congruence.
Qed.

End Binary64.

(** ** Python strings and the built-ins used by the sources *)

Module Py.

Definition char := N.
Definition str := list char.

(** An ASCII literal of the source, as a list of code points. *)
Definition lit (s : string) : str :=
  map N_of_ascii (list_ascii_of_string s).

(** [len(s)] *)
Definition len {A} (s : list A) : Z := Z.of_nat (length s).

(** [s[:k]]: a negative [k] counts from the end. *)
Definition slice_to {A} (k : Z) (s : list A) : list A :=
  if 0 <=? k then firstn (Z.to_nat k) s
  else firstn (Z.to_nat (len s + k)) s.

(** Number of bytes of the UTF-8 encoding of a code point and of a string. *)
Definition utf8_width (c : char) : Z :=
  if (c <? 128)%N then 1
  else if (c <? 2048)%N then 2
  else if (c <? 65536)%N then 3
  else 4.

Definition byte_size (s : str) : Z :=
  fold_right (fun c n => utf8_width c + n) 0 s.

(** [sep.join(parts)] *)
Fixpoint join (sep : str) (parts : list str) : str :=
  match parts with
  | [] => []
  | [p] => p
  | p :: rest => p ++ sep ++ join sep rest
  end.

(** [needle in hay] on strings. *)
Fixpoint starts_with (p s : str) : bool :=
  match p, s with
  | [], _ => true
  | _ :: _, [] => false
  | a :: p', b :: s' => (a =? b)%N && starts_with p' s'
  end.

Fixpoint contains (needle hay : str) : bool :=
  starts_with needle hay ||
  match hay with
  | [] => false
  | _ :: hay' => contains needle hay'
  end.

(** [hay.count(needle)]: occurrences that do not overlap, scanning from the
    left.  [skip] is the number of characters still covered by the last
    occurrence found.  An empty needle occurs [len(hay) + 1] times. *)
Fixpoint count_from (needle hay : str) (skip : nat) : Z :=
  match hay with
  | [] => 0
  | _ :: hay' =>
      match skip with
      | S k => count_from needle hay' k
      | O => if starts_with needle hay
             then 1 + count_from needle hay' (length needle - 1)
             else count_from needle hay' 0
      end
  end.

Definition count (needle hay : str) : Z :=
  match needle with
  | [] => len hay + 1
  | _ => count_from needle hay 0
  end.

(** Decimal digits of a natural number, most significant first. *)
Fixpoint uint_digits (d : Decimal.uint) : str :=
  match d with
  | Decimal.Nil => []
  | Decimal.D0 r => 48%N :: uint_digits r
  | Decimal.D1 r => 49%N :: uint_digits r
  | Decimal.D2 r => 50%N :: uint_digits r
  | Decimal.D3 r => 51%N :: uint_digits r
  | Decimal.D4 r => 52%N :: uint_digits r
  | Decimal.D5 r => 53%N :: uint_digits r
  | Decimal.D6 r => 54%N :: uint_digits r
  | Decimal.D7 r => 55%N :: uint_digits r
  | Decimal.D8 r => 56%N :: uint_digits r
  | Decimal.D9 r => 57%N :: uint_digits r
  end.

Definition digits (n : N) : str := uint_digits (N.to_uint n).

(** [str(z)] for an int. *)
Definition decimal (z : Z) : str :=
  if z <? 0 then 45%N :: digits (Z.abs_N z) else digits (Z.abs_N z).

(** Thousands separators: a comma before every group of three digits that
    is not the first. *)
Fixpoint group3 (ds : str) : str :=
  match ds with
  | [] => []
  | d :: rest =>
      if (0 <? length rest)%nat && (length rest mod 3 =? 0)%nat
      then d :: 44%N :: group3 rest
      else d :: group3 rest
  end.

(** [format(z, ',')] for an int. *)
Definition decimal_commas (z : Z) : str :=
  if z <? 0 then 45%N :: group3 (digits (Z.abs_N z))
  else group3 (digits (Z.abs_N z)).

(** [a == b] on strings. *)
Fixpoint eqb_str (a b : str) : bool :=
  match a, b with
  | [], [] => true
  | x :: a', y :: b' => (x =? y)%N && eqb_str a' b'
  | _, _ => false
  end.

(** [str.lower] on ASCII text: the letters A-Z are mapped to a-z. *)
Definition ascii_lower_char (c : char) : char :=
  if (65 <=? c)%N && (c <=? 90)%N then (c + 32)%N else c.

Definition ascii_lower (s : str) : str := map ascii_lower_char s.

Definition is_ascii (s : str) : Prop := Forall (fun c => (c < 128)%N) s.

(** The characters matched by [\s] in a [str] pattern (and by
    [str.isspace]). *)
Definition is_space (c : char) : bool :=
  ((9 <=? c) && (c <=? 13) || (28 <=? c) && (c <=? 32) || (c =? 133) ||
   (c =? 160) || (c =? 5760) || (8192 <=? c) && (c <=? 8202) ||
   (c =? 8232) || (c =? 8233) || (c =? 8239) || (c =? 8287) ||
   (c =? 12288))%N.

(** [c * n] for a one-character string. *)
Definition replicate_char (n : nat) (c : char) : str := repeat c n.

Lemma len_app {A} (a b : list A) : len (a ++ b) = len a + len b.
Proof. unfold len. rewrite length_app. lia. Qed.

Lemma len_nonneg {A} (a : list A) : 0 <= len a.
Proof. unfold len. lia. Qed.

Lemma utf8_width_pos c : 1 <= utf8_width c.
Proof. unfold utf8_width. repeat case_match; lia. Qed.

Lemma byte_size_app a b : byte_size (a ++ b) = byte_size a + byte_size b.
Proof. induction a as [|c a IH]; simpl; [lia|]. rewrite IH. lia. Qed.

Lemma byte_size_ge_len s : len s <= byte_size s.
Proof.
  unfold len. induction s as [|c s IH]; simpl; [lia|].
  pose proof (utf8_width_pos c). lia.
Qed.

Lemma len_replicate_char n c : len (replicate_char n c) = Z.of_nat n.
Proof. unfold len, replicate_char. by rewrite repeat_length. Qed.

Lemma byte_size_replicate_ascii n c :
  (c < 128)%N -> byte_size (replicate_char n c) = Z.of_nat n.
Proof.
  intros Hc. unfold replicate_char.
  induction n as [|n IH]; [reflexivity|].
  change (byte_size (repeat c (S n))) with (utf8_width c + byte_size (repeat c n)).
  transitivity (utf8_width c + Z.of_nat n); [f_equal; exact IH|].
  unfold utf8_width. destruct (N.ltb_spec c 128); lia.
Qed.

Lemma eqb_str_eq a b : eqb_str a b = true <-> a = b.
Proof.
  revert b. induction a as [|x a IH]; intros [|y b]; cbn [eqb_str];
    try (split; [discriminate|congruence]); [tauto|].
  rewrite andb_true_iff, N.eqb_eq, IH. split; [intros [-> ->]; reflexivity|].
  intros H. injection H as -> ->. tauto.
Qed.

Lemma eqb_str_refl a : eqb_str a a = true.
Proof. apply eqb_str_eq. reflexivity. Qed.

Lemma len_join_ge_head sep p rest : len p <= len (join sep (p :: rest)).
Proof.
  destruct rest as [|q rest]; [simpl; lia|].
  change (join sep (p :: q :: rest)) with (p ++ sep ++ join sep (q :: rest)).
  rewrite !len_app. pose proof (len_nonneg sep).
  pose proof (len_nonneg (join sep (q :: rest))). lia.
Qed.

End Py.

(** ** response_limiter.py *)

Module ResponseLimiter.
Import Py.

Definition MAX_RESPONSE_SIZE : Z := 500 * 1024.
Definition MAX_CONTENT_PREVIEW : Z := 1000.
Definition MAX_SEARCH_RESULTS : Z := 20.

(** [truncate_text(text, max_length)] *)
Definition truncate_text (text : str) (max_length : Z) : str :=
  if len text <=? max_length then text
  else slice_to (max_length - 4) text ++ lit " ...".

(** The float products [MAX_RESPONSE_SIZE * 0.8] and
    [MAX_RESPONSE_SIZE * 0.9] of the source are the integers below, exactly
    (see [budgets_exact]); comparing an int with them is comparing with
    these integers. *)
Definition SEARCH_BUDGET : Z := 409600.
Definition DOCS_BUDGET : Z := 460800.

(** Values of the dictionaries handed to the limiter: the Python values of
    SQLite columns of type NULL, INTEGER and TEXT, and [bool].  REAL columns
    ([quality_score], [rank]) are not read by any function below and are
    left out of the modelled dictionaries. *)
Inductive value :=
| VNone
| VBool (b : bool)
| VInt (z : Z)
| VStr (s : str).

(** A [dict] with string keys, in insertion order, keys distinct. *)
Definition dict := list (str * value).

(** [d.get(k)] *)
Fixpoint get (k : str) (d : dict) : option value :=
  match d with
  | [] => None
  | (k', v) :: d' => if eqb_str k k' then Some v else get k d'
  end.

(** [d.get(k, default)] *)
Definition get_default (k : str) (default : value) (d : dict) : value :=
  match get k d with Some v => v | None => default end.

(** [d[k] = v]: an existing key keeps its place. *)
Fixpoint set (k : str) (v : value) (d : dict) : dict :=
  match d with
  | [] => [(k, v)]
  | (k', v') :: d' =>
      if eqb_str k k' then (k', v) :: d' else (k', v') :: set k v d'
  end.

(** [str(v)], as an f-string field prints it. *)
Definition py_str (v : value) : str :=
  match v with
  | VNone => lit "None"
  | VBool true => lit "True"
  | VBool false => lit "False"
  | VInt z => decimal z
  | VStr s => s
  end.

(** Truth value of [v] in an [if]. *)
Definition truthy (v : value) : bool :=
  match v with
  | VNone => false
  | VBool b => b
  | VInt z => negb (z =? 0)
  | VStr s => negb (eqb_str s [])
  end.

(** [f"{v:,}"]: defined on ints (and bools, which are ints); a [str] raises
    ValueError and [None] raises TypeError. *)
Definition format_commas (v : value) : option str :=
  match v with
  | VInt z => Some (decimal_commas z)
  | VBool b => Some (decimal_commas (if b then 1 else 0))
  | VStr _ | VNone => None
  end.

(** [json.dumps] with its default settings ([ensure_ascii], separators
    [", "] and [": "]). *)
Definition hex_digit (n : N) : char :=
  if (n <? 10)%N then (48 + n)%N else (87 + n)%N.

Definition u_escape (n : N) : str :=
  [92; 117; hex_digit (n / 4096 mod 16); hex_digit (n / 256 mod 16);
   hex_digit (n / 16 mod 16); hex_digit (n mod 16)]%N.

Definition json_char (c : char) : str :=
  if (c =? 34)%N then [92; 34]%N
  else if (c =? 92)%N then [92; 92]%N
  else if (32 <=? c)%N && (c <=? 126)%N then [c]
  else if (c =? 10)%N then [92; 110]%N
  else if (c =? 13)%N then [92; 114]%N
  else if (c =? 9)%N then [92; 116]%N
  else if (c =? 8)%N then [92; 98]%N
  else if (c =? 12)%N then [92; 102]%N
  else if (c <? 65536)%N then u_escape c
  else u_escape (55296 + (c - 65536) / 1024) ++
       u_escape (56320 + (c - 65536) mod 1024).

Definition json_string (s : str) : str :=
  34%N :: flat_map json_char s ++ [34%N].

Definition json_value (v : value) : str :=
  match v with
  | VNone => lit "null"
  | VBool true => lit "true"
  | VBool false => lit "false"
  | VInt z => decimal z
  | VStr s => json_string s
  end.

Definition json_item (kv : str * value) : str :=
  json_string (fst kv) ++ lit ": " ++ json_value (snd kv).

Definition json_dumps (d : dict) : str :=
  lit "{" ++ join (lit ", ") (map json_item d) ++ lit "}".

(** [estimate_size(obj)]: [json.dumps] cannot fail on these dictionaries,
    so the [except] branch is never taken. *)
Definition estimate_size (d : dict) : Z := len (json_dumps d).

(** The in-place truncation of one field in [limit_search_results]:
    [len] of a value that is not a string raises TypeError. *)
Definition truncate_field (k : str) (max_length : Z) (d : dict) : option dict :=
  match get k d with
  | None => Some d
  | Some (VStr s) => Some (set k (VStr (truncate_text s max_length)) d)
  | Some _ => None
  end.

(** The loop of [limit_search_results], over [results[:MAX_SEARCH_RESULTS]],
    with the running [total_size]. *)
Fixpoint limit_loop (results : list dict) (total_size : Z) : option (list dict) :=
  match results with
  | [] => Some []
  | result :: rest =>
      r1 ← truncate_field (lit "snippet") 200 result;
      r2 ← truncate_field (lit "description") 100 r1;
      let result_size := estimate_size r2 in
      if total_size + result_size >? SEARCH_BUDGET then Some []
      else limited ← limit_loop rest (total_size + result_size);
           Some (r2 :: limited)
  end.

Definition limit_search_results (results : list dict) : option (list dict) :=
  limit_loop (slice_to MAX_SEARCH_RESULTS results) 0.

(** [limit_document_content(content)] *)
Definition limit_document_content (content : str) : str :=
  truncate_text content MAX_CONTENT_PREVIEW.

(** The lines [format_search_response] appends for one result. *)
Definition search_result_lines (r : dict) : option (list str) :=
  stars ← format_commas (get_default (lit "stars") (VInt 0) r);
  Some ([ [128230%N] ++ lit " " ++
          py_str (get_default (lit "full_name") (VStr (lit "Unknown")) r) ++
          lit " " ++ [11088%N] ++ lit " " ++ stars ] ++
        (if truthy (get_default (lit "language") VNone r)
         then [lit "   Language: " ++ py_str (get_default (lit "language") VNone r)]
         else []) ++
        (if truthy (get_default (lit "path") VNone r)
         then [lit "   File: " ++ py_str (get_default (lit "path") VNone r)]
         else []) ++
        (if truthy (get_default (lit "snippet") VNone r)
         then [lit "   Preview: " ++ py_str (get_default (lit "snippet") VNone r)]
         else []) ++
        [ [] ]).

Fixpoint search_lines (rs : list dict) : option (list str) :=
  match rs with
  | [] => Some []
  | r :: rest =>
      ls ← search_result_lines r;
      more ← search_lines rest;
      Some (ls ++ more)
  end.

Definition NL : str := [10%N].

(** [format_search_response(results, query)] *)
Definition format_search_response (results : list dict) (query : str) : option str :=
  match results with
  | [] => Some (lit "No results found for '" ++ query ++ lit "'")
  | _ =>
      limited_results ← limit_search_results results;
      body ← search_lines limited_results;
      let output :=
        [ [128269%N] ++ lit " Search Results for '" ++ query ++ lit "'";
          lit "Showing " ++ decimal (len limited_results) ++ lit " of " ++
          decimal (len results) ++ lit " results" ++ NL ] ++ body in
      let result_text := join NL output in
      if len result_text >? MAX_RESPONSE_SIZE
      then Some (slice_to (MAX_RESPONSE_SIZE - 100) result_text ++
                 NL ++ NL ++ lit "[Response truncated due to size limits]")
      else Some result_text
  end.

(** The [section] list built for one document in [format_docs_response];
    [limit_document_content] raises TypeError on a content that is not a
    string. *)
Definition doc_section (doc : dict) : option (list str) :=
  match get_default (lit "content") (VStr []) doc with
  | VStr content =>
      Some ([ replicate_char 50 61%N;
              [128196%N] ++ lit " " ++
              py_str (get_default (lit "path") (VStr (lit "Unknown")) doc);
              replicate_char 50 61%N;
              limit_document_content content ] ++
            (if negb (eqb_str content []) && (len content >? MAX_CONTENT_PREVIEW)
             then [NL ++ lit "[Content truncated - use specific file tools to view full content]"]
             else []) ++
            [ [] ])
  | _ => None
  end.

(** The marker appended when the loop of [format_docs_response] breaks. *)
Definition docs_marker (remaining : Z) : str :=
  NL ++ lit "[" ++ decimal remaining ++
  lit " more documents not shown due to size limits]".

(** The loop of [format_docs_response]: [rest] is [docs[i:]], [n] is
    [len(docs)]; the result is what the loop adds to [output]. *)
Fixpoint docs_loop (n : Z) (rest : list dict) (i : Z) (total_size : Z) : option (list str) :=
  match rest with
  | [] => Some []
  | doc :: rest' =>
      section ← doc_section doc;
      let section_size := len (join NL section) in
      if total_size + section_size >? DOCS_BUDGET
      then Some [docs_marker (n - i)]
      else more ← docs_loop n rest' (i + 1) (total_size + section_size);
           Some (section ++ more)
  end.

Definition docs_header (repo_name : str) : str :=
  [128218%N] ++ lit " Documentation for " ++ repo_name ++ NL.

(** [format_docs_response(docs, repo_name)] *)
Definition format_docs_response (docs : list dict) (repo_name : str) : option str :=
  match docs with
  | [] => Some (lit "No documentation found for '" ++ repo_name ++ lit "'")
  | _ =>
      added ← docs_loop (len docs) docs 0 (len (docs_header repo_name));
      Some (join NL (docs_header repo_name :: added))
  end.

(** The line [format_list_response] builds for one item; [item['stars']]
    is formatted with thousands separators, the description must be a
    string to be truncated. *)
Definition list_item_line (item : dict) : option str :=
  let name := [8226%N] ++ lit " " ++
              py_str (get_default (lit "name") (VStr (lit "Unknown")) item) in
  with_stars ←
    (if truthy (get_default (lit "stars") VNone item)
     then stars ← format_commas (get_default (lit "stars") VNone item);
          Some (name ++ lit " " ++ [11088%N] ++ lit " " ++ stars)
     else Some name);
  let with_category :=
    if truthy (get_default (lit "category") VNone item)
    then with_stars ++ lit " [" ++ py_str (get_default (lit "category") VNone item) ++ lit "]"
    else with_stars in
  if truthy (get_default (lit "description") VNone item)
  then match get_default (lit "description") VNone item with
       | VStr d => Some (with_category ++ lit " - " ++ truncate_text d 60)
       | _ => None
       end
  else Some with_category.

Fixpoint list_lines (items : list dict) : option (list str) :=
  match items with
  | [] => Some []
  | item :: rest =>
      line ← list_item_line item;
      more ← list_lines rest;
      Some (line :: more)
  end.

(** [format_list_response(items, title)] *)
Definition format_list_response (items : list dict) (title : str) : option str :=
  lines ← list_lines (slice_to 50 items);
  Some (join NL ([title ++ NL] ++ lines ++
                 (if len items >? 50
                  then [NL ++ lit "... and " ++ decimal (len items - 50) ++ lit " more"]
                  else []))).

(** *** Definitions used in the statements *)

(** The sections of a list of documents, one after the other: what the
    output holds for the documents that are shown. *)
Fixpoint sections_of (docs : list dict) : option (list str) :=
  match docs with
  | [] => Some []
  | doc :: rest =>
      section ← doc_section doc;
      more ← sections_of rest;
      Some (section ++ more)
  end.

(** The size the loop of [format_docs_response] counts for them. *)
Fixpoint sections_size (docs : list dict) : Z :=
  match docs with
  | [] => 0
  | doc :: rest =>
      match doc_section doc with
      | Some section => len (join NL section)
      | None => 0
      end + sections_size rest
  end.

(** Three documents, the second with a path as long as the budget of the
    loop, and what [format_docs_response] returns for them. *)
Definition readme_doc : dict :=
  [(lit "path", VStr (lit "README.md")); (lit "content", VStr (lit "hello"))].

Definition long_path_doc : dict :=
  [(lit "path", VStr (replicate_char (Z.to_nat DOCS_BUDGET) 97%N));
   (lit "content", VStr (lit "x"))].

Definition three_docs : list dict := [readme_doc; long_path_doc; readme_doc].

Definition three_docs_output : str :=
  Eval vm_compute in default [] (format_docs_response three_docs (lit "o/r")).

(** Three results, the second with a name as long as the budget of the
    loop, and what [format_search_response] returns for them. *)
Definition plain_result : dict := [(lit "full_name", VStr (lit "o/r"))].

Definition huge_result : dict :=
  [(lit "full_name", VStr (replicate_char (Z.to_nat SEARCH_BUDGET) 97%N))].

Definition three_results : list dict := [plain_result; huge_result; plain_result].

Definition three_results_output : str :=
  Eval vm_compute in default [] (format_search_response three_results (lit "q")).

(** A query of [MAX_RESPONSE_SIZE] letters. *)
Definition long_query : str := replicate_char (Z.to_nat MAX_RESPONSE_SIZE) 97%N.

(** A bundle of 200 documents of 1000 three-byte characters each. *)
Definition cjk_doc : dict :=
  [(lit "path", VStr (lit "docs/a.md"));
   (lit "content", VStr (replicate_char 1000 20013%N))].

Definition cjk_docs : list dict := repeat cjk_doc 200.

(** The sum of the sizes [limit_search_results] adds up. *)
Definition total_estimate (results : list dict) : Z :=
  fold_right (fun r acc => estimate_size r + acc) 0 results.

(** A snippet is a string of at most 200 characters, a description a
    string of at most 100 characters. *)
Definition fields_truncated (r : dict) : Prop :=
  (forall v, get (lit "snippet") r = Some v -> exists s, v = VStr s /\ len s <= 200) /\
  (forall v, get (lit "description") r = Some v -> exists s, v = VStr s /\ len s <= 100).

(** A search result with a snippet of 300 characters and a description of
    150 characters, and what [limit_search_results] makes of it. *)
Definition long_fields_result : dict :=
  [(lit "full_name", VStr (lit "o/r"));
   (lit "snippet", VStr (replicate_char 300 115%N));
   (lit "description", VStr (replicate_char 150 100%N))].

Definition long_fields_limited : list dict :=
  Eval vm_compute in default [] (limit_search_results [plain_result; long_fields_result]).

(** A search result whose description is NULL in the database. *)
Definition null_description_result : dict :=
  [(lit "full_name", VStr (lit "o/r")); (lit "description", VNone);
   (lit "snippet", VStr (lit "text"))].

(** The content of the document is absent or a string. *)
Definition content_is_text (doc : dict) : bool :=
  match get (lit "content") doc with
  | None | Some (VStr _) => true
  | Some _ => false
  end.

(** *** Properties *)

(** C10. For every text and every [max_length >= 4], [truncate_text]
    returns the text unchanged when it has at most [max_length]
    characters; otherwise the result has exactly [max_length] characters
    and ends in " ..."; in both cases the result has at most [max_length]
    characters. *)
Theorem truncate_text_spec (text : str) (max_length : Z) :
  4 <= max_length ->
  (len text <= max_length -> truncate_text text max_length = text) /\
  (max_length < len text ->
     len (truncate_text text max_length) = max_length /\
     exists prefix, truncate_text text max_length = prefix ++ lit " ...") /\
  len (truncate_text text max_length) <= max_length.
Proof.
  intros Hmax. unfold truncate_text.
  destruct (Z.leb_spec (len text) max_length) as [Hle|Hgt].
  - split; [reflexivity|]. split; [lia|exact Hle].
  - assert (Hlen : len (slice_to (max_length - 4) text ++ lit " ...") = max_length).
    { rewrite len_app. unfold slice_to.
      destruct (Z.leb_spec 0 (max_length - 4)); [|lia].
      unfold len in *. rewrite length_firstn. simpl. lia. }
    split; [lia|]. split; [|lia].
    intros _. split; [exact Hlen|]. eexists; reflexivity.
Qed.

Lemma truncate_text_spec_witness :
  len (truncate_text (lit "abcdefghij") 8) = 8 /\
  truncate_text (lit "abcdefghij") 8 = lit "abcd ...".
Proof.
  destruct (truncate_text_spec (lit "abcdefghij") 8 ltac:(lia)) as (_ & H & _).
  destruct (H ltac:(vm_compute; reflexivity)) as [Hl _].
  split; [exact Hl | reflexivity].
Defined.

(** The budgets of the two loops, as the floats the source computes. *)
Lemma budgets_exact :
  PrimFloat.mul (PyFloat.of_int MAX_RESPONSE_SIZE) (PyFloat.decimal_literal 8 10)
    = PyFloat.of_int SEARCH_BUDGET /\
  PrimFloat.mul (PyFloat.of_int MAX_RESPONSE_SIZE) (PyFloat.decimal_literal 9 10)
    = PyFloat.of_int DOCS_BUDGET.
Proof. split; vm_compute; reflexivity. Qed.

Lemma docs_loop_shape n rest : forall i total_size added,
  docs_loop n rest i total_size = Some added ->
  exists (k : nat) sections,
    (k <= length rest)%nat /\
    sections_of (firstn k rest) = Some sections /\
    added = sections ++
            (if (k <? length rest)%nat then [docs_marker (n - i - Z.of_nat k)] else []) /\
    ((0 < k)%nat -> total_size + sections_size (firstn k rest) <= DOCS_BUDGET).
Proof.
  induction rest as [|doc rest IH]; intros i total_size added Hloop.
  - injection Hloop as <-. exists 0%nat, [].
    split; [simpl; lia|]. split; [reflexivity|]. split; [reflexivity|lia].
  - cbn [docs_loop] in Hloop.
    destruct (doc_section doc) as [section|] eqn:Hsec; [|discriminate].
    cbn [mbind option_bind] in Hloop.
    destruct (total_size + len (join NL section) >? DOCS_BUDGET) eqn:Hcmp.
    + injection Hloop as <-. exists 0%nat, []. split; [simpl; lia|].
      split; [reflexivity|]. cbn [length Nat.ltb Nat.leb app].
      replace (n - i - Z.of_nat 0) with (n - i) by lia. split; [reflexivity|lia].
    + destruct (docs_loop n rest (i + 1) (total_size + len (join NL section)))
        as [more|] eqn:Hmore; [|discriminate].
      cbn [mbind option_bind] in Hloop. injection Hloop as <-.
      destruct (IH _ _ _ Hmore) as (k & sections & Hk & Hsecs & -> & Hsize).
      exists (S k), (section ++ sections). split; [simpl; lia|].
      split; [|split].
      * cbn [firstn sections_of]. rewrite Hsec. cbn [mbind option_bind].
        rewrite Hsecs. reflexivity.
      * rewrite <- app_assoc. f_equal.
        change (S k <? length (doc :: rest))%nat with (k <? length rest)%nat.
        destruct (k <? length rest)%nat; [|reflexivity].
        replace (n - i - Z.of_nat (S k)) with (n - (i + 1) - Z.of_nat k) by lia.
        reflexivity.
      * intros _. cbn [firstn sections_size]. rewrite Hsec.
        rewrite Z.gtb_ltb in Hcmp. apply Z.ltb_ge in Hcmp.
        destruct k as [|k']; [rewrite firstn_O; cbn [sections_size]; lia|].
        specialize (Hsize ltac:(lia)). lia.
Qed.




Lemma format_search_response_no_results query :
  format_search_response [] query =
  Some (lit "No results found for '" ++ query ++ lit "'").
Proof. reflexivity. Qed.

Lemma format_list_response_no_items title :
  format_list_response [] title = Some (title ++ NL).
Proof. reflexivity. Qed.

(** C2, failing inputs. A search without results echoes the query, however
    long, and returns before the final size check; [format_list_response]
    echoes its title and has no size check; [format_docs_response] counts
    characters, not bytes, and has no final check.  Each returns a text of
    more than [MAX_RESPONSE_SIZE] bytes. *)
Theorem response_exceeds_ceiling :
  (exists out, format_search_response [] long_query = Some out /\
               MAX_RESPONSE_SIZE < len out /\ MAX_RESPONSE_SIZE < byte_size out) /\
  (exists out, format_list_response [] long_query = Some out /\
               MAX_RESPONSE_SIZE < len out /\ MAX_RESPONSE_SIZE < byte_size out) /\
  (exists out, format_docs_response cjk_docs (lit "o/r") = Some out /\
               len out <= MAX_RESPONSE_SIZE /\ MAX_RESPONSE_SIZE < byte_size out).
Proof.
  assert (Hlen : len long_query = MAX_RESPONSE_SIZE).
  { unfold long_query. rewrite len_replicate_char. vm_compute. reflexivity. }
  assert (Hbytes : byte_size long_query = MAX_RESPONSE_SIZE).
  { unfold long_query. rewrite byte_size_replicate_ascii by reflexivity.
    vm_compute. reflexivity. }
  split; [|split].
  - eexists. split; [apply format_search_response_no_results|].
    rewrite !len_app, !byte_size_app, Hlen, Hbytes. vm_compute. split; reflexivity.
  - eexists. split; [apply format_list_response_no_items|].
    rewrite !len_app, !byte_size_app, Hlen, Hbytes. vm_compute. split; reflexivity.
  - assert (H : match format_docs_response cjk_docs (lit "o/r") with
                 | Some out => (len out <=? MAX_RESPONSE_SIZE) &&
                               (MAX_RESPONSE_SIZE <? byte_size out)
                 | None => false
                 end = true) by (vm_compute; reflexivity).
    destruct (format_docs_response cjk_docs (lit "o/r")) as [out|]; [|discriminate H].
    exists out. split; [reflexivity|].
    apply andb_true_iff in H. destruct H as [H1 H2].
    apply Z.leb_le in H1. apply Z.ltb_lt in H2. split; assumption.
Qed.

(** *** Further properties of the limiter *)

Lemma truncate_text_len text max_length :
  4 <= max_length -> len (truncate_text text max_length) <= max_length.
Proof.
  intros Hmax. unfold truncate_text.
  destruct (Z.leb_spec (len text) max_length) as [Hle|Hgt]; [exact Hle|].
  rewrite len_app. unfold slice_to.
  destruct (Z.leb_spec 0 (max_length - 4)); [|lia].
  unfold len in *. rewrite length_firstn. simpl. lia.
Qed.

(** X1. Below 4 the ellipsis does not fit: a text longer than [max_length]
    (and of at least [4 - max_length] characters) comes back longer than
    it was, by [max_length] characters. *)
Theorem truncate_text_short_limit (text : str) (max_length : Z) :
  max_length < 4 -> max_length < len text -> 4 - max_length <= len text ->
  len (truncate_text text max_length) = len text + max_length.
Proof.
  intros Hsmall Hlong Hroom. unfold truncate_text.
  destruct (Z.leb_spec (len text) max_length); [lia|].
  rewrite len_app. unfold slice_to.
  destruct (Z.leb_spec 0 (max_length - 4)); [lia|].
  unfold len in *. rewrite length_firstn. simpl. lia.
Qed.

Lemma truncate_text_short_limit_witness :
  len (truncate_text (lit "abcdef") 2) = 8 /\
  truncate_text (lit "abcdef") 2 = lit "abcd ...".
Proof.
  split; [|reflexivity].
  apply (truncate_text_short_limit (lit "abcdef") 2); vm_compute; congruence.
Defined.

(** X2. Truncating twice is truncating once. *)
Theorem truncate_text_idempotent (text : str) (max_length : Z) :
  4 <= max_length ->
  truncate_text (truncate_text text max_length) max_length
  = truncate_text text max_length.
Proof.
  intros Hmax. pose proof (truncate_text_len text max_length Hmax) as Hlen.
  unfold truncate_text at 1. apply Z.leb_le in Hlen. rewrite Hlen. reflexivity.
Qed.

Lemma truncate_text_idempotent_witness :
  truncate_text (truncate_text (lit "abcdefghij") 8) 8 = lit "abcd ...".
Proof.
  rewrite (truncate_text_idempotent (lit "abcdefghij") 8) by lia. reflexivity.
Defined.

Lemma len_slice_to_le {A} (k : Z) (s : list A) : 0 <= k -> len (slice_to k s) <= k.
Proof.
  intros Hk. unfold slice_to. destruct (Z.leb_spec 0 k); [|lia].
  unfold len. rewrite length_firstn. lia.
Qed.

Lemma get_set_same k v d : get k (set k v d) = Some v.
Proof.
  induction d as [|[k' v'] d IH]; cbn [set get].
  - rewrite eqb_str_refl. reflexivity.
  - destruct (eqb_str k k') eqn:Hk; cbn [get]; rewrite Hk; [reflexivity|exact IH].
Qed.

Lemma get_set_other k k' v d : eqb_str k k' = false -> get k (set k' v d) = get k d.
Proof.
  intros Hne. induction d as [|[k0 v0] d IH]; cbn [set get].
  - rewrite Hne. reflexivity.
  - destruct (eqb_str k' k0) eqn:Hk0; cbn [get].
    + apply eqb_str_eq in Hk0. subst k0. rewrite Hne. reflexivity.
    + destruct (eqb_str k k0); [reflexivity|exact IH].
Qed.

(** What [truncate_field] leaves in the dictionary. *)
Lemma truncate_field_get k max_length d d' :
  4 <= max_length ->
  truncate_field k max_length d = Some d' ->
  (forall v, get k d' = Some v -> exists s, v = VStr s /\ len s <= max_length) /\
  (forall k0, eqb_str k0 k = false -> get k0 d' = get k0 d).
Proof.
  intros Hmax. unfold truncate_field.
  destruct (get k d) as [[| | |s]|] eqn:Hget; try discriminate; intros H;
    injection H as <-.
  - split.
    + intros v. rewrite get_set_same. intros Hv. injection Hv as <-.
      eexists. split; [reflexivity|]. apply truncate_text_len, Hmax.
    + intros k0 Hk0. apply get_set_other, Hk0.
  - split; [|reflexivity]. intros v. rewrite Hget. discriminate.
Qed.

Lemma limit_loop_invariant results : forall total_size limited,
  limit_loop results total_size = Some limited ->
  (length limited <= length results)%nat /\
  (limited <> [] -> total_size + total_estimate limited <= SEARCH_BUDGET) /\
  Forall fields_truncated limited.
Proof.
  induction results as [|r results IH]; intros total_size limited Hloop.
  - injection Hloop as <-. split; [cbn; lia|]. split; [congruence|constructor].
  - cbn [limit_loop] in Hloop.
    destruct (truncate_field (lit "snippet") 200 r) as [r1|] eqn:H1; [|discriminate].
    cbn [mbind option_bind] in Hloop.
    destruct (truncate_field (lit "description") 100 r1) as [r2|] eqn:H2; [|discriminate].
    cbn [mbind option_bind] in Hloop.
    destruct (total_size + estimate_size r2 >? SEARCH_BUDGET) eqn:Hcmp.
    + injection Hloop as <-. split; [cbn; lia|]. split; [congruence|constructor].
    + destruct (limit_loop results (total_size + estimate_size r2)) as [more|] eqn:Hmore;
        [|discriminate].
      cbn [mbind option_bind] in Hloop. injection Hloop as <-.
      destruct (IH _ _ Hmore) as (Hlen & Hsize & Hfields).
      rewrite Z.gtb_ltb in Hcmp. apply Z.ltb_ge in Hcmp.
      split; [cbn [length]; lia|]. split.
      * intros _. cbn [total_estimate fold_right]. fold (total_estimate more).
        destruct more as [|r' more']; [cbn; lia|].
        specialize (Hsize ltac:(discriminate)). lia.
      * constructor; [|exact Hfields].
        destruct (truncate_field_get (lit "snippet") 200 r r1 ltac:(lia) H1)
          as [Hs1 Ho1].
        destruct (truncate_field_get (lit "description") 100 r1 r2 ltac:(lia) H2)
          as [Hs2 Ho2].
        split; [|exact Hs2].
        intros v. rewrite Ho2 by reflexivity. apply Hs1.
Qed.

(** X3. [limit_search_results] returns at most 20 results and never more than
    it was given, and the sizes it has added up stay within 80% of the
    ceiling. *)
Theorem limit_search_results_bounded (results limited : list dict) :
  limit_search_results results = Some limited ->
  (length limited <= 20)%nat /\
  (length limited <= length results)%nat /\
  total_estimate limited <= SEARCH_BUDGET.
Proof.
  unfold limit_search_results. intros Hloop.
  destruct (limit_loop_invariant _ _ _ Hloop) as (Hlen & Hsize & _).
  unfold slice_to, MAX_SEARCH_RESULTS in Hlen. cbn [Z.leb Z.compare] in Hlen.
  rewrite length_firstn in Hlen.
  split; [lia|]. split; [lia|].
  destruct limited as [|r limited]; [cbn; unfold SEARCH_BUDGET; lia|].
  specialize (Hsize ltac:(discriminate)). lia.
Qed.

Lemma limit_search_results_bounded_witness :
  (length [plain_result] <= 20)%nat /\
  (length [plain_result] <= length three_results)%nat /\
  total_estimate [plain_result] <= SEARCH_BUDGET.
Proof.
  apply (limit_search_results_bounded three_results [plain_result]).
  vm_compute. reflexivity.
Defined.

(** X4. In every result that [limit_search_results] returns, a snippet is a
    string of at most 200 characters and a description a string of at most
    100 characters. *)
Theorem limit_search_results_truncates (results limited : list dict) :
  limit_search_results results = Some limited ->
  Forall fields_truncated limited.
Proof.
  unfold limit_search_results. intros Hloop.
  apply (limit_loop_invariant _ _ _ Hloop).
Qed.

Lemma limit_search_results_truncates_witness :
  limit_search_results [plain_result; long_fields_result] = Some long_fields_limited /\
  Forall fields_truncated long_fields_limited /\
  map (get (lit "snippet")) long_fields_limited
  = [None; Some (VStr (replicate_char 196 115%N ++ lit " ..."))] /\
  map (get (lit "description")) long_fields_limited
  = [None; Some (VStr (replicate_char 96 100%N ++ lit " ..."))].
Proof.
  split; [vm_compute; reflexivity|].
  split; [|split; vm_compute; reflexivity].
  apply (limit_search_results_truncates [plain_result; long_fields_result]
           long_fields_limited).
  vm_compute. reflexivity.
Defined.

(** X5. A result whose description is not a string (the [None] of a NULL
    column, say) makes [format_search_response] raise, when it is the first
    result and its snippet is absent or a string. *)
Theorem format_search_response_raises (r : dict) (rest : list dict) (query : str) v :
  get (lit "description") r = Some v ->
  (forall s, v <> VStr s) ->
  (get (lit "snippet") r = None \/ exists s, get (lit "snippet") r = Some (VStr s)) ->
  format_search_response (r :: rest) query = None.
Proof.
  intros Hdesc Hnot Hsnip.
  assert (Hloop : forall rs total, limit_loop (r :: rs) total = None).
  { intros rs total. cbn [limit_loop].
    assert (H1 : exists r1, truncate_field (lit "snippet") 200 r = Some r1 /\
                            get (lit "description") r1 = Some v).
    { unfold truncate_field. destruct Hsnip as [Hs|[s Hs]]; rewrite Hs.
      - eexists. split; [reflexivity|exact Hdesc].
      - eexists. split; [reflexivity|].
        rewrite get_set_other by reflexivity. exact Hdesc. }
    destruct H1 as (r1 & -> & Hd1). cbn [mbind option_bind].
    unfold truncate_field. rewrite Hd1.
    destruct v as [| | |s]; try reflexivity. exfalso. apply (Hnot s). reflexivity. }
  unfold format_search_response, limit_search_results.
  change (slice_to MAX_SEARCH_RESULTS (r :: rest)) with (r :: firstn 19 rest).
  rewrite Hloop. reflexivity.
Qed.

Lemma format_search_response_raises_witness :
  format_search_response [null_description_result; plain_result] (lit "q") = None.
Proof.
  apply (format_search_response_raises null_description_result [plain_result]
           (lit "q") VNone).
  - reflexivity.
  - discriminate.
  - right. eexists. reflexivity.
Defined.

(** X6. For a result list that is not empty, the text that
    [format_search_response] returns has at most [MAX_RESPONSE_SIZE]
    characters. *)
Theorem format_search_response_length (results : list dict) (query out : str) :
  results <> [] ->
  format_search_response results query = Some out ->
  len out <= MAX_RESPONSE_SIZE.
Proof.
  intros Hne. unfold format_search_response.
  destruct results as [|r results]; [congruence|].
  destruct (limit_search_results (r :: results)) as [limited|]; [|discriminate].
  cbn [mbind option_bind].
  destruct (search_lines limited) as [body|]; [|discriminate].
  cbn [mbind option_bind]. cbv zeta.
  match goal with
  | |- context [join NL ?lines] => generalize (join NL lines)
  end.
  intros text. destruct (Z.gtb_spec (len text) MAX_RESPONSE_SIZE) as [Hgt|Hle];
    intros H; injection H as <-; [|exact Hle].
  rewrite len_app.
  pose proof (len_slice_to_le (MAX_RESPONSE_SIZE - 100) text
                ltac:(unfold MAX_RESPONSE_SIZE; lia)) as Hslice.
  match goal with |- _ + len ?marker <= _ => change (len marker) with 41 end.
  unfold MAX_RESPONSE_SIZE in *. lia.
Qed.

Lemma format_search_response_length_witness :
  len three_results_output <= MAX_RESPONSE_SIZE.
Proof.
  apply (format_search_response_length three_results (lit "q")).
  - unfold three_results. discriminate.
  - vm_compute. reflexivity.
Defined.

Lemma doc_section_is_Some doc :
  content_is_text doc = true -> exists section, doc_section doc = Some section.
Proof.
  unfold content_is_text, doc_section, get_default.
  destruct (get (lit "content") doc) as [[| | |s]|]; try discriminate;
    intros _; eexists; reflexivity.
Qed.

Lemma doc_section_is_None doc : content_is_text doc = false -> doc_section doc = None.
Proof.
  unfold content_is_text, doc_section, get_default.
  destruct (get (lit "content") doc) as [[| | |s]|]; try discriminate; reflexivity.
Qed.

(** X7. [format_docs_response] returns a text for every bundle whose contents
    are strings (or absent), and raises when the content of the first
    document is anything else, [None] included. *)
Theorem format_docs_response_returns (docs : list dict) (repo_name : str) :
  (forallb content_is_text docs = true ->
   exists out, format_docs_response docs repo_name = Some out) /\
  (forall doc rest, docs = doc :: rest -> content_is_text doc = false ->
   format_docs_response docs repo_name = None).
Proof.
  split.
  - intros Hall. unfold format_docs_response.
    assert (Hloop : forall n rest i total, forallb content_is_text rest = true ->
              exists added, docs_loop n rest i total = Some added).
    { intros n rest. induction rest as [|doc rest IH]; intros i total Hrest.
      - eexists. reflexivity.
      - cbn [forallb] in Hrest. apply andb_true_iff in Hrest. destruct Hrest as [Hdoc Hrest].
        destruct (doc_section_is_Some doc Hdoc) as [section Hsec].
        cbn [docs_loop]. rewrite Hsec. cbn [mbind option_bind].
        destruct (_ >? DOCS_BUDGET); [eexists; reflexivity|].
        destruct (IH (i + 1) (total + len (join NL section)) Hrest) as [more ->].
        eexists. reflexivity. }
    destruct docs as [|doc docs]; [eexists; reflexivity|].
    destruct (Hloop (len (doc :: docs)) (doc :: docs) 0 (len (docs_header repo_name)) Hall)
      as [added ->].
    eexists. reflexivity.
  - intros doc rest -> Hdoc. unfold format_docs_response. cbn [docs_loop].
    rewrite (doc_section_is_None doc Hdoc). reflexivity.
Qed.

Lemma join_snoc sep parts p :
  parts <> [] -> join sep (parts ++ [p]) = join sep parts ++ sep ++ p.
Proof.
  induction parts as [|q parts IH]; [congruence|]. intros _.
  destruct parts as [|q' parts]; [reflexivity|].
  change (join sep ((q :: q' :: parts) ++ [p]))
    with (q ++ sep ++ join sep ((q' :: parts) ++ [p])).
  rewrite IH by discriminate.
  change (join sep (q :: q' :: parts)) with (q ++ sep ++ join sep (q' :: parts)).
  rewrite <- !app_assoc. reflexivity.
Qed.

(** X8. [format_list_response] looks at the first 50 items only: the text for
    a longer list is the text for its first 50 items followed by the line
    "... and N more", where N is the number of items beyond the 50th. *)
Theorem format_list_response_first_50 (items : list dict) (title : str) :
  format_list_response items title =
  option_map
    (fun out =>
       if len items >? 50
       then out ++ NL ++ NL ++ lit "... and " ++ decimal (len items - 50) ++ lit " more"
       else out)
    (format_list_response (firstn 50 items) title).
Proof.
  unfold format_list_response.
  assert (Hslice : slice_to 50 (firstn 50 items) = slice_to 50 items).
  { unfold slice_to. cbn [Z.leb Z.compare]. apply firstn_firstn. }
  rewrite Hslice.
  destruct (list_lines (slice_to 50 items)) as [lines|]; [|reflexivity].
  cbn [mbind option_bind option_map].
  assert (Hshort : (len (firstn 50 items) >? 50) = false).
  { rewrite Z.gtb_ltb. apply Z.ltb_ge. unfold len. rewrite length_firstn. lia. }
  rewrite Hshort, app_nil_r.
  destruct (len items >? 50); [|rewrite app_nil_r; reflexivity].
  rewrite app_assoc, join_snoc by discriminate. reflexivity.
Qed.

End ResponseLimiter.

(** ** quality_scorer.py

    Scores are Python floats, that is binary64 numbers: a float literal of
    the source is the double nearest to the decimal number it writes, an
    int that meets a float is converted to a float first, and every
    operation rounds to nearest, ties to even.  [sum] adds from left to
    right, starting from the int 0 (what CPython does up to version 3.11;
    later versions compensate the rounding errors of the partial sums). *)

Module QualityScorer.
Import Py.
Import PrimFloat.
#[local] Set Warnings "-inexact-float".
#[local] Open Scope float_scope.

(** [min(a, b)]: [a], unless [b < a]. *)
Definition pymin (a b : float) : float := if b <? a then b else a.

(** [sum(xs)] *)
Definition pysum (xs : list float) : float := fold_left add xs (PyFloat.of_int 0).

(** [any(p(x) for x in xs)] *)
Definition any {A} (p : A -> bool) (xs : list A) : bool := existsb p xs.

(** A document as [get_repository_documents] returns it: [path] and
    [content] are strings. *)
Record document := { path : str; content : str }.

(** The fields of [repo_data] the scorer reads: [pushed_at] (absent: ['']),
    [stargazers_count] (absent: 0), and whether [topics], [description] and
    [license] are present and truthy. *)
Record repo_data := {
  pushed_at : str;
  stargazers_count : Z;
  has_topics : bool;
  has_description : bool;
  has_license : bool
}.

Inductive metric :=
| completeness | freshness | structure | examples | community | accessibility.

(** The keys of [scores], in insertion order. *)
Definition metric_names : list metric :=
  [completeness; freshness; structure; examples; community; accessibility].

(** [self.weights] *)
Definition weights (m : metric) : float :=
  match m with
  | completeness => 0.25
  | freshness => 0.20
  | structure => 0.20
  | examples => 0.15
  | community => 0.10
  | accessibility => 0.10
  end.

Inductive grade :=
| A_plus | A | A_minus | B_plus | B | B_minus | C_plus | C | C_minus | D | F.

(** The grades from the lowest to the highest. *)
Definition all_grades : list grade :=
  [F; D; C_minus; C; C_plus; B_minus; B; B_plus; A_minus; A; A_plus].

Definition grade_rank (g : grade) : nat :=
  match g with
  | F => 0 | D => 1 | C_minus => 2 | C => 3 | C_plus => 4 | B_minus => 5
  | B => 6 | B_plus => 7 | A_minus => 8 | A => 9 | A_plus => 10
  end%nat.

(** [_get_grade(score)]; [score >= t] is [t <= score]. *)
Definition _get_grade (score : float) : grade :=
  if 0.9 <=? score then A_plus
  else if 0.85 <=? score then A
  else if 0.80 <=? score then A_minus
  else if 0.75 <=? score then B_plus
  else if 0.70 <=? score then B
  else if 0.65 <=? score then B_minus
  else if 0.60 <=? score then C_plus
  else if 0.55 <=? score then C
  else if 0.50 <=? score then C_minus
  else if 0.40 <=? score then D
  else F.

(** [re.findall(r'^#{1,6}\s', text, re.MULTILINE)]: a line counts when it
    starts with one to six [#] followed by a whitespace character. *)
Fixpoint leading_hashes (s : str) : nat * str :=
  match s with
  | 35%N :: s' => let (k, rest) := leading_hashes s' in (S k, rest)
  | _ => (O, s)
  end.

Definition is_header_line (s : str) : bool :=
  let (k, rest) := leading_hashes s in
  (1 <=? k)%nat && (k <=? 6)%nat &&
  match rest with c :: _ => is_space c | [] => false end.

(** [at_line_start] tells whether [text] begins a line. *)
Fixpoint header_count_from (text : str) (at_line_start : bool) : Z :=
  match text with
  | [] => 0%Z
  | c :: text' =>
      ((if at_line_start && is_header_line text then 1 else 0) +
       header_count_from text' (c =? 10)%N)%Z
  end.

Definition header_count (text : str) : Z := header_count_from text true.

(** [re.findall(r'```[\s\S]*?```', text)]: pairs of fences, the closing one
    being the first fence after the opening one.  [inside] tells whether an
    opening fence is pending, [skip] how many characters of the last fence
    remain to be passed. *)
Definition FENCE : str := [96; 96; 96]%N.

Fixpoint code_blocks_from (text : str) (inside : bool) (skip : nat) : Z :=
  match text with
  | [] => 0%Z
  | _ :: text' =>
      match skip with
      | S k => code_blocks_from text' inside k
      | O =>
          if starts_with FENCE text
          then if inside then (1 + code_blocks_from text' false 2)%Z
               else code_blocks_from text' true 2
          else code_blocks_from text' inside 0
      end
  end.

Definition code_blocks (text : str) : Z := code_blocks_from text false 0.

(** [re.findall(r'`[^`]+`', text)]: a backquote, one or more characters
    that are not backquotes, a backquote. *)
Inductive inline_state := Outside | Opened | InCode.

Fixpoint inline_code_from (text : str) (st : inline_state) : Z :=
  match text with
  | [] => 0%Z
  | c :: text' =>
      if (c =? 96)%N
      then match st with
           | Outside | Opened => inline_code_from text' Opened
           | InCode => (1 + inline_code_from text' Outside)%Z
           end
      else match st with
           | Outside => inline_code_from text' Outside
           | Opened | InCode => inline_code_from text' InCode
           end
  end.

Definition inline_code (text : str) : Z := inline_code_from text Outside.

(** [' '.join(doc.get('content', '')[:limit] for doc in documents)] *)
Definition content_combined (limit : Z) (documents : list document) : str :=
  join (lit " ") (map (fun doc => slice_to limit (content doc)) documents).

(** [round(x, 2)]: the decimal number with two digits after the point that
    is nearest to [x], a tie going to the even last digit, and then the
    double nearest to that decimal number.  [hundredths m e] is the number
    of hundredths nearest to [m * 2^e], for [e < 0]; [nearest_quotient s h d]
    is the double nearest to [h / d], with the sign [s]: the correctly
    rounded quotient of the integers.  A NaN, an infinity, a zero and an
    integer are their own roundings. *)
Definition hundredths (m : positive) (e : Z) : Z :=
  Binary64.rne_div (100 * Zpos m) (- e).

Definition nearest_quotient (s : bool) (h : Z) (d : positive) : float :=
  match h with
  | Zpos p =>
      FloatOps.SF2Prim
        (SpecFloat.SFdiv FloatOps.prec FloatOps.emax
           (SpecFloat.S754_finite s p 0) (SpecFloat.S754_finite false d 0))
  | _ => FloatOps.SF2Prim (SpecFloat.S754_zero s)
  end.

Definition round2 (x : float) : float :=
  match FloatOps.Prim2SF x with
  | SpecFloat.S754_finite s m e =>
      if (0 <=? e)%Z then x else nearest_quotient s (hundredths m e) 100
  | _ => x
  end.

Section Scorer.

(** [str.lower], and the age in days of the date written in
    [pushed_at[:10]] at the instant of evaluation ([None] when [strptime]
    raises). *)
Variable lower : str -> str.
Variable days_ago_of : str -> option Z.

Definition _score_completeness (repo : repo_data) (documents : list document) : float :=
  let doc_paths := map (fun doc => lower (path doc)) documents in
  let joined := join (lit " ") doc_paths in
  let score := 0.0 in
  let score :=
    if any (contains (lit "readme")) doc_paths then score + 0.3 else score in
  let doc_indicators :=
    [lit "docs/"; lit "documentation/"; lit "wiki/"; lit "guide/"] in
  let score :=
    if any (fun p => any (fun indicator => contains indicator p) doc_indicators) doc_paths
    then score + 0.2 else score in
  let score :=
    if any (contains (lit "api")) doc_paths then score + 0.1 else score in
  let score :=
    if any (fun keyword => contains keyword joined)
           [lit "install"; lit "setup"; lit "getting-started"]
    then score + 0.1 else score in
  let score :=
    if any (contains (lit "contributing")) doc_paths then score + 0.1 else score in
  let score :=
    if any (fun keyword => contains keyword joined)
           [lit "example"; lit "tutorial"; lit "sample"]
    then score + 0.1 else score in
  let score :=
    if any (fun p => contains (lit "changelog") p || contains (lit "history") p) doc_paths
    then score + 0.1 else score in
  pymin score 1.0.

Definition _score_freshness (repo : repo_data) (documents : list document) : float :=
  let last_push := pushed_at repo in
  match last_push with
  | [] => 0.5
  | _ =>
      match days_ago_of (slice_to 10 last_push) with
      | Some days_ago =>
          if (days_ago <? 30)%Z then 1.0
          else if (days_ago <? 90)%Z then 0.8
          else if (days_ago <? 180)%Z then 0.6
          else if (days_ago <? 365)%Z then 0.4
          else 0.2
      | None => 0.5
      end
  end.

(** The list [depth_scores] of [_score_structure]. *)
Fixpoint depth_scores (paths : list str) : list float :=
  match paths with
  | [] => []
  | p :: rest =>
      let depth := count (lit "/") p in
      if (depth >? 0)%Z
      then pymin (PyFloat.of_int depth * 0.1) 0.3 :: depth_scores rest
      else depth_scores rest
  end.

Definition _score_structure (documents : list document) : float :=
  let score := 0.0 in
  let score := if (len documents >? 5)%Z then score + 0.3 else score in
  let paths := map path documents in
  let ds := depth_scores paths in
  let score :=
    match ds with
    | [] => score
    | _ => score + pysum ds / PyFloat.of_int (len ds)
    end in
  let score :=
    if any (fun indicator => contains indicator (lower (content_combined 1000 documents)))
           [lit "table of contents"; lit "index"; lit "## contents"]
    then score + 0.2 else score in
  let score :=
    if (header_count (content_combined 1000 documents) >? 10)%Z
    then score + 0.2 else score in
  pymin score 1.0.

Definition _score_examples (documents : list document) : float :=
  let score := 0.0 in
  let content_combined := content_combined 5000 documents in
  let score :=
    score + pymin (PyFloat.of_int (code_blocks content_combined) * 0.05) 0.4 in
  let example_keywords :=
    [lit "example"; lit "sample"; lit "demo"; lit "tutorial"; lit "quickstart";
     lit "getting started"] in
  let keyword_count :=
    fold_left Z.add
      (map (fun keyword => count keyword (lower content_combined)) example_keywords) 0%Z in
  let score := score + pymin (PyFloat.of_int keyword_count * 0.02) 0.3 in
  let score :=
    if any (fun keyword => contains keyword (lower content_combined))
           [lit "playground"; lit "codesandbox"; lit "stackblitz"; lit "demo"]
    then score + 0.2 else score in
  let score :=
    score + pymin (PyFloat.of_int (inline_code content_combined) * 0.01) 0.1 in
  pymin score 1.0.

Definition _score_community (repo : repo_data) : float :=
  let score := 0.0 in
  let stars := stargazers_count repo in
  let score :=
    if (stars >? 10000)%Z then score + 0.4
    else if (stars >? 1000)%Z then score + 0.3
    else if (stars >? 100)%Z then score + 0.2
    else if (stars >? 10)%Z then score + 0.1
    else score in
  let score := if has_topics repo then score + 0.2 else score in
  let score := if has_description repo then score + 0.2 else score in
  let score := if has_license repo then score + 0.2 else score in
  pymin score 1.0.

Definition _score_accessibility (documents : list document) : float :=
  let score := 0.0 in
  let score :=
    if any (fun doc =>
              any (eqb_str (lower (path doc)))
                  [lit "readme.md"; lit "readme.rst"; lit "readme.txt"]) documents
    then score + 0.4 else score in
  let clear_names :=
    [lit "install"; lit "setup"; lit "guide"; lit "tutorial"; lit "api";
     lit "reference"] in
  let matching_files :=
    len (List.filter
           (fun doc => any (fun name => contains name (lower (path doc))) clear_names)
           documents) in
  let score := score + pymin (PyFloat.of_int matching_files * 0.1) 0.3 in
  let score :=
    if (3 <=? len documents)%Z && (len documents <=? 20)%Z then score + 0.3
    else if (len documents >? 20)%Z then score + 0.1
    else score in
  pymin score 1.0.

(** The dictionary [scores] of [score_repository]. *)
Definition scores (repo : repo_data) (documents : list document) (m : metric) : float :=
  match m with
  | completeness => _score_completeness repo documents
  | freshness => _score_freshness repo documents
  | structure => _score_structure documents
  | examples => _score_examples documents
  | community => _score_community repo
  | accessibility => _score_accessibility documents
  end.

(** [sum(scores[metric] * self.weights[metric] for metric in scores)] *)
Definition weighted_total (repo : repo_data) (documents : list document) : float :=
  pysum (map (fun m => scores repo documents m * weights m) metric_names).

Record assessment := {
  total_score : float;
  metrics : metric -> float;
  quality_grade : grade
}.

Definition score_repository (repo : repo_data) (documents : list document) : assessment :=
  let total := weighted_total repo documents in
  {| total_score := round2 total;
     metrics := scores repo documents;
     quality_grade := _get_grade total |}.

End Scorer.

(** The argument [scores] of [generate_improvement_suggestions]: its entry
    [metrics] when it has one, holding the metrics that are present. *)
Definition scores_dict := option (metric -> option float).

(** [metrics.get(m, 0)]: the default is the int 0, which compares as the
    float 0.0 does. *)
Definition metrics_get (metrics : metric -> option float) (m : metric) (default : float)
    : float :=
  match metrics m with Some v => v | None => default end.

(** [generate_improvement_suggestions(scores)] *)
Definition generate_improvement_suggestions (scores : scores_dict) : list str :=
  let suggestions := [] in
  let metrics := match scores with Some metrics => metrics | None => fun _ => None end in
  let suggestions :=
    if metrics_get metrics completeness 0 <? 0.7
    then suggestions ++
         [lit "Add more comprehensive documentation including API references and guides"]
    else suggestions in
  let suggestions :=
    if metrics_get metrics freshness 0 <? 0.5
    then suggestions ++ [lit "Update documentation to reflect recent changes"]
    else suggestions in
  let suggestions :=
    if metrics_get metrics structure 0 <? 0.6
    then suggestions ++
         [lit "Organize documentation with clear hierarchy and table of contents"]
    else suggestions in
  let suggestions :=
    if metrics_get metrics examples 0 <? 0.5
    then suggestions ++ [lit "Add more code examples and tutorials"]
    else suggestions in
  let suggestions :=
    if metrics_get metrics community 0 <? 0.5
    then suggestions ++
         [lit "Improve repository metadata: add topics, description, and license"]
    else suggestions in
  let suggestions :=
    if metrics_get metrics accessibility 0 <? 0.6
    then suggestions ++
         [lit "Ensure README is present and use clear, descriptive file names"]
    else suggestions in
  suggestions.

(** The dictionary returned by [score_repository], as
    [generate_improvement_suggestions] reads it. *)
Definition scores_of (result : assessment) : scores_dict :=
  Some (fun m => Some (metrics result m)).

(** *** A repository with three documents *)

(** A README with a table of contents and two fenced code blocks, two
    further documents, and a well-kept repository without push date. *)
Definition sample_readme : document :=
  {| path := lit "README.md";
     content :=
       join [10%N]
         [lit "# Project"; lit "## Table of Contents"; lit "```";
          lit "pip install project"; lit "```"; lit "```"; lit "import project";
          lit "```"; []] |}.

Definition sample_documents : list document :=
  [ sample_readme;
    {| path := lit "docs/guide/install.md"; content := lit "Install guide" |};
    {| path := lit "docs/api/examples.md"; content := lit "API examples" |} ].

Definition sample_repo : repo_data :=
  {| pushed_at := []; stargazers_count := 20000; has_topics := true;
     has_description := true; has_license := true |}.

(** *** Definitions used in the statements and the proofs *)

(** The band of a grade: what the comparisons of the score with the two
    edges of the band give. *)
Definition band (g : grade) (score : float) : Prop :=
  match g with
  | F => (0.40 <=? score) = false
  | D => (0.40 <=? score) = true /\ (0.50 <=? score) = false
  | C_minus => (0.50 <=? score) = true /\ (0.55 <=? score) = false
  | C => (0.55 <=? score) = true /\ (0.60 <=? score) = false
  | C_plus => (0.60 <=? score) = true /\ (0.65 <=? score) = false
  | B_minus => (0.65 <=? score) = true /\ (0.70 <=? score) = false
  | B => (0.70 <=? score) = true /\ (0.75 <=? score) = false
  | B_plus => (0.75 <=? score) = true /\ (0.80 <=? score) = false
  | A_minus => (0.80 <=? score) = true /\ (0.85 <=? score) = false
  | A => (0.85 <=? score) = true /\ (0.9 <=? score) = false
  | A_plus => (0.9 <=? score) = true
  end.

(** The completeness score as a function of the seven conditions of
    [_score_completeness], each with its credit. *)
Definition completeness_credits : list float := [0.3; 0.2; 0.1; 0.1; 0.1; 0.1; 0.1].

Definition credit (score : float) (ck : bool * float) : float :=
  if fst ck then score + snd ck else score.

Definition completeness_of (conditions : list bool) : float :=
  pymin (fold_left credit (combine conditions completeness_credits) 0.0) 1.0.

(** All lists of [n] booleans. *)
Fixpoint bools (n : nat) : list (list bool) :=
  match n with
  | O => [[]]
  | S k => map (cons false) (bools k) ++ map (cons true) (bools k)
  end.

(** Every condition that holds in [a] holds in [b]. *)
Fixpoint implies (a b : list bool) : bool :=
  match a, b with
  | x :: a', y :: b' => implb x y && implies a' b'
  | [], [] => true
  | _, _ => false
  end.

(** The number of hundredths from 0 to 100. *)
Definition percents : list Z := map Z.of_nat (seq 0 101).

(** The values the freshness metric takes, and those of the community
    metric: the credit for the stars, and the three credits for the
    metadata. *)
Definition freshness_values : list float := [1.0; 0.8; 0.6; 0.4; 0.2; 0.5].

Definition community_of (stars_credit : option float) (conditions : list bool) : float :=
  let score := 0.0 in
  let score := match stars_credit with Some k => score + k | None => score end in
  pymin (fold_left credit (combine conditions [0.2; 0.2; 0.2]) score) 1.0.

Definition community_values : list float :=
  flat_map (fun stars_credit => map (community_of stars_credit) (bools 3))
    [Some 0.4; Some 0.3; Some 0.2; Some 0.1; None].

(** The weighted total when the four metrics computed from the documents
    are 0.0. *)
Definition total_without_documents (fresh comm : float) : float :=
  pysum [0.0 * 0.25; fresh * 0.20; 0.0 * 0.20; 0.0 * 0.15; comm * 0.10; 0.0 * 0.10].

(** A fact on given numbers, by computation. *)
Ltac float_fact := vm_compute; first [exact I | reflexivity | discriminate].

(** The float literals of the scorer are the doubles nearest to the decimal
    numbers they write: what the correctly rounded division of the
    numerator by the power of ten gives. *)
Lemma literals_are_nearest :
  Forall (fun '(x, (n, d)) => x = PyFloat.decimal_literal n d)
    [ (0.1, (1, 10)%Z); (0.2, (2, 10)%Z); (0.3, (3, 10)%Z); (0.4, (4, 10)%Z);
      (0.5, (5, 10)%Z); (0.6, (6, 10)%Z); (0.7, (7, 10)%Z); (0.8, (8, 10)%Z);
      (0.9, (9, 10)%Z); (1.0, (10, 10)%Z); (0.01, (1, 100)%Z); (0.02, (2, 100)%Z);
      (0.05, (5, 100)%Z); (0.15, (15, 100)%Z); (0.25, (25, 100)%Z);
      (0.55, (55, 100)%Z); (0.65, (65, 100)%Z); (0.75, (75, 100)%Z);
      (0.85, (85, 100)%Z) ].
Proof. repeat (constructor; [vm_compute; reflexivity|]). constructor. Qed.

(** *** The grade bands *)

Lemma get_grade_in_band score : band (_get_grade score) score.
Proof.
  unfold _get_grade.
  destruct (0.9 <=? score) eqn:H1; [exact H1|].
  destruct (0.85 <=? score) eqn:H2; [split; assumption|].
  destruct (0.80 <=? score) eqn:H3; [split; assumption|].
  destruct (0.75 <=? score) eqn:H4; [split; assumption|].
  destruct (0.70 <=? score) eqn:H5; [split; assumption|].
  destruct (0.65 <=? score) eqn:H6; [split; assumption|].
  destruct (0.60 <=? score) eqn:H7; [split; assumption|].
  destruct (0.55 <=? score) eqn:H8; [split; assumption|].
  destruct (0.50 <=? score) eqn:H9; [split; assumption|].
  destruct (0.40 <=? score) eqn:H10; [split; assumption|].
  exact H10.
Qed.

(** A score that reaches an edge reaches every lower edge: two facts
    [(t <=? a) = true] and [(t' <=? b) = false] with [t' <= t] and [a <= b]
    contradict each other. *)
Ltac edges_clash a b Hab :=
  exfalso;
  match goal with
  | Ht : (?t <=? a) = true, Hf : (?t' <=? b) = false |- _ =>
      rewrite (Binary64.leb_trans t' a b (Binary64.leb_trans t' t a eq_refl Ht) Hab) in Hf;
      discriminate Hf
  end.

Ltac open_bands :=
  cbn [band] in *;
  repeat match goal with H : _ /\ _ |- _ => destruct H end.

Lemma leb_refl_number score t :
  (t <=? score) = true -> (score <=? score) = true.
Proof.
  rewrite !Binary64.leb_iff. intros (_ & H & _). repeat split; [exact H|exact H|lia].
Qed.

Lemma get_grade_band score g : _get_grade score = g <-> band g score.
Proof.
  split; [intros <-; apply get_grade_in_band|].
  intros Hg. pose proof (get_grade_in_band score) as Hs. revert Hs.
  destruct (_get_grade score), g; intros Hs; try reflexivity; open_bands;
    match goal with
    | Ht : (?t <=? score) = true |- _ =>
        pose proof (leb_refl_number score t Ht) as Hrefl
    end;
    edges_clash score score Hrefl.
Qed.

Lemma all_grades_NoDup : List.NoDup all_grades.
Proof.
  unfold all_grades.
  repeat (constructor; [cbn; intuition discriminate|]).
  constructor.
Qed.

Lemma grade_attained (g : grade) :
  exists score,
    (0 <=? score) = true /\ (score <=? 1) = true /\ _get_grade score = g.
Proof.
  destruct g.
  - exists 0.95. repeat split.
  - exists 0.87. repeat split.
  - exists 0.82. repeat split.
  - exists 0.77. repeat split.
  - exists 0.72. repeat split.
  - exists 0.67. repeat split.
  - exists 0.62. repeat split.
  - exists 0.57. repeat split.
  - exists 0.52. repeat split.
  - exists 0.45. repeat split.
  - exists 0.10. repeat split.
Qed.

(** C5 (as the code has it). The grade mapping has eleven bands, from F
    (the score does not reach 0.40) up to A+ (the score reaches 0.90);
    every band includes its lower edge, the upper edge of a band is the
    lower edge of the next one, and every score receives exactly the grade
    of the band it lies in.  The comparisons are those of binary64 numbers,
    the edges being the doubles that the literals denote; a NaN reaches no
    edge and is graded F. *)
Theorem grade_bands :
  (forall score : float,
     (_get_grade score = F <-> (0.40 <=? score) = false) /\
     (_get_grade score = D <-> (0.40 <=? score) = true /\ (0.50 <=? score) = false) /\
     (_get_grade score = C_minus <->
        (0.50 <=? score) = true /\ (0.55 <=? score) = false) /\
     (_get_grade score = C <-> (0.55 <=? score) = true /\ (0.60 <=? score) = false) /\
     (_get_grade score = C_plus <->
        (0.60 <=? score) = true /\ (0.65 <=? score) = false) /\
     (_get_grade score = B_minus <->
        (0.65 <=? score) = true /\ (0.70 <=? score) = false) /\
     (_get_grade score = B <-> (0.70 <=? score) = true /\ (0.75 <=? score) = false) /\
     (_get_grade score = B_plus <->
        (0.75 <=? score) = true /\ (0.80 <=? score) = false) /\
     (_get_grade score = A_minus <->
        (0.80 <=? score) = true /\ (0.85 <=? score) = false) /\
     (_get_grade score = A <-> (0.85 <=? score) = true /\ (0.90 <=? score) = false) /\
     (_get_grade score = A_plus <-> (0.90 <=? score) = true)) /\
  (forall score : float,
     ((0.40 <=? score) = false <-> (score <? 0.40) = true \/ (score =? score) = false)) /\
  length all_grades = 11%nat /\
  List.NoDup all_grades /\
  (forall g, In g all_grades) /\
  (forall g, exists score,
      (0 <=? score) = true /\ (score <=? 1) = true /\ _get_grade score = g).
Proof.
  split; [|split; [|split; [reflexivity|split; [exact all_grades_NoDup|split]]]].
  - intros score.
    split; [exact (get_grade_band score F)|].
    split; [exact (get_grade_band score D)|].
    split; [exact (get_grade_band score C_minus)|].
    split; [exact (get_grade_band score C)|].
    split; [exact (get_grade_band score C_plus)|].
    split; [exact (get_grade_band score B_minus)|].
    split; [exact (get_grade_band score B)|].
    split; [exact (get_grade_band score B_plus)|].
    split; [exact (get_grade_band score A_minus)|].
    split; [exact (get_grade_band score A)|].
    exact (get_grade_band score A_plus).
  - intros score. apply Binary64.not_leb_iff. float_fact.
  - intros []; cbn; tauto.
  - exact grade_attained.
Qed.

(** C5, counterexample. No nine grades cover the scores of [0,1]: eleven
    different grades are given there. *)
Lemma nine_bands_do_not_cover :
  ~ exists bands : list grade,
      length bands = 9%nat /\
      forall score,
        (0 <=? score) = true -> (score <=? 1) = true -> In (_get_grade score) bands.
Proof.
  intros (bands & Hlen & Hcover).
  assert (Hincl : incl all_grades bands).
  { intros g _. destruct (grade_attained g) as (score & Hlo & Hhi & <-).
    apply Hcover; assumption. }
  pose proof (NoDup_incl_length all_grades_NoDup Hincl) as Hle.
  rewrite Hlen in Hle. cbn in Hle. lia.
Qed.

(** *** Bounds of the metrics *)

Lemma pymin_nonneg a b :
  Binary64.nonneg a -> Binary64.nonneg b -> Binary64.nonneg (pymin a b).
Proof. intros Ha Hb. unfold pymin. destruct (b <? a); assumption. Qed.

Lemma credit_nonneg (c : bool) s k :
  Binary64.nonneg s -> Binary64.nonneg k -> Binary64.nonneg (if c then s + k else s).
Proof. intros Hs Hk. destruct c; [apply Binary64.add_nonneg; assumption|exact Hs]. Qed.

Lemma scaled_nonneg z k :
  (0 <= z)%Z -> Binary64.finite k -> Binary64.nonneg (PyFloat.of_int z * k).
Proof.
  intros Hz Hk. apply Binary64.mul_ord; [apply Binary64.of_int_finite, Hz|exact Hk].
Qed.

Lemma fold_add_nonneg xs : forall acc,
  Binary64.nonneg acc -> Forall Binary64.nonneg xs ->
  Binary64.nonneg (fold_left add xs acc).
Proof.
  induction xs as [|x xs IH]; intros acc Hacc Hxs; [exact Hacc|].
  inversion Hxs as [|? ? Hx Hrest]; subst. cbn [fold_left].
  apply IH; [apply Binary64.add_nonneg; assumption|exact Hrest].
Qed.

Lemma pysum_nonneg xs : Forall Binary64.nonneg xs -> Binary64.nonneg (pysum xs).
Proof. apply fold_add_nonneg. float_fact. Qed.

(** The clamp [min(score, 1.0)] of a nonnegative score lies in [0,1]. *)
Lemma pymin_unit s :
  Binary64.nonneg s -> (0 <=? pymin s 1) = true /\ (pymin s 1 <=? 1) = true.
Proof.
  intros Hs. unfold pymin. destruct (1 <? s) eqn:Hlt; [split; reflexivity|].
  split; [apply Binary64.nonneg_iff, Hs|].
  rewrite Binary64.ltb_negb_leb in Hlt;
    [|float_fact|apply Binary64.nonneg_number, Hs].
  destruct (s <=? 1); [reflexivity|discriminate Hlt].
Qed.

Lemma count_from_nonneg needle hay : forall skip, (0 <= count_from needle hay skip)%Z.
Proof.
  induction hay as [|c hay IH]; intros skip; cbn [count_from]; [lia|].
  destruct skip; [|apply IH].
  destruct (starts_with needle (c :: hay)).
  - pose proof (IH (length needle - 1)%nat). lia.
  - apply IH.
Qed.

Lemma count_nonneg needle hay : (0 <= count needle hay)%Z.
Proof.
  unfold count. destruct needle; [pose proof (len_nonneg hay); lia|].
  apply count_from_nonneg.
Qed.

Lemma code_blocks_nonneg text : (0 <= code_blocks text)%Z.
Proof.
  unfold code_blocks. generalize false, 0%nat.
  induction text as [|c text IH]; intros inside skip; cbn [code_blocks_from]; [lia|].
  destruct skip; [|apply IH].
  destruct (starts_with FENCE (c :: text)); [|apply IH].
  destruct inside; [|apply IH]. pose proof (IH false 2%nat). lia.
Qed.

Lemma inline_code_nonneg text : (0 <= inline_code text)%Z.
Proof.
  unfold inline_code. generalize Outside.
  induction text as [|c text IH]; intros st; cbn [inline_code_from]; [lia|].
  destruct (c =? 96)%N, st; try apply IH.
  pose proof (IH Outside). lia.
Qed.

Lemma fold_Zadd_nonneg zs : forall acc,
  (0 <= acc)%Z -> Forall (fun z => (0 <= z)%Z) zs -> (0 <= fold_left Z.add zs acc)%Z.
Proof.
  induction zs as [|z zs IH]; intros acc Hacc Hzs; [exact Hacc|].
  inversion Hzs as [|? ? Hz Hrest]; subst. cbn. apply IH; [lia|exact Hrest].
Qed.

Lemma depth_scores_nonneg paths : Forall Binary64.nonneg (depth_scores paths).
Proof.
  induction paths as [|p paths IH]; cbn [depth_scores]; [constructor|].
  destruct (Z.gtb_spec (count (lit "/") p) 0) as [Hpos|_]; [|exact IH].
  constructor; [|exact IH].
  apply pymin_nonneg; [|float_fact].
  apply scaled_nonneg; [lia|float_fact].
Qed.

Lemma depth_scores_len paths : (len (depth_scores paths) <= len paths)%Z.
Proof.
  unfold len. induction paths as [|p paths IH]; cbn [depth_scores length]; [lia|].
  destruct (count (lit "/") p >? 0)%Z; cbn [length]; lia.
Qed.

(** [sum(depth_scores) / len(depth_scores)], for fewer than 2^63 scores. *)
Lemma average_nonneg xs :
  xs <> [] -> (len xs < 2 ^ 63)%Z -> Forall Binary64.nonneg xs ->
  Binary64.nonneg (pysum xs / PyFloat.of_int (len xs)).
Proof.
  intros Hne Hlen Hxs. apply Binary64.div_nonneg; [apply pysum_nonneg, Hxs|].
  apply Binary64.of_int_positive. split; [|exact Hlen].
  unfold len. destruct xs; [congruence|cbn [length]; lia].
Qed.

Section Bounds.

Variable lower : str -> str.
Variable days_ago_of : str -> option Z.

Lemma completeness_bounds repo documents :
  (0 <=? _score_completeness lower repo documents) = true /\
  (_score_completeness lower repo documents <=? 1) = true.
Proof.
  unfold _score_completeness. cbv zeta. apply pymin_unit.
  repeat (apply credit_nonneg; [|float_fact]). float_fact.
Qed.

Lemma freshness_bounds repo documents :
  (0 <=? _score_freshness days_ago_of repo documents) = true /\
  (_score_freshness days_ago_of repo documents <=? 1) = true.
Proof.
  unfold _score_freshness. cbv zeta.
  destruct (pushed_at repo); [split; reflexivity|].
  destruct (days_ago_of _); [|split; reflexivity].
  repeat match goal with |- context [if ?c then _ else _] => destruct c end;
    split; reflexivity.
Qed.

Lemma structure_bounds documents :
  (len documents < 2 ^ 63)%Z ->
  (0 <=? _score_structure lower documents) = true /\
  (_score_structure lower documents <=? 1) = true.
Proof.
  intros Hlen. unfold _score_structure. cbv zeta. apply pymin_unit.
  repeat (apply credit_nonneg; [|float_fact]).
  pose proof (depth_scores_nonneg (map path documents)) as Hds.
  pose proof (depth_scores_len (map path documents)) as Hdl.
  assert (Hmap : len (map path documents) = len documents)
    by (unfold len; rewrite length_map; reflexivity).
  destruct (depth_scores (map path documents)) as [|d ds] eqn:Heq.
  - apply credit_nonneg; float_fact.
  - apply Binary64.add_nonneg; [apply credit_nonneg; float_fact|].
    apply average_nonneg; [discriminate|lia|exact Hds].
Qed.

Lemma examples_bounds documents :
  (0 <=? _score_examples lower documents) = true /\
  (_score_examples lower documents <=? 1) = true.
Proof.
  unfold _score_examples. cbv zeta. apply pymin_unit.
  set (text := content_combined 5000 documents).
  apply Binary64.add_nonneg;
    [|apply pymin_nonneg;
      [apply scaled_nonneg; [apply inline_code_nonneg|float_fact]|float_fact]].
  apply credit_nonneg; [|float_fact].
  apply Binary64.add_nonneg.
  - apply Binary64.add_nonneg; [float_fact|].
    apply pymin_nonneg; [|float_fact].
    apply scaled_nonneg; [apply code_blocks_nonneg|float_fact].
  - apply pymin_nonneg; [|float_fact].
    apply scaled_nonneg; [|float_fact].
    apply fold_Zadd_nonneg; [lia|].
    repeat (constructor; [apply count_nonneg|]). constructor.
Qed.

Lemma community_bounds repo :
  (0 <=? _score_community repo) = true /\ (_score_community repo <=? 1) = true.
Proof.
  unfold _score_community. cbv zeta. apply pymin_unit.
  repeat (apply credit_nonneg; [|float_fact]).
  repeat match goal with |- context [if ?c then _ else _] => destruct c end;
    float_fact.
Qed.

Lemma accessibility_bounds documents :
  (0 <=? _score_accessibility lower documents) = true /\
  (_score_accessibility lower documents <=? 1) = true.
Proof.
  unfold _score_accessibility. cbv zeta. apply pymin_unit.
  match goal with
  | |- Binary64.nonneg (if _ then ?s + _ else _) =>
      assert (Hs : Binary64.nonneg s)
  end.
  { apply Binary64.add_nonneg; [apply credit_nonneg; float_fact|].
    apply pymin_nonneg; [|float_fact].
    apply scaled_nonneg; [apply len_nonneg|float_fact]. }
  repeat match goal with |- context [if ?c then _ else _] => destruct c end;
    try exact Hs; apply Binary64.add_nonneg; try exact Hs; float_fact.
Qed.

Lemma scores_bounds repo documents m :
  (len documents < 2 ^ 63)%Z ->
  (0 <=? scores lower days_ago_of repo documents m) = true /\
  (scores lower days_ago_of repo documents m <=? 1) = true.
Proof.
  intros Hlen. destruct m; cbn [scores].
  - apply completeness_bounds.
  - apply freshness_bounds.
  - apply structure_bounds, Hlen.
  - apply examples_bounds.
  - apply community_bounds.
  - apply accessibility_bounds.
Qed.

End Bounds.

(** One more term of the weighted total: the partial sum stays below the
    partial sum of the weights. *)
Lemma weighted_step acc acc' x w :
  Binary64.nonneg acc -> Binary64.finite acc' -> (acc <=? acc') = true ->
  (0 <=? x) = true -> (x <=? 1) = true ->
  Binary64.finite w -> Binary64.finite (1 * w) ->
  Binary64.nonneg (acc + x * w) /\ (acc + x * w <=? acc' + 1 * w) = true.
Proof.
  intros Hacc Hacc' Hle Hx0 Hx1 Hw Hw1.
  destruct (Binary64.mul_le_mono x 1 w) as [Hn Hm];
    [apply Binary64.nonneg_iff, Hx0|float_fact|exact Hw|exact Hx1|].
  apply Binary64.add_le_mono; assumption.
Qed.

Ltac weighted_term w N L H0 H1 N' L' :=
  match type of L with
  | (?acc <=? ?acc') = true =>
      match type of H0 with
      | (_ <=? ?x) = true =>
          destruct (weighted_step acc acc' x w N ltac:(float_fact) L H0 H1
                      ltac:(float_fact) ltac:(float_fact)) as [N' L']
      end
  end.

Lemma weighted_total_bounds lower days_ago_of repo documents :
  (len documents < 2 ^ 63)%Z ->
  (0 <=? weighted_total lower days_ago_of repo documents) = true /\
  (weighted_total lower days_ago_of repo documents <=? 1) = true.
Proof.
  intros Hlen.
  unfold weighted_total, pysum, metric_names. cbn [map fold_left weights].
  pose proof (fun m => scores_bounds lower days_ago_of repo documents m Hlen) as Hs.
  destruct (Hs completeness) as [Hc0 Hc1]. destruct (Hs freshness) as [Hf0 Hf1].
  destruct (Hs structure) as [Hs0 Hs1]. destruct (Hs examples) as [He0 He1].
  destruct (Hs community) as [Hm0 Hm1]. destruct (Hs accessibility) as [Ha0 Ha1].
  assert (N0 : Binary64.nonneg (PyFloat.of_int 0)) by float_fact.
  assert (L0 : (PyFloat.of_int 0 <=? PyFloat.of_int 0) = true) by float_fact.
  weighted_term 0.25 N0 L0 Hc0 Hc1 N1 L1.
  weighted_term 0.20 N1 L1 Hf0 Hf1 N2 L2.
  weighted_term 0.20 N2 L2 Hs0 Hs1 N3 L3.
  weighted_term 0.15 N3 L3 He0 He1 N4 L4.
  weighted_term 0.10 N4 L4 Hm0 Hm1 N5 L5.
  weighted_term 0.10 N5 L5 Ha0 Ha1 N6 L6.
  split; [apply Binary64.nonneg_iff, N6|].
  match type of L6 with
  | (_ <=? ?r) = true => change r with 1 in L6
  end.
  exact L6.
Qed.

(** The hundredths of a number of [0,1] are 0 to 100, and the hundredth
    [h/100] is a number of [0,1]. *)
Lemma percents_in_unit :
  forallb (fun h => (0 <=? nearest_quotient false h 100)
                    && (nearest_quotient false h 100 <=? 1)) percents = true.
Proof. vm_compute. reflexivity. Qed.

Lemma in_percents h : (0 <= h <= 100)%Z -> In h percents.
Proof.
  intros Hh. unfold percents. apply in_map_iff. exists (Z.to_nat h).
  split; [lia|]. apply in_seq. lia.
Qed.

Lemma round2_bounds x :
  (0 <=? x) = true -> (x <=? 1) = true ->
  (0 <=? round2 x) = true /\ (round2 x <=? 1) = true.
Proof.
  intros H0 H1. unfold round2.
  pose proof (FloatAxioms.Prim2SF_valid x) as Hv.
  pose proof (proj2 (Binary64.nonneg_iff x) H0) as Hn.
  pose proof (proj1 (Binary64.leb_iff x 1) H1) as (_ & _ & Hle).
  unfold Binary64.nonneg, Binary64.ordf in *.
  destruct (FloatOps.Prim2SF x) as [s|s| |s m e]; try (split; assumption).
  destruct (Z.leb_spec 0 e) as [He|He]; [split; assumption|].
  destruct s; [destruct Hn|].
  apply Binary64.valid_finite in Hv. destruct Hv as (Hev & _).
  assert (Hh : (0 <= hundredths m e <= 100)%Z).
  { unfold hundredths. split; [apply Binary64.rne_div_nonneg; lia|].
    apply Z.le_trans with (Binary64.rne_div (100 * 2 ^ (- e)) (- e));
      [|rewrite Binary64.rne_div_exact by lia; lia].
    apply Binary64.rne_div_mono.
    cbn [Binary64.ord] in Hle.
    assert (H1074 : (Binary64.ord (FloatOps.Prim2SF 1) = 2 ^ (- e) * 2 ^ (e + 1074))%Z).
    { rewrite <- Z.pow_add_r by lia. replace (- e + (e + 1074))%Z with 1074%Z by lia.
      reflexivity. }
    rewrite H1074 in Hle.
    assert (Hp : (0 < 2 ^ (e + 1074))%Z) by (apply Z.pow_pos_nonneg; lia).
    assert (Hm : (Zpos m <= 2 ^ (- e))%Z)
      by (apply (Z.mul_le_mono_pos_r _ _ _ Hp); exact Hle).
    lia. }
  pose proof (proj1 (forallb_forall _ _) percents_in_unit _ (in_percents _ Hh)) as Hp.
  cbv beta in Hp. apply andb_true_iff in Hp. exact Hp.
Qed.

(** C7. For every repository and every list of fewer than 2^63 documents
    (no Python list is longer), and whatever [str.lower] and the evaluation
    instant are, each of the six metric scores lies in [0,1], the six
    weights sum to exactly 1.0, and the weighted total, as well as the
    rounded total that is reported, lies in [0,1]: all of it in binary64
    arithmetic, as the code computes. *)
Theorem score_repository_bounds
    (lower : str -> str) (days_ago_of : str -> option Z)
    (repo : repo_data) (documents : list document) :
  (len documents < 2 ^ 63)%Z ->
  let result := score_repository lower days_ago_of repo documents in
  (forall m, (0 <=? metrics result m) = true /\ (metrics result m <=? 1) = true) /\
  pysum (map weights metric_names) = 1 /\
  ((0 <=? weighted_total lower days_ago_of repo documents) = true /\
   (weighted_total lower days_ago_of repo documents <=? 1) = true) /\
  ((0 <=? total_score result) = true /\ (total_score result <=? 1) = true).
Proof.
  intros Hlen. cbv zeta. cbn [score_repository metrics total_score].
  pose proof (weighted_total_bounds lower days_ago_of repo documents Hlen) as [Hlo Hhi].
  split; [|split; [|split]].
  - intros m. apply scores_bounds, Hlen.
  - reflexivity.
  - split; assumption.
  - apply round2_bounds; assumption.
Qed.

Lemma score_repository_bounds_witness :
  let result := score_repository ascii_lower (fun _ => None) sample_repo sample_documents in
  (forall m, (0 <=? metrics result m) = true /\ (metrics result m <=? 1) = true) /\
  pysum (map weights metric_names) = 1 /\
  ((0 <=? weighted_total ascii_lower (fun _ => None) sample_repo sample_documents) = true /\
   (weighted_total ascii_lower (fun _ => None) sample_repo sample_documents <=? 1) = true) /\
  ((0 <=? total_score result) = true /\ (total_score result <=? 1) = true).
Proof.
  apply (score_repository_bounds ascii_lower (fun _ => None) sample_repo sample_documents).
  vm_compute. reflexivity.
Defined.

(** *** The score of the sample repository *)

Lemma is_ascii_forallb s : forallb (fun c => (c <? 128)%N) s = true -> is_ascii s.
Proof.
  intros H. apply List.Forall_forall. intros c Hc.
  rewrite forallb_forall in H. apply N.ltb_lt, H, Hc.
Qed.

Lemma existsb_ext_in {A} (f g : A -> bool) l :
  (forall a, In a l -> f a = g a) -> existsb f l = existsb g l.
Proof.
  induction l as [|a l IH]; intros H; [reflexivity|].
  cbn [existsb]. rewrite (H a (or_introl eq_refl)), IH; [reflexivity|].
  intros b Hb. apply H. right. exact Hb.
Qed.

(** The scores depend on [str.lower] only through the lower-cased paths
    and the two lower-cased joined contents. *)
Lemma scores_lower_ext lower1 lower2 days_ago_of repo documents :
  (forall doc, In doc documents -> lower1 (path doc) = lower2 (path doc)) ->
  lower1 (content_combined 1000 documents) = lower2 (content_combined 1000 documents) ->
  lower1 (content_combined 5000 documents) = lower2 (content_combined 5000 documents) ->
  forall m, scores lower1 days_ago_of repo documents m
            = scores lower2 days_ago_of repo documents m.
Proof.
  intros Hpaths H1000 H5000 m. destruct m; cbn [scores].
  - unfold _score_completeness.
    rewrite (map_ext_in (fun doc => lower1 (path doc))
                        (fun doc => lower2 (path doc)) documents Hpaths).
    reflexivity.
  - reflexivity.
  - unfold _score_structure. rewrite H1000. reflexivity.
  - unfold _score_examples. rewrite H5000. reflexivity.
  - reflexivity.
  - unfold _score_accessibility, any.
    rewrite (existsb_ext_in
               (fun doc => existsb (eqb_str (lower1 (path doc)))
                             [lit "readme.md"; lit "readme.rst"; lit "readme.txt"])
               (fun doc => existsb (eqb_str (lower2 (path doc)))
                             [lit "readme.md"; lit "readme.rst"; lit "readme.txt"])
               documents)
      by (intros doc Hdoc; rewrite (Hpaths doc Hdoc); reflexivity).
    match goal with
    | |- context [List.filter ?f documents] =>
        rewrite (filter_ext_in f
                   (fun doc => existsb (fun name => contains name (lower2 (path doc)))
                      [lit "install"; lit "setup"; lit "guide"; lit "tutorial";
                       lit "api"; lit "reference"]) documents)
          by (intros doc Hdoc; cbv beta; rewrite (Hpaths doc Hdoc); reflexivity)
    end.
    reflexivity.
Qed.

(** C9. Some repository with exactly three documents, one of which
    contains "## Table of Contents" and two fenced code blocks, is given a
    nonzero completeness score, a nonzero structure score and a grade no
    lower than C- (total at least 0.50), whenever [str.lower] lower-cases
    ASCII text as Python does: the completeness is 0.7999999999999999, the
    structure 0.4, the total 0.5925 and the grade C. *)
Theorem three_documents_example
    (lower : str -> str) (days_ago_of : str -> option Z) :
  (forall s, is_ascii s -> lower s = ascii_lower s) ->
  exists repo documents,
    length documents = 3%nat /\
    (exists doc, In doc documents /\
                 contains (lit "## Table of Contents") (content doc) = true /\
                 code_blocks (content doc) = 2%Z) /\
    let result := score_repository lower days_ago_of repo documents in
    (0 <? metrics result completeness) = true /\
    (0 <? metrics result structure) = true /\
    (grade_rank C_minus <= grade_rank (quality_grade result))%nat /\
    (0.50 <=? weighted_total lower days_ago_of repo documents) = true /\
    metrics result completeness = 0.7999999999999999 /\
    metrics result structure = 0.4 /\
    weighted_total lower days_ago_of repo documents = 0.5925 /\
    total_score result = 0.59 /\
    quality_grade result = C.
Proof.
  intros Hlower. exists sample_repo, sample_documents.
  split; [reflexivity|]. split.
  { exists sample_readme. split; [left; reflexivity|].
    split; vm_compute; reflexivity. }
  assert (Hext : forall m,
             scores lower days_ago_of sample_repo sample_documents m
             = scores ascii_lower days_ago_of sample_repo sample_documents m).
  { apply scores_lower_ext.
    - intros doc [<-|[<-|[<-|[]]]]; apply Hlower, is_ascii_forallb; reflexivity.
    - apply Hlower, is_ascii_forallb. vm_compute. reflexivity.
    - apply Hlower, is_ascii_forallb. vm_compute. reflexivity. }
  assert (Htotal : weighted_total lower days_ago_of sample_repo sample_documents
                   = weighted_total ascii_lower days_ago_of sample_repo sample_documents).
  { unfold weighted_total, metric_names. cbn [map]. rewrite !Hext. reflexivity. }
  cbv zeta. cbn [score_repository metrics quality_grade total_score].
  rewrite !Hext, Htotal.
  split; [vm_compute; reflexivity|].
  split; [vm_compute; reflexivity|].
  split; [vm_compute; lia|].
  repeat (split; [vm_compute; reflexivity|]).
  vm_compute. reflexivity.
Qed.

Lemma three_documents_example_witness :
  exists repo documents,
    length documents = 3%nat /\
    (exists doc, In doc documents /\
                 contains (lit "## Table of Contents") (content doc) = true /\
                 code_blocks (content doc) = 2%Z) /\
    let result := score_repository ascii_lower (fun _ => None) repo documents in
    (0 <? metrics result completeness) = true /\
    (0 <? metrics result structure) = true /\
    (grade_rank C_minus <= grade_rank (quality_grade result))%nat /\
    (0.50 <=? weighted_total ascii_lower (fun _ => None) repo documents) = true /\
    metrics result completeness = 0.7999999999999999 /\
    metrics result structure = 0.4 /\
    weighted_total ascii_lower (fun _ => None) repo documents = 0.5925 /\
    total_score result = 0.59 /\
    quality_grade result = C.
Proof.
  apply (three_documents_example ascii_lower (fun _ => None)).
  intros s _. reflexivity.
Defined.

(** *** Further properties of the scorer *)

(** X9. A higher score never gets a lower grade. *)
Theorem get_grade_monotone (a b : float) :
  (a <=? b) = true -> (grade_rank (_get_grade a) <= grade_rank (_get_grade b))%nat.
Proof.
  intros Hab.
  pose proof (get_grade_in_band a) as Ha. pose proof (get_grade_in_band b) as Hb.
  revert Ha Hb.
  destruct (_get_grade a), (_get_grade b); intros Ha Hb; cbn [grade_rank]; try lia;
    open_bands; edges_clash a b Hab.
Qed.

Lemma get_grade_monotone_witness :
  (grade_rank (_get_grade 0.52) <= grade_rank (_get_grade 0.9))%nat.
Proof. apply (get_grade_monotone 0.52 0.9). reflexivity. Defined.

Lemma in_append_if {A} (c : bool) (l : list A) (s x : A) :
  In x (if c then l ++ [s] else l) <-> In x l \/ (c = true /\ x = s).
Proof.
  destruct c.
  - rewrite in_app_iff. cbn [In]. intuition congruence.
  - intuition discriminate.
Qed.

(** The suggestion about freshness is made exactly when the freshness
    metric is below 0.5. *)
Lemma freshness_suggestion_iff (scores : metric -> option float) :
  In (lit "Update documentation to reflect recent changes")
     (generate_improvement_suggestions (Some scores))
  <-> (metrics_get scores freshness 0 <? 0.5) = true.
Proof.
  unfold generate_improvement_suggestions. cbv zeta.
  rewrite !in_append_if. cbn [In].
  split; [|intros H; intuition].
  intros [[[[[[[]|[_ H]]|[H _]]|[_ H]]|[_ H]]|[_ H]]|[_ H]];
    try exact H; vm_compute in H; discriminate H.
Qed.

(** X10. No suggestion is made exactly when no metric is below its
    threshold (0.7 for completeness, 0.5 for freshness, examples and
    community, 0.6 for structure and accessibility), a metric absent from
    the dictionary counting as 0; there are never more than six
    suggestions.  (A metric that is a number is not below its threshold
    exactly when it reaches it, see [Binary64.ltb_negb_leb].) *)
Theorem no_suggestions_iff (scores : scores_dict) :
  let metrics := match scores with Some metrics => metrics | None => fun _ => None end in
  (generate_improvement_suggestions scores = [] <->
   (metrics_get metrics completeness 0 <? 0.7) = false /\
   (metrics_get metrics freshness 0 <? 0.5) = false /\
   (metrics_get metrics structure 0 <? 0.6) = false /\
   (metrics_get metrics examples 0 <? 0.5) = false /\
   (metrics_get metrics community 0 <? 0.5) = false /\
   (metrics_get metrics accessibility 0 <? 0.6) = false) /\
  (length (generate_improvement_suggestions scores) <= 6)%nat.
Proof.
  cbv zeta. unfold generate_improvement_suggestions. cbv zeta.
  set (metrics := match scores with Some metrics => metrics | None => fun _ => None end).
  split;
  destruct (metrics_get metrics completeness 0 <? 0.7);
  destruct (metrics_get metrics freshness 0 <? 0.5);
  destruct (metrics_get metrics structure 0 <? 0.6);
  destruct (metrics_get metrics examples 0 <? 0.5);
  destruct (metrics_get metrics community 0 <? 0.5);
  destruct (metrics_get metrics accessibility 0 <? 0.6);
  cbn [app length]; try lia;
  (split; [intros H; try discriminate H; repeat split
          |intros (H1 & H2 & H3 & H4 & H5 & H6); try discriminate; reflexivity]).
Qed.

(** X11. For the scores of a repository, the suggestion to update the
    documentation is made exactly when the push date is given, is a date,
    and lies 180 days or more in the past; a repository without a readable
    push date does not get it. *)
Theorem freshness_suggestion_when_stale
    (lower : str -> str) (days_ago_of : str -> option Z)
    (repo : repo_data) (documents : list document) :
  In (lit "Update documentation to reflect recent changes")
     (generate_improvement_suggestions
        (scores_of (score_repository lower days_ago_of repo documents)))
  <-> pushed_at repo <> [] /\
      exists days_ago, days_ago_of (slice_to 10 (pushed_at repo)) = Some days_ago /\
                       (180 <= days_ago)%Z.
Proof.
  unfold scores_of. rewrite freshness_suggestion_iff.
  unfold metrics_get. cbn [score_repository metrics scores].
  unfold _score_freshness. cbv zeta.
  destruct (pushed_at repo) as [|c rest] eqn:Hpush.
  { split; [intros H; vm_compute in H; discriminate H|].
    intros [H _]. congruence. }
  destruct (days_ago_of (slice_to 10 (c :: rest))) as [days_ago|].
  - destruct (Z.ltb_spec days_ago 30);
      [|destruct (Z.ltb_spec days_ago 90);
        [|destruct (Z.ltb_spec days_ago 180);
          [|destruct (Z.ltb_spec days_ago 365)]]].
    all: split;
      [ intros Hlow;
        first [ vm_compute in Hlow; discriminate Hlow
              | split; [discriminate|]; exists days_ago; split; [reflexivity|lia] ]
      | intros (_ & d & Hd & Hge); injection Hd as <-; try lia; reflexivity ].
  - split; [intros H; vm_compute in H; discriminate H|].
    intros (_ & d & Hd & _). discriminate Hd.
Qed.

(** The metrics that do not depend on the documents take finitely many
    values. *)
Lemma freshness_value days_ago_of repo documents :
  In (_score_freshness days_ago_of repo documents) freshness_values.
Proof.
  unfold _score_freshness, freshness_values. cbv zeta.
  destruct (pushed_at repo); [cbn [In]; auto 10|].
  destruct (days_ago_of _); [|cbn [In]; auto 10].
  repeat match goal with |- context [if ?c then _ else _] => destruct c end;
    cbn [In]; auto 10.
Qed.

Lemma bools_complete l : In l (bools (length l)).
Proof.
  induction l as [|b l IH]; [left; reflexivity|].
  cbn [length bools]. apply in_or_app.
  destruct b; [right|left]; apply in_map, IH.
Qed.

Lemma community_value repo : In (_score_community repo) community_values.
Proof.
  unfold community_values. apply in_flat_map.
  assert (Hconditions :
            In [has_topics repo; has_description repo; has_license repo] (bools 3))
    by apply (bools_complete [_; _; _]).
  unfold _score_community. cbv zeta.
  destruct (stargazers_count repo >? 10000)%Z;
    [exists (Some 0.4); split; [cbn [In]; auto 10|];
     apply in_map_iff; eexists; split; [|exact Hconditions]; reflexivity|].
  destruct (stargazers_count repo >? 1000)%Z;
    [exists (Some 0.3); split; [cbn [In]; auto 10|];
     apply in_map_iff; eexists; split; [|exact Hconditions]; reflexivity|].
  destruct (stargazers_count repo >? 100)%Z;
    [exists (Some 0.2); split; [cbn [In]; auto 10|];
     apply in_map_iff; eexists; split; [|exact Hconditions]; reflexivity|].
  destruct (stargazers_count repo >? 10)%Z;
    [exists (Some 0.1); split; [cbn [In]; auto 10|];
     apply in_map_iff; eexists; split; [|exact Hconditions]; reflexivity|].
  exists None. split; [cbn [In]; auto 10|].
  apply in_map_iff; eexists; split; [|exact Hconditions]; reflexivity.
Qed.

Lemma totals_without_documents :
  forallb (fun fresh =>
             forallb (fun comm =>
                        (total_without_documents fresh comm <=? 0.30000000000000004)
                        && negb (0.40 <=? total_without_documents fresh comm))
                     community_values)
          freshness_values = true.
Proof. vm_compute. reflexivity. Qed.

(** X12. A repository without documents scores 0.0 for completeness,
    structure, examples and accessibility, has a total of at most
    0.30000000000000004 (the binary64 sum of 0.2 and 0.1), which is below
    0.40, and the grade F, whatever its metadata, provided [str.lower] maps
    the empty string to itself. *)
Theorem no_documents_graded_F
    (lower : str -> str) (days_ago_of : str -> option Z) (repo : repo_data) :
  lower [] = [] ->
  let result := score_repository lower days_ago_of repo [] in
  metrics result completeness = 0 /\
  metrics result structure = 0 /\
  metrics result examples = 0 /\
  metrics result accessibility = 0 /\
  (weighted_total lower days_ago_of repo [] <=? 0.30000000000000004) = true /\
  (weighted_total lower days_ago_of repo [] <? 0.40) = true /\
  quality_grade result = F.
Proof.
  intros Hlower. cbv zeta. cbn [score_repository metrics quality_grade scores].
  assert (Hc : _score_completeness lower repo [] = 0) by reflexivity.
  assert (Hs : _score_structure lower [] = 0).
  { unfold _score_structure, content_combined. cbn [map join]. rewrite Hlower. reflexivity. }
  assert (He : _score_examples lower [] = 0).
  { unfold _score_examples, content_combined. cbn [map join]. rewrite Hlower. reflexivity. }
  assert (Ha : _score_accessibility lower [] = 0) by reflexivity.
  assert (Htotal : weighted_total lower days_ago_of repo []
                   = total_without_documents (_score_freshness days_ago_of repo [])
                                             (_score_community repo)).
  { unfold weighted_total, total_without_documents, metric_names.
    cbn [map weights scores]. rewrite Hc, Hs, He, Ha. reflexivity. }
  pose proof (proj1 (forallb_forall _ _) totals_without_documents _
                (freshness_value days_ago_of repo [])) as Hcheck.
  cbv beta in Hcheck.
  pose proof (proj1 (forallb_forall _ _) Hcheck _ (community_value repo)) as Hboth.
  cbv beta in Hboth. rewrite <- Htotal in Hboth.
  apply andb_true_iff in Hboth. destruct Hboth as [Hle Hnot].
  apply negb_true_iff in Hnot.
  repeat (split; [assumption|]).
  split; [|apply get_grade_band; exact Hnot].
  rewrite Binary64.ltb_negb_leb; [rewrite Hnot; reflexivity| |float_fact].
  apply (proj1 (Binary64.leb_number _ _ Hle)).
Qed.

Lemma no_documents_graded_F_witness :
  let result := score_repository ascii_lower (fun _ => Some 0%Z) sample_repo [] in
  metrics result completeness = 0 /\
  metrics result structure = 0 /\
  metrics result examples = 0 /\
  metrics result accessibility = 0 /\
  (weighted_total ascii_lower (fun _ => Some 0%Z) sample_repo []
   <=? 0.30000000000000004) = true /\
  (weighted_total ascii_lower (fun _ => Some 0%Z) sample_repo [] <? 0.40) = true /\
  quality_grade result = F.
Proof.
  apply (no_documents_graded_F ascii_lower (fun _ => Some 0%Z) sample_repo).
  reflexivity.
Defined.

Lemma starts_with_app p s t : starts_with p s = true -> starts_with p (s ++ t) = true.
Proof.
  revert s. induction p as [|a p IH]; intros [|b s]; cbn [starts_with app];
    try reflexivity; try discriminate.
  rewrite !andb_true_iff. intros [Hab Hp]. split; [exact Hab|apply IH, Hp].
Qed.

Lemma contains_app needle s t : contains needle s = true -> contains needle (s ++ t) = true.
Proof.
  induction s as [|b s IH].
  - cbn [contains app]. rewrite orb_false_r. intros H.
    destruct needle; [destruct t; reflexivity|discriminate H].
  - cbn [contains app]. rewrite !orb_true_iff. intros [H|H].
    + left. apply (starts_with_app needle (b :: s) t H).
    + right. apply IH, H.
Qed.

Lemma join_app_prefix sep a b : exists t, join sep (a ++ b) = join sep a ++ t.
Proof.
  induction a as [|p a IH].
  - exists (join sep b). reflexivity.
  - destruct a as [|q a].
    + destruct b as [|q b]; [exists []; symmetry; apply app_nil_r|].
      eexists. reflexivity.
    + destruct IH as [t Ht].
      exists t. change (join sep ((p :: q :: a) ++ b))
        with (p ++ sep ++ join sep ((q :: a) ++ b)).
      rewrite Ht.
      change (join sep (p :: q :: a)) with (p ++ sep ++ join sep (q :: a)).
      rewrite <- !app_assoc. reflexivity.
Qed.

Lemma existsb_impl {A} (f g : A -> bool) l :
  (forall a, f a = true -> g a = true) -> existsb f l = true -> existsb g l = true.
Proof.
  intros H. rewrite !existsb_exists. intros (a & Hin & Ha). exists a. auto.
Qed.

Lemma implb_intro (c c' : bool) : (c = true -> c' = true) -> implb c c' = true.
Proof. destruct c, c'; cbn; auto. Qed.

(** The completeness score of seven conditions is not lowered when more of
    them hold: checked on all pairs of seven conditions. *)
Lemma completeness_of_monotone_check :
  forallb (fun a =>
             forallb (fun b => implb (implies a b)
                                 (completeness_of a <=? completeness_of b))
                     (bools 7))
          (bools 7) = true.
Proof. vm_compute. reflexivity. Qed.

Lemma completeness_of_monotone a b :
  length a = 7%nat -> length b = 7%nat -> implies a b = true ->
  (completeness_of a <=? completeness_of b) = true.
Proof.
  intros Ha Hb Himp.
  pose proof (bools_complete a) as Hina. rewrite Ha in Hina.
  pose proof (bools_complete b) as Hinb. rewrite Hb in Hinb.
  pose proof (proj1 (forallb_forall _ _) completeness_of_monotone_check a Hina) as H1.
  cbv beta in H1.
  pose proof (proj1 (forallb_forall _ _) H1 b Hinb) as H2. cbv beta in H2.
  rewrite Himp in H2. exact H2.
Qed.

(** X13. Adding documents to a repository never lowers its completeness
    score. *)
Theorem completeness_monotone
    (lower : str -> str) (repo : repo_data) (documents more : list document) :
  (_score_completeness lower repo documents
   <=? _score_completeness lower repo (documents ++ more)) = true.
Proof.
  destruct (join_app_prefix (lit " ")
              (map (fun doc => lower (path doc)) documents)
              (map (fun doc => lower (path doc)) more)) as [t Ht].
  unfold _score_completeness. cbv zeta. rewrite map_app, Ht.
  match goal with
  | |- (pymin (if ?c7 then _ else if ?c6 then _ else if ?c5 then _ else
                 if ?c4 then _ else if ?c3 then _ else if ?c2 then _ else
                 if ?c1 then _ else _) _
        <=? pymin (if ?d7 then _ else if ?d6 then _ else if ?d5 then _ else
                     if ?d4 then _ else if ?d3 then _ else if ?d2 then _ else
                     if ?d1 then _ else _) _) = true =>
      change ((completeness_of [c1; c2; c3; c4; c5; c6; c7]
               <=? completeness_of [d1; d2; d3; d4; d5; d6; d7]) = true)
  end.
  apply completeness_of_monotone; [reflexivity|reflexivity|].
  cbn [implies]. rewrite !andb_true_iff.
  repeat split; try reflexivity; apply implb_intro;
    try (unfold any; rewrite existsb_app; intros ->; reflexivity);
    try (unfold any; apply existsb_impl; intros keyword; apply contains_app).
Qed.

End QualityScorer.

(** ** database.py

    The tables are lists of rows in rowid order.  A REAL column holds a
    rational, a TIMESTAMP column the reading of the clock ([now]) passed to
    the operation, a JSON column the value that [json.loads] gives back.

    Two facts of SQLite are used: a row inserted without a rowid gets the
    largest rowid of its table plus one (1 in an empty table), in a table
    with an INTEGER PRIMARY KEY as in the FTS5 table; and foreign keys are
    not enforced on a connection that has not run [PRAGMA foreign_keys = ON],
    which [init_database] does not. *)

Module Database.
Import Py.

Record repository := {
  id : Z;
  owner : str;
  name : str;
  full_name : str;
  stars : Z;
  language : option str;
  category : option str;
  description : option str;
  source : str;
  quality_score : Q;
  quality_grade : str;
  quality_metrics : list (str * Q);
  priority : str;
  doc_paths : list str;
  topics : list str;
  last_indexed : option Z
}.

Record document := {
  doc_id : Z;
  repo_id : Z;
  path : str;
  content : str;
  content_hash : str;
  indexed_at : Z
}.

(** A row of [documents_fts]; [repo_full_name] is NULL when the scalar
    subquery of the update trigger finds no repository. *)
Record fts_entry := {
  rowid : Z;
  repo_full_name : option str;
  fts_path : str;
  fts_content : str
}.

Record database := {
  repositories : list repository;
  documents : list document;
  documents_fts : list fts_entry
}.

Definition empty_database : database :=
  {| repositories := []; documents := []; documents_fts := [] |}.

(** The rowid given to a row inserted into a table with these rowids. *)
Definition next_rowid (rowids : list Z) : Z :=
  fold_right Z.max 0 rowids + 1.

(** The argument [repo_data] of [upsert_repository]: [None] is an absent
    key (or, for the keys read without a default, the value [None]). *)
Record repo_data := {
  in_owner : option str;
  in_name : option str;
  in_full_name : option str;
  in_stars : option Z;
  in_language : option str;
  in_category : option str;
  in_description : option str;
  in_source : option str;
  in_quality_score : option Q;
  in_quality_grade : option str;
  in_quality_metrics : option (list (str * Q));
  in_priority : option str;
  in_doc_paths : option (list str);
  in_topics : option (list str)
}.

Inductive error := KeyError | IntegrityError | OperationalError.

Inductive result (A : Type) :=
| Ok (a : A)
| Raise (e : error).
Arguments Ok {A} a.
Arguments Raise {A} e.

(** [COALESCE(excluded, current)] *)
Definition coalesce {A} (excluded current : option A) : option A :=
  match excluded with Some _ => excluded | None => current end.

Definition same_identity (o n : str) (r : repository) : bool :=
  eqb_str (owner r) o && eqb_str (name r) n.

(** The row the INSERT of [upsert_repository] proposes. *)
Definition proposed_row (new_id : Z) (o n fn : str) (data : repo_data) : repository :=
  {| id := new_id; owner := o; name := n; full_name := fn;
     stars := default 0 (in_stars data);
     language := in_language data;
     category := in_category data;
     description := in_description data;
     source := default (lit "discovered") (in_source data);
     quality_score := default 0.5%Q (in_quality_score data);
     quality_grade := default (lit "C") (in_quality_grade data);
     quality_metrics := default [] (in_quality_metrics data);
     priority := default (lit "medium") (in_priority data);
     doc_paths := default [] (in_doc_paths data);
     topics := default [] (in_topics data);
     last_indexed := None |}.

(** The DO UPDATE SET clause, on the row in conflict. *)
Definition do_update (excluded current : repository) : repository :=
  {| id := id current; owner := owner current; name := name current;
     full_name := full_name current;
     stars := stars excluded;
     language := language excluded;
     category := coalesce (category excluded) (category current);
     description := coalesce (description excluded) (description current);
     source := source current;
     quality_score := quality_score excluded;
     quality_grade := quality_grade excluded;
     quality_metrics := quality_metrics excluded;
     priority := priority excluded;
     doc_paths := doc_paths excluded;
     topics := topics excluded;
     last_indexed := last_indexed current |}.

Definition source_allowed (s : str) : bool :=
  eqb_str s (lit "curated") || eqb_str s (lit "discovered").

(** [upsert_repository(repo_data)].  The three identity keys are read with
    [repo_data[...]] (KeyError when absent); the CHECK on [source] is
    evaluated before the uniqueness constraints; the conflict target
    (owner, name) is examined before the UNIQUE constraint on [full_name].
    The value returned ([cursor.lastrowid]) is not modelled. *)
Definition upsert_repository (data : repo_data) (db : database) : result database :=
  match in_owner data, in_name data, in_full_name data with
  | Some o, Some n, Some fn =>
      let excluded := proposed_row (next_rowid (map id (repositories db))) o n fn data in
      if negb (source_allowed (source excluded)) then Raise IntegrityError
      else if existsb (same_identity o n) (repositories db)
      then Ok {| repositories :=
                   map (fun r => if same_identity o n r then do_update excluded r else r)
                       (repositories db);
                 documents := documents db;
                 documents_fts := documents_fts db |}
      else if existsb (fun r => eqb_str (full_name r) fn) (repositories db)
      then Raise IntegrityError
      else Ok {| repositories := repositories db ++ [excluded];
                 documents := documents db;
                 documents_fts := documents_fts db |}
  | _, _, _ => Raise KeyError
  end.

(** The rows of [repositories] with a given id. *)
Definition repositories_with_id (rid : Z) (db : database) : list repository :=
  List.filter (fun r => id r =? rid) (repositories db).

(** Trigger [documents_ai]: one index row for every repository with the id
    of the new document, each with a fresh rowid. *)
Fixpoint documents_ai (repos : list repository) (new_doc : document)
    (fts : list fts_entry) : list fts_entry :=
  match repos with
  | [] => fts
  | r :: rest =>
      documents_ai rest new_doc
        (fts ++ [{| rowid := next_rowid (map rowid fts);
                    repo_full_name := Some (full_name r);
                    fts_path := path new_doc;
                    fts_content := content new_doc |}])
  end.

(** Trigger [documents_au]: the index rows whose rowid is the id of the
    updated document are rewritten. *)
Definition documents_au (db : database) (new_doc : document)
    (fts : list fts_entry) : list fts_entry :=
  map (fun e =>
         if rowid e =? doc_id new_doc
         then {| rowid := rowid e;
                 repo_full_name :=
                   option_map full_name (head (repositories_with_id (repo_id new_doc) db));
                 fts_path := path new_doc;
                 fts_content := content new_doc |}
         else e) fts.

(** Trigger [documents_ad] *)
Definition documents_ad (old_doc : document) (fts : list fts_entry) : list fts_entry :=
  List.filter (fun e => negb (rowid e =? doc_id old_doc)) fts.

Definition same_document (rid : Z) (p : str) (d : document) : bool :=
  (repo_id d =? rid) && eqb_str (path d) p.

(** [add_document(repo_id, path, content, content_hash)], at time [now]. *)
Definition add_document (now : Z) (rid : Z) (p c h : str) (db : database) : database :=
  match List.find (same_document rid p) (documents db) with
  | Some old =>
      let new_doc := {| doc_id := doc_id old; repo_id := rid; path := p;
                        content := c; content_hash := h; indexed_at := now |} in
      {| repositories := repositories db;
         documents :=
           map (fun d => if doc_id d =? doc_id old then new_doc else d) (documents db);
         documents_fts := documents_au db new_doc (documents_fts db) |}
  | None =>
      let new_doc := {| doc_id := next_rowid (map doc_id (documents db));
                        repo_id := rid; path := p; content := c;
                        content_hash := h; indexed_at := now |} in
      {| repositories := repositories db;
         documents := documents db ++ [new_doc];
         documents_fts :=
           documents_ai (repositories_with_id rid db) new_doc (documents_fts db) |}
  end.

(** [DELETE FROM documents WHERE id = ?]: the statement that fires the
    trigger [documents_ad] for every row it removes.  (The source declares
    the trigger and has no method that runs the statement.) *)
Definition delete_document (did : Z) (db : database) : database :=
  {| repositories := repositories db;
     documents := List.filter (fun d => negb (doc_id d =? did)) (documents db);
     documents_fts :=
       fold_right documents_ad (documents_fts db)
         (List.filter (fun d => doc_id d =? did) (documents db)) |}.

(** The rows of [documents d JOIN repositories r ON d.repo_id = r.id]. *)
Definition documents_join_repositories (db : database) : list (document * repository) :=
  flat_map (fun d => map (fun r => (d, r)) (repositories_with_id (repo_id d) db))
           (documents db).

(** Rows inserted one after the other into an index, each with a fresh
    rowid. *)
Fixpoint insert_entries (rows : list (document * repository))
    (fts : list fts_entry) : list fts_entry :=
  match rows with
  | [] => fts
  | (d, r) :: rest =>
      insert_entries rest
        (fts ++ [{| rowid := next_rowid (map rowid fts);
                    repo_full_name := Some (full_name r);
                    fts_path := path d;
                    fts_content := content d |}])
  end.

(** [rebuild_fts_index()]: the new state and the returned row count. *)
Definition rebuild_fts_index (db : database) : database * Z :=
  let rows := documents_join_repositories db in
  ({| repositories := repositories db;
      documents := documents db;
      documents_fts := insert_entries rows [] |},
   len rows).

(** A row returned by [search_documents]. *)
Record search_row := {
  r_full_name : str;
  r_stars : Z;
  r_category : option str;
  r_description : option str;
  r_source : str;
  r_quality_score : Q;
  r_path : str;
  r_snippet : str;
  r_rank : Q
}.

(** The argument [filters]: [None] is an absent key. *)
Record filters := {
  min_stars : option Z;
  filter_category : option str;
  filter_source : option str
}.

(** The WHERE conditions added for the filters: a key counts only when its
    value is truthy. *)
Definition passes (f : filters) (row : search_row) : bool :=
  match min_stars f with
  | Some m => if m =? 0 then true else m <=? r_stars row
  | None => true
  end &&
  match filter_category f with
  | Some c => if eqb_str c [] then true
              else match r_category row with
                   | Some c' => eqb_str c' c
                   | None => false
                   end
  | None => true
  end &&
  match filter_source f with
  | Some s => if eqb_str s [] then true else eqb_str (r_source row) s
  | None => true
  end.

(** [ORDER BY rank, r.quality_score DESC, r.stars DESC]: [row_leb a b]
    tells that [a] may come before [b]. *)
Definition row_leb (a b : search_row) : bool :=
  match (r_rank a ?= r_rank b)%Q with
  | Lt => true
  | Gt => false
  | Eq =>
      match (r_quality_score b ?= r_quality_score a)%Q with
      | Lt => true
      | Gt => false
      | Eq => r_stars b <=? r_stars a
      end
  end.

(** The sort of ORDER BY, as a stable insertion sort (SQLite leaves the
    order of rows with equal keys open). *)
Fixpoint insert_row (x : search_row) (rows : list search_row) : list search_row :=
  match rows with
  | [] => [x]
  | y :: rows' => if row_leb x y then x :: rows else y :: insert_row x rows'
  end.

Definition order_by (rows : list search_row) : list search_row :=
  fold_right insert_row [] rows.

Section Search.

(** [documents_fts MATCH ?]: the rows of the index that match the query,
    each with its rank and its snippet; [None] when FTS5 rejects the
    query. *)
Variable fts5_match : str -> list fts_entry -> option (list (fts_entry * Q * str)).

(** The rows of
    [documents_fts JOIN documents d ON documents_fts.path = d.path
     JOIN repositories r ON documents_fts.repo_full_name = r.full_name]
    for the matching index rows. *)
Definition joined_rows (hits : list (fts_entry * Q * str)) (db : database)
    : list search_row :=
  flat_map (fun hit =>
    let '(e, rank, snippet) := hit in
    flat_map (fun d =>
      if eqb_str (fts_path e) (path d)
      then flat_map (fun r =>
             match repo_full_name e with
             | Some fn =>
                 if eqb_str fn (full_name r)
                 then [{| r_full_name := full_name r; r_stars := stars r;
                          r_category := category r; r_description := description r;
                          r_source := source r; r_quality_score := quality_score r;
                          r_path := fts_path e; r_snippet := snippet;
                          r_rank := rank |}]
                 else []
             | None => []
             end) (repositories db)
      else []) (documents db)) hits.

(** [search_documents(query, filters)] *)
Definition search_documents (query : str) (f : filters) (db : database)
    : result (list search_row) :=
  match fts5_match query (documents_fts db) with
  | None => Raise OperationalError
  | Some hits =>
      Ok (firstn 50 (order_by (List.filter (passes f) (joined_rows hits db))))
  end.

End Search.

(** *** upsert_repository *)

Definition identity (r : repository) : str * str := (owner r, name r).

Definition identity_rows (o n : str) (db : database) : list repository :=
  List.filter (same_identity o n) (repositories db).

(** Two arguments of [upsert_repository] with the same owner and name. *)
Definition first_upsert : repo_data :=
  {| in_owner := Some (lit "octo"); in_name := Some (lit "docs");
     in_full_name := Some (lit "octo/docs");
     in_stars := Some 10; in_language := Some (lit "Python");
     in_category := Some (lit "AI/ML"); in_description := Some (lit "first");
     in_source := Some (lit "curated"); in_quality_score := None;
     in_quality_grade := None; in_quality_metrics := None; in_priority := None;
     in_doc_paths := Some [lit "README.md"]; in_topics := None |}.

Definition second_upsert : repo_data :=
  {| in_owner := Some (lit "octo"); in_name := Some (lit "docs");
     in_full_name := Some (lit "octo/docs");
     in_stars := Some 25; in_language := None;
     in_category := None; in_description := Some (lit "second");
     in_source := None; in_quality_score := Some 0.8%Q;
     in_quality_grade := Some (lit "A-"); in_quality_metrics := None;
     in_priority := Some (lit "high");
     in_doc_paths := None; in_topics := Some [lit "docs"] |}.

(** [a] is not after [b] in the order (relevance rank, quality score
    descending, stars descending). *)
Definition ordered_before (a b : search_row) : Prop :=
  (r_rank a < r_rank b)%Q \/
  ((r_rank a == r_rank b)%Q /\
   ((r_quality_score b < r_quality_score a)%Q \/
    ((r_quality_score a == r_quality_score b)%Q /\ r_stars b <= r_stars a))).

(** A toy matcher: every row of the index matches, with rank -1 and its
    content as snippet. *)
Definition match_all (query : str) (index : list fts_entry)
    : option (list (fts_entry * Q * str)) :=
  Some (map (fun e => (e, (-1)%Q, fts_content e)) index).

(** The state after a write, the empty database if it raised. *)
Definition after (r : result database) : database :=
  match r with Ok db => db | Raise _ => empty_database end.

(** One repository with two documents. *)
Definition sample_database : database :=
  add_document 2 1 (lit "guide.md") (lit "beta") (lit "h2")
    (add_document 1 1 (lit "README.md") (lit "alpha") (lit "h1")
       (after (upsert_repository first_upsert empty_database))).

Definition no_filters : filters :=
  {| min_stars := None; filter_category := None; filter_source := None |}.

(** What the index holds, and what the live documents call for: the
    (repository full name, path, content) of every document. *)
Definition index_contents (db : database) : list (option str * str * str) :=
  map (fun e => (repo_full_name e, fts_path e, fts_content e)) (documents_fts db).

Definition live_contents (db : database) : list (option str * str * str) :=
  map (fun d => (option_map full_name (head (repositories_with_id (repo_id d) db)),
                 path d, content d))
      (documents db).

(** The index row that a document calls for: its own id as rowid, the full
    name of its repository, its path and content. *)
Definition index_entry_of (db : database) (d : document) : option fts_entry :=
  match repositories_with_id (repo_id d) db with
  | r :: _ => Some {| rowid := doc_id d; repo_full_name := Some (full_name r);
                      fts_path := path d; fts_content := content d |}
  | [] => None
  end.

(** The index is in step with the documents: row for row, the index holds
    the entry of the document, under the same rowid. *)
Definition in_step (db : database) : Prop :=
  List.NoDup (map id (repositories db)) /\
  List.NoDup (map doc_id (documents db)) /\
  Forall2 (fun d e => index_entry_of db d = Some e) (documents db) (documents_fts db).

Inductive operation :=
| AddDocument (now rid : Z) (p c h : str)
| DeleteDocument (did : Z).

Definition apply_operation (db : database) (op : operation) : database :=
  match op with
  | AddDocument now rid p c h => add_document now rid p c h db
  | DeleteDocument did => delete_document did db
  end.

(** The operation names a repository of the table. *)
Definition known_repository (db : database) (op : operation) : Prop :=
  match op with
  | AddDocument _ rid _ _ _ => repositories_with_id rid db <> []
  | DeleteDocument _ => True
  end.

(** One repository, with id 1, and no document. *)
Definition one_repository : database :=
  after (upsert_repository first_upsert empty_database).

(** *** The read operations *)

(** [get_repository(full_name)]: the first row with that full name, the
    JSON columns decoded. *)
Definition get_repository (fn : str) (db : database) : option repository :=
  List.find (fun r => eqb_str (full_name r) fn) (repositories db).

(** The WHERE conditions of [list_repositories]: a key of [filters] counts
    only when its value is truthy. *)
Definition repository_passes (f : filters) (r : repository) : bool :=
  match filter_category f with
  | Some c => if eqb_str c [] then true
              else match category r with
                   | Some c' => eqb_str c' c
                   | None => false
                   end
  | None => true
  end &&
  match filter_source f with
  | Some s => if eqb_str s [] then true else eqb_str (source r) s
  | None => true
  end &&
  match min_stars f with
  | Some m => if m =? 0 then true else m <=? stars r
  | None => true
  end.

(** ORDER BY as a stable insertion sort: [leb a b] tells that [a] may come
    before [b]. *)
Fixpoint insert_by {A} (leb : A -> A -> bool) (x : A) (rows : list A) : list A :=
  match rows with
  | [] => [x]
  | y :: rows' => if leb x y then x :: rows else y :: insert_by leb x rows'
  end.

Definition sort_by {A} (leb : A -> A -> bool) (rows : list A) : list A :=
  fold_right (insert_by leb) [] rows.

(** [ORDER BY quality_score DESC, stars DESC] *)
Definition repository_leb (a b : repository) : bool :=
  match (quality_score b ?= quality_score a)%Q with
  | Lt => true
  | Gt => false
  | Eq => stars b <=? stars a
  end.

(** [list_repositories(filters)] *)
Definition list_repositories (f : filters) (db : database) : list repository :=
  sort_by repository_leb (List.filter (repository_passes f) (repositories db)).

(** The order of TEXT values (collation BINARY): the order of the UTF-8
    encodings, which is the lexicographic order of the code points. *)
Fixpoint str_leb (a b : str) : bool :=
  match a, b with
  | [], _ => true
  | _ :: _, [] => false
  | x :: a', y :: b' =>
      if (x <? y)%N then true else if (y <? x)%N then false else str_leb a' b'
  end.

(** A row returned by [get_repository_documents]. *)
Record document_row := {
  dr_path : str;
  dr_content : str;
  dr_indexed_at : Z;
  dr_full_name : str;
  dr_category : option str;
  dr_stars : Z
}.

Definition document_row_of (dr : document * repository) : document_row :=
  {| dr_path := path (fst dr); dr_content := content (fst dr);
     dr_indexed_at := indexed_at (fst dr); dr_full_name := full_name (snd dr);
     dr_category := category (snd dr); dr_stars := stars (snd dr) |}.

(** [get_repository_documents(repo_name)] *)
Definition get_repository_documents (repo_name : str) (db : database) : list document_row :=
  sort_by (fun a b => str_leb (dr_path a) (dr_path b))
    (map document_row_of
       (List.filter (fun dr => eqb_str (full_name (snd dr)) repo_name)
          (documents_join_repositories db))).

(** The counts of [get_statistics]: [total_repositories], the two entries
    of [by_source], and [total_documents]. *)
Record statistics := {
  total_repositories : Z;
  by_source_curated : Z;
  by_source_discovered : Z;
  total_documents : Z
}.

Definition get_statistics (db : database) : statistics :=
  {| total_repositories := len (repositories db);
     by_source_curated :=
       len (List.filter (fun r => eqb_str (source r) (lit "curated")) (repositories db));
     by_source_discovered :=
       len (List.filter (fun r => eqb_str (source r) (lit "discovered")) (repositories db));
     total_documents := len (documents db) |}.

(** *** Definitions used in the further statements *)

(** The constraints of the table [repositories]: the primary key, the two
    UNIQUE constraints and the CHECK on [source]. *)
Definition constraints_hold (db : database) : Prop :=
  List.NoDup (map id (repositories db)) /\
  List.NoDup (map identity (repositories db)) /\
  List.NoDup (map full_name (repositories db)) /\
  Forall (fun r => source_allowed (source r) = true) (repositories db).

(** [a] is not after [b] in the order of [list_repositories]. *)
Definition listed_before (a b : repository) : Prop :=
  (quality_score b < quality_score a)%Q \/
  ((quality_score a == quality_score b)%Q /\ stars b <= stars a).

(** The constraints of the table [documents]: the primary key and the
    UNIQUE constraint on (repo_id, path). *)
Definition document_constraints_hold (db : database) : Prop :=
  List.NoDup (map doc_id (documents db)) /\
  List.NoDup (map (fun d => (repo_id d, path d)) (documents db)).

(** The row of [search_documents] for an index row and a repository. *)
Definition search_row_of (e : fts_entry) (rank : Q) (snippet : str) (r : repository)
    : search_row :=
  {| r_full_name := full_name r; r_stars := stars r; r_category := category r;
     r_description := description r; r_source := source r;
     r_quality_score := quality_score r; r_path := fts_path e;
     r_snippet := snippet; r_rank := rank |}.

(** A second repository, and a database in which both repositories have a
    document with the path README.md. *)
Definition other_upsert : repo_data :=
  {| in_owner := Some (lit "acme"); in_name := Some (lit "tools");
     in_full_name := Some (lit "acme/tools");
     in_stars := Some 500; in_language := None;
     in_category := Some (lit "Testing"); in_description := None;
     in_source := None; in_quality_score := Some 0.9%Q;
     in_quality_grade := Some (lit "A+"); in_quality_metrics := None;
     in_priority := None; in_doc_paths := None; in_topics := None |}.

Definition two_repositories : database :=
  add_document 2 2 (lit "README.md") (lit "tools") (lit "h2")
    (add_document 1 1 (lit "README.md") (lit "docs") (lit "h1")
       (after (upsert_repository other_upsert
                 (after (upsert_repository first_upsert empty_database))))).

Definition octo_docs : repository :=
  proposed_row 1 (lit "octo") (lit "docs") (lit "octo/docs") first_upsert.

Definition acme_tools : repository :=
  proposed_row 2 (lit "acme") (lit "tools") (lit "acme/tools") other_upsert.

(** The documents whose repository is in the table. *)
Definition documents_of_known_repositories (db : database) : list document :=
  List.filter (fun d => existsb (fun r => id r =? repo_id d) (repositories db))
              (documents db).

Lemma same_identity_spec o n r :
  same_identity o n r = true <-> identity r = (o, n).
Proof.
  unfold same_identity, identity. rewrite andb_true_iff, !eqb_str_eq.
  split; [intros [-> ->]; reflexivity|intros H; injection H; tauto].
Qed.

Lemma existsb_filter {A} (p : A -> bool) l :
  existsb p l = match List.filter p l with [] => false | _ :: _ => true end.
Proof.
  induction l as [|a l IH]; [reflexivity|].
  cbn [existsb List.filter]. destruct (p a); [reflexivity|exact IH].
Qed.

Lemma filter_identity_unique o n rows :
  List.NoDup (map identity rows) ->
  (length (List.filter (same_identity o n) rows) <= 1)%nat.
Proof.
  induction rows as [|r rows IH]; intros Hnd; [cbn; lia|].
  cbn [map] in Hnd. inversion Hnd as [|? ? Hnotin Hrest]; subst.
  cbn [List.filter]. destruct (same_identity o n r) eqn:Hr; [|apply IH, Hrest].
  apply same_identity_spec in Hr.
  assert (Hnone : List.filter (same_identity o n) rows = []).
  { destruct (List.filter (same_identity o n) rows) as [|r' rest] eqn:Hf; [reflexivity|].
    exfalso. apply Hnotin.
    assert (Hin : In r' (List.filter (same_identity o n) rows))
      by (rewrite Hf; left; reflexivity).
    apply filter_In in Hin. destruct Hin as [Hin Hr'].
    apply same_identity_spec in Hr'. rewrite Hr, <- Hr'. apply in_map, Hin. }
  rewrite Hnone. cbn. lia.
Qed.

Lemma filter_map_update {A} (p : A -> bool) (f : A -> A) l :
  (forall a, p (f a) = p a) ->
  List.filter p (map (fun a => if p a then f a else a) l) = map f (List.filter p l).
Proof.
  intros Hp. induction l as [|a l IH]; [reflexivity|].
  cbn [map List.filter]. destruct (p a) eqn:Ha.
  - rewrite Hp, Ha. cbn [map]. rewrite IH. reflexivity.
  - rewrite Ha. exact IH.
Qed.

Lemma same_identity_do_update o n excluded r :
  same_identity o n (do_update excluded r) = same_identity o n r.
Proof. reflexivity. Qed.

(** After a successful upsert the table holds exactly one row with the
    identity of the argument. *)
Lemma upsert_repository_row data db db' o n :
  List.NoDup (map identity (repositories db)) ->
  in_owner data = Some o -> in_name data = Some n ->
  upsert_repository data db = Ok db' ->
  exists r, identity_rows o n db' = [r].
Proof.
  intros Hnd Ho Hn. unfold upsert_repository. rewrite Ho, Hn.
  destruct (in_full_name data) as [fn|]; [|discriminate].
  cbv zeta. destruct (negb _); [discriminate|].
  pose proof (filter_identity_unique o n _ Hnd) as Hone.
  rewrite existsb_filter.
  destruct (List.filter (same_identity o n) (repositories db)) as [|r0 rest] eqn:Hf.
  - destruct (existsb _ (repositories db)); [discriminate|].
    intros H. injection H as <-. unfold identity_rows. cbn [repositories].
    rewrite List.filter_app, Hf. cbn [List.filter app].
    unfold same_identity at 1. cbn [proposed_row owner name].
    rewrite !eqb_str_refl. cbn. eexists. reflexivity.
  - intros H. injection H as <-. unfold identity_rows. cbn [repositories].
    rewrite filter_map_update by (intros; apply same_identity_do_update).
    rewrite Hf. destruct rest; [|cbn in Hone; lia].
    eexists. reflexivity.
Qed.

(** C6. Two upserts with the same (owner, name): once the first has
    succeeded, the second succeeds whenever it passes the checks on its own
    arguments, the table holds exactly one row with that identity and no
    more rows than after the first call, the stored category and description
    are kept unless the second call supplies a non-null value, and the star
    count, language, quality score, grade and metrics, priority, doc paths
    and topics are those of the second call. *)
Theorem upsert_repository_twice (db db1 : database) (d1 d2 : repo_data) (o n fn2 : str) :
  List.NoDup (map identity (repositories db)) ->
  in_owner d1 = Some o -> in_name d1 = Some n ->
  in_owner d2 = Some o -> in_name d2 = Some n -> in_full_name d2 = Some fn2 ->
  source_allowed (default (lit "discovered") (in_source d2)) = true ->
  upsert_repository d1 db = Ok db1 ->
  exists db2 r1 r2,
    upsert_repository d2 db1 = Ok db2 /\
    identity_rows o n db1 = [r1] /\
    identity_rows o n db2 = [r2] /\
    length (repositories db2) = length (repositories db1) /\
    category r2 = coalesce (in_category d2) (category r1) /\
    description r2 = coalesce (in_description d2) (description r1) /\
    stars r2 = default 0 (in_stars d2) /\
    language r2 = in_language d2 /\
    quality_score r2 = default 0.5%Q (in_quality_score d2) /\
    quality_grade r2 = default (lit "C") (in_quality_grade d2) /\
    quality_metrics r2 = default [] (in_quality_metrics d2) /\
    priority r2 = default (lit "medium") (in_priority d2) /\
    doc_paths r2 = default [] (in_doc_paths d2) /\
    topics r2 = default [] (in_topics d2).
Proof.
  intros Hnd Ho1 Hn1 Ho2 Hn2 Hfn2 Hsrc Hfirst.
  destruct (upsert_repository_row _ _ _ _ _ Hnd Ho1 Hn1 Hfirst) as [r1 Hr1].
  unfold upsert_repository. rewrite Ho2, Hn2, Hfn2. cbv zeta.
  cbn [proposed_row source]. rewrite Hsrc. cbn [negb].
  rewrite existsb_filter. fold (identity_rows o n db1). rewrite Hr1.
  eexists _, r1, _. split; [reflexivity|]. split; [reflexivity|].
  unfold identity_rows at 1. cbn [repositories].
  rewrite filter_map_update by (intros; apply same_identity_do_update).
  fold (identity_rows o n db1). rewrite Hr1. cbn [map].
  split; [reflexivity|]. split; [apply length_map|].
  repeat split; reflexivity.
Qed.

Lemma upsert_repository_twice_witness :
  exists db1 db2 r2,
    upsert_repository first_upsert empty_database = Ok db1 /\
    upsert_repository second_upsert db1 = Ok db2 /\
    identity_rows (lit "octo") (lit "docs") db2 = [r2] /\
    category r2 = Some (lit "AI/ML") /\
    description r2 = Some (lit "second") /\
    stars r2 = 25 /\ language r2 = None.
Proof.
  destruct (upsert_repository_twice empty_database
              (match upsert_repository first_upsert empty_database with
               | Ok db1 => db1 | Raise _ => empty_database end)
              first_upsert second_upsert (lit "octo") (lit "docs") (lit "octo/docs"))
    as (db2 & r1 & r2 & H2 & H1 & Hrow & _ & Hcat & Hdesc & Hstars & Hlang & _);
    try reflexivity; [constructor|].
  exists (match upsert_repository first_upsert empty_database with
          | Ok db1 => db1 | Raise _ => empty_database end), db2, r2.
  split; [reflexivity|]. split; [exact H2|]. split; [exact Hrow|].
  assert (Hr1 : r1 = hd r1 (identity_rows (lit "octo") (lit "docs")
                   (match upsert_repository first_upsert empty_database with
                    | Ok db1 => db1 | Raise _ => empty_database end)))
    by (rewrite H1; reflexivity).
  rewrite Hcat, Hdesc, Hstars, Hlang, Hr1. repeat split; reflexivity.
Defined.

(** *** search_documents *)

Lemma row_leb_spec a b : row_leb a b = true <-> ordered_before a b.
Proof.
  unfold row_leb, ordered_before.
  destruct (Qcompare_spec (r_rank a) (r_rank b)) as [Hr|Hr|Hr].
  - destruct (Qcompare_spec (r_quality_score b) (r_quality_score a)) as [Hq|Hq|Hq].
    + rewrite Z.leb_le. split.
      * intros Hs. right. split; [exact Hr|]. right. split; [symmetry; exact Hq|exact Hs].
      * intros [H|[_ [H|[_ H]]]]; [lra|lra|exact H].
    + split; [intros _; right; split; [exact Hr|left; exact Hq]|reflexivity].
    + split; [discriminate|]. intros [H|[_ [H|[H _]]]]; lra.
  - split; [intros _; left; exact Hr|reflexivity].
  - split; [discriminate|]. intros [H|[H _]]; lra.
Qed.

Lemma row_leb_total a b : row_leb a b = false -> ordered_before b a.
Proof.
  intros H. apply row_leb_spec. revert H. unfold row_leb.
  rewrite <- (Qcompare_antisym (r_rank b) (r_rank a)).
  rewrite <- (Qcompare_antisym (r_quality_score a) (r_quality_score b)).
  destruct (r_rank b ?= r_rank a)%Q; cbn [CompOpp]; try discriminate; try reflexivity.
  destruct (r_quality_score a ?= r_quality_score b)%Q; cbn [CompOpp];
    try discriminate; try reflexivity.
  intros H. apply Z.leb_gt in H. apply Z.leb_le. lia.
Qed.

Lemma ordered_before_trans a b c :
  ordered_before a b -> ordered_before b c -> ordered_before a c.
Proof.
  unfold ordered_before.
  intros [H1|[H1 [H1'|[H1' H1'']]]] [H2|[H2 [H2'|[H2' H2'']]]];
    try (left; lra);
    right; (split; [lra|]);
    try (left; lra);
    right; (split; [lra|lia]).
Qed.

Lemma Forall_insert_row (P : search_row -> Prop) x rows :
  P x -> Forall P rows -> Forall P (insert_row x rows).
Proof.
  intros Hx Hrows. induction Hrows as [|y rows Hy Hrows IH]; cbn [insert_row].
  - constructor; [exact Hx|constructor].
  - destruct (row_leb x y); repeat constructor; assumption.
Qed.

Lemma insert_row_sorted x rows :
  StronglySorted ordered_before rows ->
  StronglySorted ordered_before (insert_row x rows).
Proof.
  induction 1 as [|y rows Hsorted IH Hy]; cbn [insert_row].
  - constructor; constructor.
  - destruct (row_leb x y) eqn:Hxy.
    + apply row_leb_spec in Hxy. constructor.
      * constructor; assumption.
      * constructor; [exact Hxy|].
        eapply List.Forall_impl; [|exact Hy].
        intros z Hz. eapply ordered_before_trans; eassumption.
    + apply row_leb_total in Hxy. constructor; [exact IH|].
      apply Forall_insert_row; assumption.
Qed.

Lemma order_by_sorted rows : StronglySorted ordered_before (order_by rows).
Proof.
  induction rows as [|x rows IH]; cbn [order_by fold_right]; [constructor|].
  apply insert_row_sorted, IH.
Qed.

Lemma Forall_firstn {A} (P : A -> Prop) k l :
  Forall P l -> Forall P (firstn k l).
Proof.
  intros H. revert k. induction H as [|x l Hx Hl IH]; intros [|k]; cbn [firstn];
    constructor; [exact Hx|apply IH].
Qed.

Lemma firstn_sorted {A} (R : A -> A -> Prop) k l :
  StronglySorted R l -> StronglySorted R (firstn k l).
Proof.
  intros H. revert k. induction H as [|x l Hl IH Hx]; intros [|k]; cbn [firstn];
    try constructor.
  - apply IH.
  - apply Forall_firstn, Hx.
Qed.



(** *** The full-text index and the documents *)

(** C1, failing inputs. [add_document] with the id of no repository stores
    the document and no index row (the foreign key is declared and not
    enforced, and the insert trigger selects from [repositories]).  From
    then on the rowids of the index lag behind the document ids, which the
    update and delete triggers use: replacing the next document leaves its
    old content in the index, and deleting it leaves its index row. *)
Theorem index_out_of_step :
  let db1 := add_document 1 7 (lit "notes.md") (lit "text") (lit "h0") one_repository in
  let db2 := add_document 2 1 (lit "README.md") (lit "old") (lit "h1") db1 in
  let db3 := add_document 3 1 (lit "README.md") (lit "new") (lit "h2") db2 in
  let db4 := delete_document 2 db3 in
  (map doc_id (documents db1) = [1] /\ documents_fts db1 = []) /\
  (map doc_id (documents db2) = [1; 2] /\ map rowid (documents_fts db2) = [1]) /\
  (map content (documents db3) = [lit "text"; lit "new"] /\
   map fts_content (documents_fts db3) = [lit "old"]) /\
  (map doc_id (documents db4) = [1] /\
   index_contents db4 = [(Some (lit "octo/docs"), lit "README.md", lit "old")]) /\
  index_contents db1 <> live_contents db1 /\
  index_contents db3 <> live_contents db3 /\
  index_contents db4 <> live_contents db4.
Proof.
  cbv zeta. repeat split; try (vm_compute; reflexivity); vm_compute; discriminate.
Qed.

(** With documents of a known repository only: after the first of two
    documents is deleted and the index rebuilt, the index row of the
    remaining document (id 2) has rowid 1; replacing that document leaves
    its old content in the index. *)
Lemma rebuild_then_replace_out_of_step :
  let db1 := delete_document 1 sample_database in
  let db2 := fst (rebuild_fts_index db1) in
  let db3 := add_document 3 1 (lit "guide.md") (lit "gamma") (lit "h3") db2 in
  index_contents db2 = live_contents db2 /\
  map doc_id (documents db2) = [2] /\ map rowid (documents_fts db2) = [1] /\
  map content (documents db3) = [lit "gamma"] /\
  map fts_content (documents_fts db3) = [lit "beta"].
Proof.
  cbv zeta. split; [vm_compute; reflexivity|]. split; [vm_compute; reflexivity|].
  split; [vm_compute; reflexivity|]. split; vm_compute; reflexivity.
Qed.

(** *** The index stays in step when every document names a repository *)

Lemma index_entry_of_ext db db' d :
  repositories db' = repositories db -> index_entry_of db' d = index_entry_of db d.
Proof. intros H. unfold index_entry_of, repositories_with_id. rewrite H. reflexivity. Qed.

Lemma in_step_rowids docs fts db :
  Forall2 (fun d e => index_entry_of db d = Some e) docs fts ->
  map rowid fts = map doc_id docs.
Proof.
  induction 1 as [|d e docs fts Hde _ IH]; [reflexivity|].
  cbn [map]. rewrite IH. f_equal.
  unfold index_entry_of in Hde. destruct (repositories_with_id _ _); [discriminate|].
  injection Hde as <-. reflexivity.
Qed.

Lemma next_rowid_fresh rowids x : In x rowids -> x < next_rowid rowids.
Proof.
  unfold next_rowid. induction rowids as [|y rowids IH]; [intros []|].
  cbn [fold_right]. intros [->|Hx]; [lia|]. specialize (IH Hx). lia.
Qed.

Lemma repositories_with_id_unique rid db r rest :
  List.NoDup (map id (repositories db)) ->
  repositories_with_id rid db = r :: rest -> rest = [].
Proof.
  unfold repositories_with_id. induction (repositories db) as [|r0 repos IH];
    intros Hnd Hf; [discriminate|].
  cbn [map] in Hnd. inversion Hnd as [|? ? Hnotin Hrest]; subst.
  cbn [List.filter] in Hf. destruct (id r0 =? rid) eqn:Hid; [|apply IH; assumption].
  injection Hf as -> Hf. destruct rest as [|r' rest]; [reflexivity|]. exfalso.
  assert (Hin : In r' (List.filter (fun r => id r =? rid) repos))
    by (rewrite Hf; left; reflexivity).
  apply filter_In in Hin. destruct Hin as [Hin Hid'].
  apply Hnotin. apply Z.eqb_eq in Hid, Hid'. rewrite Hid, <- Hid'. apply in_map, Hin.
Qed.

Lemma add_document_in_step now rid p c h db :
  in_step db -> repositories_with_id rid db <> [] ->
  in_step (add_document now rid p c h db).
Proof.
  intros (Hrepos & Hids & Hstep) Hknown. unfold add_document.
  destruct (repositories_with_id rid db) as [|r rest] eqn:Hr; [congruence|].
  pose proof (repositories_with_id_unique _ _ _ _ Hrepos Hr) as ->.
  destruct (List.find (same_document rid p) (documents db)) as [old|] eqn:Hfind.
  - split; [exact Hrepos|]. cbn [documents documents_fts repositories].
    assert (Hmap : map doc_id
                     (map (fun d => if doc_id d =? doc_id old
                                    then {| doc_id := doc_id old; repo_id := rid;
                                            path := p; content := c;
                                            content_hash := h; indexed_at := now |}
                                    else d) (documents db))
                   = map doc_id (documents db)).
    { rewrite map_map. apply map_ext. intros d.
      destruct (Z.eqb_spec (doc_id d) (doc_id old)) as [->|]; reflexivity. }
    split; [rewrite Hmap; exact Hids|].
    unfold documents_au. cbn [doc_id repo_id path content]. rewrite Hr. cbn [head option_map].
    clear Hmap Hids Hfind. induction Hstep as [|d e docs fts Hde _ IH]; [constructor|].
    cbn [map]. constructor; [|exact IH].
    assert (Hrow : rowid e = doc_id d).
    { unfold index_entry_of in Hde. destruct (repositories_with_id _ _); [discriminate|].
      injection Hde as <-. reflexivity. }
    rewrite Hrow. destruct (doc_id d =? doc_id old) eqn:Hd.
    + unfold index_entry_of, repositories_with_id. cbn [repo_id repositories].
      fold (repositories_with_id rid db). rewrite Hr.
      cbn [doc_id path content]. apply Z.eqb_eq in Hd. rewrite Hd. reflexivity.
    + exact Hde.
  - split; [exact Hrepos|]. cbn [documents documents_fts repositories].
    split.
    + rewrite map_app. cbn [map doc_id].
      apply (Permutation_NoDup (Permutation_cons_append _ _)).
      constructor; [|exact Hids].
      intros Hin. apply next_rowid_fresh in Hin. lia.
    + cbn [documents_ai]. apply Forall2_app; [exact Hstep|].
      constructor; [|constructor].
      unfold index_entry_of, repositories_with_id. cbn [repo_id repositories].
      fold (repositories_with_id rid db). rewrite Hr.
      cbn [doc_id path content]. rewrite (in_step_rowids _ _ _ Hstep). reflexivity.
Qed.

Lemma delete_document_in_step did db : in_step db -> in_step (delete_document did db).
Proof.
  intros (Hrepos & Hids & Hstep). unfold delete_document.
  split; [exact Hrepos|]. cbn [documents documents_fts repositories].
  split.
  { clear Hstep. induction (documents db) as [|d docs IH]; [constructor|].
    cbn [map] in Hids. inversion Hids as [|? ? Hnotin Hrest]; subst.
    cbn [List.filter]. destruct (negb (doc_id d =? did)); [|apply IH, Hrest].
    cbn [map]. constructor; [|apply IH, Hrest].
    intros Hin. apply Hnotin. apply in_map_iff in Hin.
    destruct Hin as (d' & Hd' & Hin). apply filter_In in Hin.
    rewrite <- Hd'. apply in_map, Hin. }
  assert (Hfold : forall deleted fts,
             Forall (fun d => doc_id d = did) deleted ->
             fold_right documents_ad fts deleted =
             match deleted with
             | [] => fts
             | _ :: _ => List.filter (fun e => negb (rowid e =? did)) fts
             end).
  { induction deleted as [|d deleted IH]; intros fts Hall; [reflexivity|].
    apply List.Forall_cons_iff in Hall. destruct Hall as [Hd Hrest]. cbn [fold_right].
    rewrite (IH fts Hrest). unfold documents_ad. rewrite Hd.
    destruct deleted; [reflexivity|].
    clear. induction fts as [|e fts IH]; [reflexivity|].
    cbn [List.filter]. destruct (negb (rowid e =? did)) eqn:He; [|exact IH].
    cbn [List.filter]. rewrite He, IH. reflexivity. }
  rewrite Hfold
    by (apply List.Forall_forall; intros d Hd; apply filter_In in Hd;
        apply Z.eqb_eq, Hd).
  assert (Hfiltered :
            Forall2 (fun d e => index_entry_of db d = Some e)
              (List.filter (fun d => negb (doc_id d =? did)) (documents db))
              (List.filter (fun e => negb (rowid e =? did)) (documents_fts db))).
  { clear Hids Hfold. induction Hstep as [|d e docs fts Hde _ IH]; [constructor|].
    assert (Hrow : rowid e = doc_id d).
    { unfold index_entry_of in Hde. destruct (repositories_with_id _ _); [discriminate|].
      injection Hde as <-. reflexivity. }
    cbn [List.filter]. rewrite Hrow.
    destruct (negb (doc_id d =? did)); [constructor; assumption|exact IH]. }
  destruct (List.filter (fun d => doc_id d =? did) (documents db)) as [|d0 ds] eqn:Hdel;
    [|exact Hfiltered].
  assert (Hsame : List.filter (fun e => negb (rowid e =? did)) (documents_fts db)
                  = documents_fts db).
  { clear Hfiltered Hids Hfold.
    induction Hstep as [|d e docs fts Hde _ IH]; [reflexivity|].
    assert (Hrow : rowid e = doc_id d).
    { unfold index_entry_of in Hde. destruct (repositories_with_id _ _); [discriminate|].
      injection Hde as <-. reflexivity. }
    cbn [List.filter] in Hdel |- *. rewrite Hrow.
    destruct (doc_id d =? did); [discriminate|]. cbn [negb]. rewrite IH; [reflexivity|].
    exact Hdel. }
  rewrite <- Hsame. exact Hfiltered.
Qed.

Lemma apply_operation_repositories db op :
  repositories (apply_operation db op) = repositories db.
Proof.
  destruct op; cbn [apply_operation]; [|reflexivity].
  unfold add_document. destruct (List.find _ _); reflexivity.
Qed.

(** X14. From a state in step, any sequence of additions and replacements of
    documents of known repositories and of deletions leaves the index in
    step, and then the index holds exactly the contents of the live
    documents, in the same order. *)
Lemma operations_in_step ops : forall db,
  in_step db -> Forall (known_repository db) ops ->
  in_step (fold_left apply_operation ops db) /\
  index_contents (fold_left apply_operation ops db)
  = live_contents (fold_left apply_operation ops db).
Proof.
  assert (Hcontents : forall db, in_step db -> index_contents db = live_contents db).
  { intros db (_ & _ & Hstep). unfold index_contents, live_contents.
    induction Hstep as [|d e docs fts Hde _ IH]; [reflexivity|].
    cbn [map]. rewrite IH. f_equal.
    unfold index_entry_of in Hde. destruct (repositories_with_id _ _); [discriminate|].
    injection Hde as <-. reflexivity. }
  induction ops as [|op ops IH]; intros db Hdb Hknown.
  - split; [exact Hdb|apply Hcontents, Hdb].
  - inversion Hknown as [|? ? Hop Hrest]; subst. cbn [fold_left]. apply IH.
    + destruct op; cbn [apply_operation].
      * apply add_document_in_step; assumption.
      * apply delete_document_in_step; assumption.
    + eapply List.Forall_impl; [|exact Hrest].
      intros op'. destruct op'; cbn [known_repository]; [|trivial].
      unfold repositories_with_id. rewrite apply_operation_repositories. trivial.
Qed.

(** *** Further properties of the database *)

Lemma operations_in_step_witness :
  let ops := [AddDocument 1 1 (lit "README.md") (lit "alpha") (lit "h1");
              AddDocument 2 1 (lit "README.md") (lit "beta") (lit "h2");
              DeleteDocument 1] in
  in_step (fold_left apply_operation ops one_repository) /\
  index_contents (fold_left apply_operation ops one_repository)
  = live_contents (fold_left apply_operation ops one_repository).
Proof.
  apply (operations_in_step
           [AddDocument 1 1 (lit "README.md") (lit "alpha") (lit "h1");
            AddDocument 2 1 (lit "README.md") (lit "beta") (lit "h2");
            DeleteDocument 1] one_repository).
  - split; [repeat constructor; intros []|].
    split; [constructor|constructor].
  - repeat constructor; vm_compute; discriminate.
Defined.

Lemma NoDup_snoc {A} (l : list A) x : ~ In x l -> List.NoDup l -> List.NoDup (l ++ [x]).
Proof.
  intros Hx Hl. apply (Permutation_NoDup (Permutation_cons_append l x)).
  constructor; assumption.
Qed.

Lemma existsb_false_not_in {A B} (p : A -> bool) (g : A -> B) (x : B) l :
  (forall a, g a = x -> p a = true) -> existsb p l = false -> ~ In x (map g l).
Proof.
  intros Hp Hnone Hin. apply in_map_iff in Hin. destruct Hin as (a & Ha & Hin).
  assert (Hex : existsb p l = true) by (apply existsb_exists; exists a; auto).
  congruence.
Qed.

Lemma map_update_key {A B} (g : A -> B) (p : A -> bool) (f : A -> A) l :
  (forall a, g (f a) = g a) ->
  map g (map (fun a => if p a then f a else a) l) = map g l.
Proof.
  intros Hg. rewrite map_map. apply map_ext. intros a. destruct (p a); auto.
Qed.

(** X15. A successful [upsert_repository] keeps the constraints of the table
    (distinct ids, distinct (owner, name), distinct full names, allowed
    sources), leaves the documents and the index alone, and leaves every row
    with another (owner, name) as it was. *)
Theorem upsert_repository_keeps_constraints (data : repo_data) (db db' : database) :
  constraints_hold db ->
  upsert_repository data db = Ok db' ->
  constraints_hold db' /\
  documents db' = documents db /\
  documents_fts db' = documents_fts db /\
  (forall r, In r (repositories db) ->
             (Some (owner r), Some (name r)) <> (in_owner data, in_name data) ->
             In r (repositories db')).
Proof.
  intros (Hid & Hident & Hfn & Hsrc). unfold upsert_repository.
  destruct (in_owner data) as [o|]; [|discriminate].
  destruct (in_name data) as [n|]; [|discriminate].
  destruct (in_full_name data) as [fn|]; [|discriminate].
  cbv zeta. destruct (source_allowed _) eqn:Hallowed; [|discriminate]. cbn [negb].
  destruct (existsb (same_identity o n) (repositories db)) eqn:Hexists.
  - intros H. injection H as <-. cbn [repositories documents documents_fts].
    split; [|split; [reflexivity|split; [reflexivity|]]].
    + unfold constraints_hold. cbn [repositories].
      rewrite !map_update_key by reflexivity.
      split; [exact Hid|]. split; [exact Hident|]. split; [exact Hfn|].
      apply List.Forall_forall. intros r Hin. apply in_map_iff in Hin.
      destruct Hin as (r0 & <- & Hin0).
      pose proof (proj1 (List.Forall_forall _ _) Hsrc r0 Hin0) as Hr0.
      destruct (same_identity o n r0); exact Hr0.
    + intros r Hin Hother. apply in_map_iff. exists r. split; [|exact Hin].
      destruct (same_identity o n r) eqn:Hsame; [|reflexivity].
      apply same_identity_spec in Hsame. unfold identity in Hsame.
      injection Hsame as Ho' Hn'. rewrite Ho', Hn' in Hother. congruence.
  - destruct (existsb (fun r => eqb_str (full_name r) fn) (repositories db)) eqn:Hfull;
      [discriminate|].
    intros H. injection H as <-. cbn [repositories documents documents_fts].
    split; [|split; [reflexivity|split; [reflexivity|]]].
    + unfold constraints_hold. cbn [repositories]. rewrite !map_app. cbn [map].
      split; [|split; [|split]].
      * apply NoDup_snoc; [|exact Hid]. cbn [proposed_row id].
        intros Hin. apply next_rowid_fresh in Hin. lia.
      * apply NoDup_snoc; [|exact Hident].
        apply (existsb_false_not_in (same_identity o n)); [|exact Hexists].
        intros a Ha. apply same_identity_spec. exact Ha.
      * apply NoDup_snoc; [|exact Hfn].
        apply (existsb_false_not_in (fun r => eqb_str (full_name r) fn)); [|exact Hfull].
        intros a Ha. apply eqb_str_eq. exact Ha.
      * apply Forall_app. split; [exact Hsrc|].
        constructor; [exact Hallowed|constructor].
    + intros r Hin _. apply in_or_app. left. exact Hin.
Qed.

Lemma upsert_repository_keeps_constraints_witness :
  let db' := after (upsert_repository second_upsert two_repositories) in
  length (repositories two_repositories) = 2%nat /\
  upsert_repository second_upsert two_repositories = Ok db' /\
  In acme_tools (repositories two_repositories) /\
  In acme_tools (repositories db') /\
  constraints_hold db' /\
  documents db' = documents two_repositories /\
  documents_fts db' = documents_fts two_repositories.
Proof.
  cbv zeta.
  assert (Hrun : upsert_repository second_upsert two_repositories
                 = Ok (after (upsert_repository second_upsert two_repositories)))
    by (vm_compute; reflexivity).
  assert (Hin : In acme_tools (repositories two_repositories))
    by (right; left; vm_compute; reflexivity).
  assert (Hc : constraints_hold two_repositories).
  { unfold constraints_hold.
    split; [|split; [|split]].
    - repeat (constructor; [cbn; intuition discriminate|]). constructor.
    - repeat (constructor; [cbn; intuition discriminate|]). constructor.
    - repeat (constructor; [cbn; intuition discriminate|]). constructor.
    - repeat (constructor; [vm_compute; reflexivity|]). constructor. }
  destruct (upsert_repository_keeps_constraints second_upsert two_repositories _ Hc Hrun)
    as (Hc' & Hdocs & Hfts & Hother).
  split; [reflexivity|]. split; [exact Hrun|]. split; [exact Hin|].
  split; [apply (Hother acme_tools Hin); vm_compute; discriminate|].
  split; [exact Hc'|]. split; [exact Hdocs|exact Hfts].
Defined.

Lemma find_snoc {A} (p : A -> bool) l x :
  existsb p l = false -> p x = true -> List.find p (l ++ [x]) = Some x.
Proof.
  induction l as [|a l IH]; cbn [existsb app List.find]; intros Hnone Hx.
  - rewrite Hx. reflexivity.
  - apply orb_false_iff in Hnone. destruct Hnone as [-> Hnone]. apply IH; assumption.
Qed.

(** X16. What [upsert_repository] stores can be read back with
    [get_repository] under the full name that was passed: the row found has
    the owner and name of the call and the values of the call.  The row in
    conflict, if there is one, must already carry that full name (an update
    never changes the full name of a row). *)
Theorem upsert_then_get_repository (data : repo_data) (db db' : database) (o n fn : str) :
  List.NoDup (map full_name (repositories db)) ->
  in_owner data = Some o -> in_name data = Some n -> in_full_name data = Some fn ->
  (forall r, In r (repositories db) -> identity r = (o, n) -> full_name r = fn) ->
  upsert_repository data db = Ok db' ->
  exists r,
    get_repository fn db' = Some r /\
    owner r = o /\ name r = n /\ full_name r = fn /\
    stars r = default 0 (in_stars data) /\
    language r = in_language data /\
    quality_score r = default 0.5%Q (in_quality_score data) /\
    quality_grade r = default (lit "C") (in_quality_grade data) /\
    quality_metrics r = default [] (in_quality_metrics data) /\
    priority r = default (lit "medium") (in_priority data) /\
    doc_paths r = default [] (in_doc_paths data) /\
    topics r = default [] (in_topics data).
Proof.
  intros Hfn Ho Hn Hfull Hsame. unfold upsert_repository. rewrite Ho, Hn, Hfull.
  cbv zeta. destruct (negb _); [discriminate|].
  destruct (existsb (same_identity o n) (repositories db)) eqn:Hexists.
  - intros H. injection H as <-. unfold get_repository. cbn [repositories].
    set (excluded := proposed_row _ o n fn data).
    revert Hfn Hsame Hexists.
    induction (repositories db) as [|r0 repos IH]; intros Hfn Hsame Hexists;
      [discriminate|].
    cbn [map List.find]. destruct (same_identity o n r0) eqn:Hr0.
    + pose proof (Hsame r0 (or_introl eq_refl) (proj1 (same_identity_spec o n r0) Hr0))
        as Hfn0.
      apply same_identity_spec in Hr0. unfold identity in Hr0. injection Hr0 as Ho0 Hn0.
      cbn [do_update full_name]. rewrite Hfn0, eqb_str_refl.
      eexists. split; [reflexivity|]. cbn.
      repeat (split; [first [assumption|reflexivity]|]). reflexivity.
    + cbn [existsb] in Hexists. rewrite Hr0 in Hexists. cbn [orb] in Hexists.
      cbn [map] in Hfn. inversion Hfn as [|? ? Hnotin Hrest]; subst.
      destruct (eqb_str (full_name r0) fn) eqn:Hclash.
      * exfalso. apply eqb_str_eq in Hclash. apply Hnotin.
        apply existsb_exists in Hexists. destruct Hexists as (r' & Hin & Hr').
        apply same_identity_spec in Hr'.
        rewrite Hclash, <- (Hsame r' (or_intror Hin) Hr'). apply in_map, Hin.
      * apply IH; [exact Hrest| |exact Hexists].
        intros r Hin. apply Hsame. right. exact Hin.
  - destruct (existsb (fun r => eqb_str (full_name r) fn) (repositories db)) eqn:Hnone;
      [discriminate|].
    intros H. injection H as <-. unfold get_repository. cbn [repositories].
    rewrite find_snoc; [|exact Hnone|apply eqb_str_refl].
    eexists. split; [reflexivity|]. cbn.
    repeat (split; [reflexivity|]). reflexivity.
Qed.

Lemma upsert_then_get_repository_witness :
  exists r,
    get_repository (lit "octo/docs") one_repository = Some r /\
    owner r = lit "octo" /\ name r = lit "docs" /\ full_name r = lit "octo/docs" /\
    stars r = 10.
Proof.
  destruct (upsert_then_get_repository first_upsert empty_database one_repository
              (lit "octo") (lit "docs") (lit "octo/docs"))
    as (r & Hget & Ho & Hn & Hfn & Hstars & _);
    try reflexivity; [constructor|intros r []|].
  exists r. repeat (split; [assumption|]). exact Hstars.
Defined.

(** *** list_repositories *)

Lemma insert_by_perm {A} (leb : A -> A -> bool) x rows :
  Permutation (insert_by leb x rows) (x :: rows).
Proof.
  induction rows as [|y rows IH]; cbn [insert_by]; [reflexivity|].
  destruct (leb x y); [reflexivity|].
  rewrite IH. apply perm_swap.
Qed.

Lemma sort_by_perm {A} (leb : A -> A -> bool) rows : Permutation (sort_by leb rows) rows.
Proof.
  induction rows as [|x rows IH]; cbn [sort_by fold_right]; [reflexivity|].
  rewrite insert_by_perm. apply perm_skip, IH.
Qed.

Lemma Forall_insert_by {A} (leb : A -> A -> bool) (P : A -> Prop) x rows :
  P x -> Forall P rows -> Forall P (insert_by leb x rows).
Proof.
  intros Hx Hrows. induction Hrows as [|y rows Hy Hrows IH]; cbn [insert_by].
  - constructor; [exact Hx|constructor].
  - destruct (leb x y); repeat constructor; assumption.
Qed.

Lemma sort_by_sorted {A} (leb : A -> A -> bool) (R : A -> A -> Prop) :
  (forall a b, leb a b = true -> R a b) ->
  (forall a b, leb a b = false -> R b a) ->
  (forall a b c, R a b -> R b c -> R a c) ->
  forall rows, StronglySorted R (sort_by leb rows).
Proof.
  intros Htrue Hfalse Htrans rows.
  induction rows as [|x rows IH]; cbn [sort_by fold_right]; [constructor|].
  fold (sort_by leb rows). induction IH as [|y sorted Hsorted IH Hy]; cbn [insert_by].
  - constructor; constructor.
  - destruct (leb x y) eqn:Hxy.
    + constructor; [constructor; assumption|].
      constructor; [apply Htrue, Hxy|].
      eapply List.Forall_impl; [|exact Hy].
      intros z Hz. eapply Htrans; [apply Htrue, Hxy|exact Hz].
    + constructor; [exact IH|].
      apply Forall_insert_by; [apply Hfalse, Hxy|exact Hy].
Qed.

Lemma repository_leb_true a b : repository_leb a b = true -> listed_before a b.
Proof.
  unfold repository_leb, listed_before.
  destruct (Qcompare_spec (quality_score b) (quality_score a)) as [Hq|Hq|Hq].
  - rewrite Z.leb_le. intros Hs. right. split; [symmetry; exact Hq|exact Hs].
  - intros _. left. exact Hq.
  - discriminate.
Qed.

Lemma repository_leb_false a b : repository_leb a b = false -> listed_before b a.
Proof.
  unfold repository_leb, listed_before.
  destruct (Qcompare_spec (quality_score b) (quality_score a)) as [Hq|Hq|Hq].
  - rewrite Z.leb_gt. intros Hs. right. split; [exact Hq|lia].
  - discriminate.
  - intros _. left. exact Hq.
Qed.

Lemma listed_before_trans a b c :
  listed_before a b -> listed_before b c -> listed_before a c.
Proof.
  unfold listed_before.
  intros [H1|[H1 H1']] [H2|[H2 H2']]; try (left; lra).
  right. split; [lra|lia].
Qed.

(** X17. [list_repositories] returns every row of the table that meets the
    filters, each as often as the table holds it, in the order of quality
    score descending, then stars descending; without filters it returns
    the whole table. *)
Theorem list_repositories_sorted_selection (f : filters) (db : database) :
  Permutation (list_repositories f db)
              (List.filter (repository_passes f) (repositories db)) /\
  StronglySorted listed_before (list_repositories f db) /\
  Permutation (list_repositories no_filters db) (repositories db).
Proof.
  unfold list_repositories. split; [apply sort_by_perm|]. split.
  - apply sort_by_sorted.
    + apply repository_leb_true.
    + apply repository_leb_false.
    + apply listed_before_trans.
  - rewrite sort_by_perm.
    assert (Hall : List.filter (repository_passes no_filters) (repositories db)
                   = repositories db).
    { induction (repositories db) as [|r repos IH]; [reflexivity|].
      cbn [List.filter]. change (repository_passes no_filters r) with true.
      rewrite IH. reflexivity. }
    rewrite Hall. reflexivity.
Qed.

(** *** get_statistics *)

(** X18. In a table that meets its constraints, the two counts by source add up
    to the total number of repositories. *)
Theorem get_statistics_by_source (db : database) :
  constraints_hold db ->
  total_repositories (get_statistics db)
  = by_source_curated (get_statistics db) + by_source_discovered (get_statistics db).
Proof.
  intros (_ & _ & _ & Hsrc). unfold get_statistics.
  cbn [total_repositories by_source_curated by_source_discovered].
  induction Hsrc as [|r repos Hr Hsrc IH]; [reflexivity|].
  cbn [List.filter]. unfold source_allowed in Hr.
  destruct (eqb_str (source r) (lit "curated")) eqn:Hc.
  - apply eqb_str_eq in Hc. rewrite Hc.
    change (eqb_str (lit "curated") (lit "discovered")) with false.
    unfold len in *. cbn [length]. lia.
  - cbn [orb] in Hr. rewrite Hr. unfold len in *. cbn [length]. lia.
Qed.

Lemma get_statistics_by_source_witness :
  total_repositories (get_statistics two_repositories)
  = by_source_curated (get_statistics two_repositories)
    + by_source_discovered (get_statistics two_repositories).
Proof.
  apply (get_statistics_by_source two_repositories).
  split; [repeat constructor; cbn; intuition discriminate|].
  split; [repeat constructor; cbn; intuition discriminate|].
  split; [repeat constructor; cbn; intuition discriminate|].
  repeat constructor.
Defined.

(** *** rebuild_fts_index *)

Lemma insert_entries_contents rows : forall fts,
  map (fun e => (repo_full_name e, fts_path e, fts_content e)) (insert_entries rows fts)
  = map (fun e => (repo_full_name e, fts_path e, fts_content e)) fts
    ++ map (fun dr => (Some (full_name (snd dr)), path (fst dr), content (fst dr))) rows.
Proof.
  induction rows as [|[d r] rows IH]; intros fts; cbn [insert_entries map].
  - symmetry. apply app_nil_r.
  - rewrite IH, map_app, <- app_assoc. reflexivity.
Qed.

Lemma max_seq k : forall a,
  fold_right Z.max 0 (map Z.of_nat (seq a k)) = match k with O => 0 | S _ => Z.of_nat (a + k) - 1 end.
Proof.
  induction k as [|k IH]; intros a; [reflexivity|].
  cbn [seq map fold_right]. rewrite IH. destruct k; lia.
Qed.

Lemma insert_entries_rowids rows : forall fts k,
  map rowid fts = map Z.of_nat (seq 1 k) ->
  map rowid (insert_entries rows fts) = map Z.of_nat (seq 1 (k + length rows)).
Proof.
  induction rows as [|[d r] rows IH]; intros fts k Hfts; cbn [insert_entries length].
  - rewrite Nat.add_0_r. exact Hfts.
  - replace (k + S (length rows))%nat with (S k + length rows)%nat by lia.
    apply IH. rewrite map_app, Hfts. cbn [map rowid].
    rewrite seq_S, map_app. cbn [map]. do 2 f_equal.
    unfold next_rowid. rewrite max_seq. destruct k; lia.
Qed.

Lemma repositories_with_id_known rid db :
  existsb (fun r => id r =? rid) (repositories db)
  = match repositories_with_id rid db with [] => false | _ :: _ => true end.
Proof. apply existsb_filter. Qed.

Lemma join_of_known_documents db :
  List.NoDup (map id (repositories db)) ->
  map (fun dr => (Some (full_name (snd dr)), path (fst dr), content (fst dr)))
      (documents_join_repositories db)
  = map (fun d => (option_map full_name (head (repositories_with_id (repo_id d) db)),
                   path d, content d))
        (documents_of_known_repositories db).
Proof.
  intros Hid. unfold documents_join_repositories, documents_of_known_repositories.
  induction (documents db) as [|d docs IH]; [reflexivity|].
  cbn [flat_map List.filter]. rewrite map_app, IH, repositories_with_id_known.
  destruct (repositories_with_id (repo_id d) db) as [|r rest] eqn:Hr; [reflexivity|].
  rewrite (repositories_with_id_unique _ _ _ _ Hid Hr).
  cbn [map app]. rewrite Hr. reflexivity.
Qed.

(** X19. After [rebuild_fts_index] the index holds, in the order of the
    documents, one row (full name, path, content) for every document whose
    repository is in the table, and no row for any other document; the rows
    are numbered 1, 2, ... whatever the ids of the documents are; the count
    returned is the number of rows; the documents and repositories are left
    alone, and what the index held before plays no part. *)
Theorem rebuild_fts_index_contents (db : database) :
  List.NoDup (map id (repositories db)) ->
  let db' := fst (rebuild_fts_index db) in
  let known := documents_of_known_repositories db in
  index_contents db'
  = map (fun d => (option_map full_name (head (repositories_with_id (repo_id d) db)),
                   path d, content d)) known /\
  map rowid (documents_fts db') = map Z.of_nat (seq 1 (length known)) /\
  snd (rebuild_fts_index db) = len known /\
  documents db' = documents db /\ repositories db' = repositories db /\
  (forall index,
     rebuild_fts_index {| repositories := repositories db; documents := documents db;
                          documents_fts := index |}
     = rebuild_fts_index db).
Proof.
  intros Hid. cbv zeta. unfold rebuild_fts_index. cbn [fst snd documents_fts].
  pose proof (join_of_known_documents db Hid) as Hjoin.
  assert (Hlen : length (documents_join_repositories db)
                 = length (documents_of_known_repositories db)).
  { apply (f_equal (@length _)) in Hjoin. rewrite !length_map in Hjoin. exact Hjoin. }
  split; [|split; [|split; [|split; [reflexivity|split; [reflexivity|reflexivity]]]]].
  - unfold index_contents. cbn [documents_fts].
    rewrite insert_entries_contents. exact Hjoin.
  - rewrite (insert_entries_rowids _ [] 0 eq_refl), Hlen. reflexivity.
  - unfold len. rewrite Hlen. reflexivity.
Qed.

Lemma rebuild_fts_index_contents_witness :
  map rowid (documents_fts (fst (rebuild_fts_index (delete_document 1 sample_database))))
  = [1].
Proof.
  apply (rebuild_fts_index_contents (delete_document 1 sample_database)).
  repeat constructor. intros [].
Defined.

(** *** search_documents and its filters *)

Lemma Forall_order_by (P : search_row -> Prop) rows :
  Forall P rows -> Forall P (order_by rows).
Proof.
  induction 1 as [|x rows Hx Hrows IH]; cbn [order_by fold_right]; [constructor|].
  apply Forall_insert_row; assumption.
Qed.

Lemma Forall_flat_map {A B} (P : B -> Prop) (f : A -> list B) l :
  (forall a, In a l -> Forall P (f a)) -> Forall P (flat_map f l).
Proof.
  intros H. apply List.Forall_forall. intros b Hb. apply in_flat_map in Hb.
  destruct Hb as (a & Ha & Hb).
  exact (proj1 (List.Forall_forall _ _) (H a Ha) b Hb).
Qed.

(** X20. Every row returned by [search_documents] meets the filters that are
    set (a minimum of 0 stars, an empty category and an empty source count
    as not set) and carries the full name and the star count of a
    repository of the table. *)
Theorem search_documents_meets_filters
    (fts5_match : str -> list fts_entry -> option (list (fts_entry * Q * str)))
    (query : str) (f : filters) (db : database) (rows : list search_row) :
  search_documents fts5_match query f db = Ok rows ->
  Forall (fun row =>
            (forall m, min_stars f = Some m -> m <> 0 -> m <= r_stars row) /\
            (forall c, filter_category f = Some c -> c <> [] -> r_category row = Some c) /\
            (forall s, filter_source f = Some s -> s <> [] -> r_source row = s) /\
            exists r, In r (repositories db) /\
                      r_full_name row = full_name r /\ r_stars row = stars r) rows.
Proof.
  unfold search_documents. destruct (fts5_match query (documents_fts db)) as [hits|];
    [|discriminate].
  intros H. injection H as <-.
  apply Forall_firstn, Forall_order_by.
  apply List.Forall_forall. intros row Hrow. apply filter_In in Hrow.
  destruct Hrow as [Hin Hpass].
  unfold passes in Hpass. apply andb_true_iff in Hpass. destruct Hpass as [Hpass Hsource].
  apply andb_true_iff in Hpass. destruct Hpass as [Hstars Hcategory].
  split; [|split; [|split]].
  - intros m Hm Hnz. rewrite Hm in Hstars.
    destruct (Z.eqb_spec m 0); [contradiction|]. apply Z.leb_le, Hstars.
  - intros c Hc Hne. rewrite Hc in Hcategory.
    destruct (eqb_str c []) eqn:Hempty; [apply eqb_str_eq in Hempty; contradiction|].
    destruct (r_category row) as [c'|]; [|discriminate].
    apply eqb_str_eq in Hcategory. congruence.
  - intros s0 Hs Hne. rewrite Hs in Hsource.
    destruct (eqb_str s0 []) eqn:Hempty; [apply eqb_str_eq in Hempty; contradiction|].
    apply eqb_str_eq, Hsource.
  - clear Hstars Hcategory Hsource. unfold joined_rows in Hin.
    apply in_flat_map in Hin. destruct Hin as ([[e rank] snippet] & _ & Hin).
    apply in_flat_map in Hin. destruct Hin as (d & _ & Hin).
    destruct (eqb_str (fts_path e) (path d)); [|destruct Hin].
    apply in_flat_map in Hin. destruct Hin as (r & Hr & Hin).
    destruct (repo_full_name e) as [fn|]; [|destruct Hin].
    destruct (eqb_str fn (full_name r)); [|destruct Hin].
    destruct Hin as [<-|[]]. exists r. split; [exact Hr|]. split; reflexivity.
Qed.

Lemma search_documents_meets_filters_witness :
  Forall (fun row => 5 <= r_stars row)
    (match search_documents match_all (lit "alpha")
             {| min_stars := Some 5; filter_category := Some [];
                filter_source := Some (lit "curated") |} sample_database with
     | Ok rows => rows
     | Raise _ => []
     end).
Proof.
  eapply List.Forall_impl;
    [|apply (search_documents_meets_filters match_all (lit "alpha")
               {| min_stars := Some 5; filter_category := Some [];
                  filter_source := Some (lit "curated") |} sample_database);
      reflexivity].
  intros row (Hstars & _). apply (Hstars 5); [reflexivity|lia].
Defined.

Lemma flat_map_one_repository (fn : str) (mk : repository -> search_row) repos r :
  List.NoDup (map full_name repos) -> In r repos -> full_name r = fn ->
  flat_map (fun r0 => if eqb_str fn (full_name r0) then [mk r0] else []) repos = [mk r].
Proof.
  intros Hnd Hin Hfn. induction repos as [|r0 repos IH]; [destruct Hin|].
  cbn [map] in Hnd. inversion Hnd as [|? ? Hnotin Hrest]; subst.
  cbn [flat_map]. destruct Hin as [->|Hin].
  - rewrite eqb_str_refl. cbn [app]. f_equal.
    clear IH Hnd Hrest. induction repos as [|r1 repos IH]; [reflexivity|].
    cbn [flat_map]. destruct (eqb_str (full_name r) (full_name r1)) eqn:Heq.
    + exfalso. apply eqb_str_eq in Heq. apply Hnotin. left. symmetry. exact Heq.
    + cbn [app]. apply IH. intros H. apply Hnotin. right. exact H.
  - destruct (eqb_str (full_name r) (full_name r0)) eqn:Heq.
    + exfalso. apply eqb_str_eq in Heq. apply Hnotin. rewrite <- Heq. apply in_map, Hin.
    + cbn [app]. apply IH; assumption.
Qed.

(** X21. The join of [search_documents] matches an index row with the
    documents on the path alone: a matching index row of a repository gives
    as many result rows as there are documents with its path in the whole
    table, whichever repository they belong to, all of them equal. *)
Theorem joined_rows_multiplicity
    (e : fts_entry) (rank : Q) (snippet : str) (db : database) (r : repository) :
  List.NoDup (map full_name (repositories db)) ->
  In r (repositories db) ->
  repo_full_name e = Some (full_name r) ->
  joined_rows [(e, rank, snippet)] db
  = repeat (search_row_of e rank snippet r)
      (length (List.filter (fun d => eqb_str (fts_path e) (path d)) (documents db))).
Proof.
  intros Hnd Hin He. unfold joined_rows. cbn [flat_map]. rewrite app_nil_r, He.
  induction (documents db) as [|d docs IH]; [reflexivity|].
  cbn [flat_map List.filter]. rewrite IH.
  destruct (eqb_str (fts_path e) (path d)); [|reflexivity].
  cbn [length repeat].
  match goal with
  | |- ?inner ++ _ = _ => assert (Hinner : inner = [search_row_of e rank snippet r])
  end.
  { exact (flat_map_one_repository (full_name r)
             (fun r0 => search_row_of e rank snippet r0) _ r Hnd Hin eq_refl). }
  rewrite Hinner. reflexivity.
Qed.

Lemma joined_rows_multiplicity_witness :
  let e := {| rowid := 1; repo_full_name := Some (lit "octo/docs");
              fts_path := lit "README.md"; fts_content := lit "docs" |} in
  joined_rows [(e, (-1)%Q, lit "docs")] two_repositories
  = [search_row_of e (-1)%Q (lit "docs") octo_docs;
     search_row_of e (-1)%Q (lit "docs") octo_docs].
Proof.
  apply (joined_rows_multiplicity
           {| rowid := 1; repo_full_name := Some (lit "octo/docs");
              fts_path := lit "README.md"; fts_content := lit "docs" |}
           (-1)%Q (lit "docs") two_repositories octo_docs).
  - repeat constructor; cbn; intuition discriminate.
  - left. reflexivity.
  - reflexivity.
Defined.

(** *** add_document and get_repository_documents *)

Lemma Permutation_filter_bool {A} (p : A -> bool) l l' :
  Permutation l l' -> Permutation (List.filter p l) (List.filter p l').
Proof.
  induction 1 as [|x l l' _ IH|x y l|l l' l'' _ IH1 _ IH2]; cbn [List.filter].
  - constructor.
  - destruct (p x); [apply perm_skip|]; exact IH.
  - destruct (p x), (p y); try reflexivity. apply perm_swap.
  - etransitivity; eassumption.
Qed.

Lemma filter_none {A} (p : A -> bool) l :
  (forall a, In a l -> p a = false) -> List.filter p l = [].
Proof.
  induction l as [|a l IH]; intros H; [reflexivity|].
  cbn [List.filter]. rewrite (H a (or_introl eq_refl)). apply IH.
  intros b Hb. apply H. right. exact Hb.
Qed.

Lemma NoDup_map_inj_in {A B} (g : A -> B) l a b :
  List.NoDup (map g l) -> In a l -> In b l -> g a = g b -> a = b.
Proof.
  induction l as [|x l IH]; intros Hnd Ha Hb Hg; [destruct Ha|].
  cbn [map] in Hnd. inversion Hnd as [|? ? Hnotin Hrest]; subst.
  destruct Ha as [->|Ha], Hb as [->|Hb].
  - reflexivity.
  - exfalso. apply Hnotin. rewrite Hg. apply in_map, Hb.
  - exfalso. apply Hnotin. rewrite <- Hg. apply in_map, Ha.
  - apply IH; assumption.
Qed.

Lemma repositories_with_id_of r db :
  List.NoDup (map id (repositories db)) -> In r (repositories db) ->
  repositories_with_id (id r) db = [r].
Proof.
  intros Hnd Hin.
  assert (Hr : In r (repositories_with_id (id r) db)).
  { apply filter_In. split; [exact Hin|apply Z.eqb_refl]. }
  destruct (repositories_with_id (id r) db) as [|r' rest] eqn:Hf; [destruct Hr|].
  rewrite (repositories_with_id_unique _ _ _ _ Hnd Hf) in *.
  destruct Hr as [->|[]]. reflexivity.
Qed.

Lemma rows_of_document db r p d :
  List.NoDup (map id (repositories db)) ->
  List.NoDup (map full_name (repositories db)) ->
  In r (repositories db) ->
  List.filter (fun row => eqb_str (dr_path row) p)
    (map document_row_of
       (List.filter (fun dr => eqb_str (full_name (snd dr)) (full_name r))
          (map (fun r0 => (d, r0)) (repositories_with_id (repo_id d) db))))
  = if same_document (id r) p d then [document_row_of (d, r)] else [].
Proof.
  intros Hid Hfn Hin. unfold same_document.
  destruct (Z.eqb_spec (repo_id d) (id r)) as [Heq|Hne].
  - rewrite Heq, (repositories_with_id_of r db Hid Hin).
    cbn [map List.filter snd]. rewrite eqb_str_refl.
    cbn [map List.filter document_row_of dr_path fst andb].
    destruct (eqb_str (path d) p); reflexivity.
  - cbn [andb].
    destruct (repositories_with_id (repo_id d) db) as [|r' rest] eqn:Hr; [reflexivity|].
    assert (Hr' : In r' (repositories_with_id (repo_id d) db))
      by (rewrite Hr; left; reflexivity).
    apply filter_In in Hr'. destruct Hr' as [Hin' Hid'].
    rewrite (repositories_with_id_unique _ _ _ _ Hid Hr).
    cbn [map List.filter snd].
    destruct (eqb_str (full_name r') (full_name r)) eqn:Hsame; [|reflexivity].
    exfalso. apply eqb_str_eq in Hsame.
    pose proof (NoDup_map_inj_in full_name _ r' r Hfn Hin' Hin Hsame) as Heq.
    apply Z.eqb_eq in Hid'. subst r'. congruence.
Qed.

Lemma rows_of_documents db r p docs :
  List.NoDup (map id (repositories db)) ->
  List.NoDup (map full_name (repositories db)) ->
  In r (repositories db) ->
  List.filter (fun row => eqb_str (dr_path row) p)
    (map document_row_of
       (List.filter (fun dr => eqb_str (full_name (snd dr)) (full_name r))
          (flat_map (fun d => map (fun r0 => (d, r0)) (repositories_with_id (repo_id d) db))
                    docs)))
  = map (fun d => document_row_of (d, r)) (List.filter (same_document (id r) p) docs).
Proof.
  intros Hid Hfn Hin. induction docs as [|d docs IH]; [reflexivity|].
  cbn [flat_map]. rewrite List.filter_app, map_app, List.filter_app.
  rewrite (rows_of_document db r p d Hid Hfn Hin), IH.
  cbn [List.filter]. destruct (same_document (id r) p d); reflexivity.
Qed.

Lemma add_document_one_document now rid p c h db :
  document_constraints_hold db ->
  exists did,
    List.filter (same_document rid p) (documents (add_document now rid p c h db))
    = [{| doc_id := did; repo_id := rid; path := p; content := c;
          content_hash := h; indexed_at := now |}].
Proof.
  intros [Hids Hkeys]. unfold add_document.
  assert (Hnew : forall did,
             same_document rid p
               {| doc_id := did; repo_id := rid; path := p; content := c;
                  content_hash := h; indexed_at := now |} = true).
  { intros did. unfold same_document. cbn [repo_id path].
    rewrite Z.eqb_refl, eqb_str_refl. reflexivity. }
  destruct (List.find (same_document rid p) (documents db)) as [old|] eqn:Hfind.
  - exists (doc_id old). cbn [documents].
    apply find_some in Hfind. destruct Hfind as [Hold Hkey].
    assert (Hunique : forall d, In d (documents db) -> d <> old ->
               doc_id d <> doc_id old /\ same_document rid p d = false).
    { intros d Hd Hne. split.
      - intros Heq. apply Hne.
        exact (NoDup_map_inj_in doc_id _ d old Hids Hd Hold Heq).
      - destruct (same_document rid p d) eqn:Hsame; [|reflexivity].
        exfalso. apply Hne.
        apply (NoDup_map_inj_in (fun d => (repo_id d, path d)) _ d old Hkeys Hd Hold).
        unfold same_document in Hsame, Hkey.
        apply andb_true_iff in Hsame, Hkey.
        destruct Hsame as [H1 H2], Hkey as [H3 H4].
        apply Z.eqb_eq in H1, H3. apply eqb_str_eq in H2, H4. congruence. }
    assert (Hnd : List.NoDup (documents db)) by (eapply NoDup_map_inv; exact Hids).
    destruct (in_split _ _ Hold) as (l1 & l2 & Hsplit).
    rewrite Hsplit in Hnd, Hunique |- *.
    apply NoDup_remove_2 in Hnd.
    assert (Hleft : forall l, (forall d, In d l -> In d (l1 ++ old :: l2) /\ d <> old) ->
              List.filter (same_document rid p)
                (map (fun d => if doc_id d =? doc_id old
                               then {| doc_id := doc_id old; repo_id := rid; path := p;
                                       content := c; content_hash := h; indexed_at := now |}
                               else d) l) = []).
    { intros l Hl. apply filter_none. intros d' Hd'. apply in_map_iff in Hd'.
      destruct Hd' as (d & <- & Hd). destruct (Hl d Hd) as [Hin Hne].
      destruct (Hunique d Hin Hne) as [Hdid Hsame].
      destruct (Z.eqb_spec (doc_id d) (doc_id old)); [contradiction|exact Hsame]. }
    rewrite map_app, List.filter_app. cbn [map List.filter].
    rewrite Z.eqb_refl, Hnew.
    rewrite !Hleft; [reflexivity| |].
    + intros d Hd. split; [apply in_or_app; right; right; exact Hd|].
      intros ->. apply Hnd. apply in_or_app. right. exact Hd.
    + intros d Hd. split; [apply in_or_app; left; exact Hd|].
      intros ->. apply Hnd. apply in_or_app. left. exact Hd.
  - eexists. cbn [documents]. rewrite List.filter_app.
    rewrite (filter_none _ _ (find_none _ _ Hfind)).
    cbn [List.filter app]. rewrite Hnew. reflexivity.
Qed.

(** X22. What [add_document] stores can be read back: in a database that
    meets the constraints of its tables, after [add_document] for a
    repository of the table, [get_repository_documents] for the full name
    of that repository returns exactly one row with the path, holding the
    content and time stamp of the call, whether the document was new or
    replaced an older one. *)
Theorem add_document_then_get_documents
    (now rid : Z) (p c h : str) (db : database) (r : repository) :
  constraints_hold db -> document_constraints_hold db ->
  In r (repositories db) -> id r = rid ->
  List.filter (fun row => eqb_str (dr_path row) p)
    (get_repository_documents (full_name r) (add_document now rid p c h db))
  = [{| dr_path := p; dr_content := c; dr_indexed_at := now;
        dr_full_name := full_name r; dr_category := category r;
        dr_stars := stars r |}].
Proof.
  intros (Hid & _ & Hfn & _) Hdocs Hin <-.
  destruct (add_document_one_document now (id r) p c h db Hdocs) as [did Hone].
  assert (Hrepos : repositories (add_document now (id r) p c h db) = repositories db).
  { unfold add_document. destruct (List.find _ _); reflexivity. }
  unfold get_repository_documents.
  match goal with
  | |- List.filter ?q (sort_by ?leb ?rows) = _ =>
      pose proof (Permutation_filter_bool q _ _ (sort_by_perm leb rows)) as Hperm;
      assert (Hrows : List.filter q rows
                      = [{| dr_path := p; dr_content := c; dr_indexed_at := now;
                            dr_full_name := full_name r; dr_category := category r;
                            dr_stars := stars r |}])
  end.
  { unfold documents_join_repositories, repositories_with_id. rewrite Hrepos.
    fold (repositories_with_id).
    rewrite (rows_of_documents db r p _ Hid Hfn Hin), Hone. reflexivity. }
  rewrite Hrows in Hperm. apply Permutation_sym, Permutation_length_1_inv in Hperm.
  exact Hperm.
Qed.

Lemma add_document_then_get_documents_witness :
  List.filter (fun row => eqb_str (dr_path row) (lit "README.md"))
    (get_repository_documents (lit "octo/docs")
       (add_document 9 1 (lit "README.md") (lit "new text") (lit "h9") two_repositories))
  = [{| dr_path := lit "README.md"; dr_content := lit "new text"; dr_indexed_at := 9;
        dr_full_name := lit "octo/docs"; dr_category := Some (lit "AI/ML");
        dr_stars := 10 |}].
Proof.
  apply (add_document_then_get_documents 9 1 (lit "README.md") (lit "new text") (lit "h9")
           two_repositories octo_docs).
  - split; [repeat constructor; cbn; intuition discriminate|].
    split; [repeat constructor; cbn; intuition discriminate|].
    split; [repeat constructor; cbn; intuition discriminate|].
    repeat constructor.
  - split; repeat constructor; cbn; intuition discriminate.
  - left. reflexivity.
  - reflexivity.
Defined.

End Database.

(** ** search_analytics.py

    The source computes the running averages in binary64 ([binary64]).  The
    operations are gathered in a record, so that what does not depend on
    them (the counters) is stated for any arithmetic. *)

Module SearchAnalytics.
Import Py.

Record arith := {
  num : Type;
  of_int : Z -> num;
  add : num -> num -> num;
  mul : num -> num -> num;
  div : num -> num -> num
}.

Definition binary64 : arith :=
  {| num := PrimFloat.float; of_int := PyFloat.of_int;
     add := PrimFloat.add; mul := PrimFloat.mul; div := PrimFloat.div |}.

(** [s.split()]: the maximal runs of characters that are not whitespace;
    [word] is the run being read. *)
Fixpoint split_from (s word : str) : list str :=
  match s with
  | [] => match word with [] => [] | _ => [word] end
  | c :: s' =>
      if is_space c
      then match word with
           | [] => split_from s' []
           | _ => word :: split_from s' []
           end
      else split_from s' (word ++ [c])
  end.

Definition split (s : str) : list str := split_from s [].

(** The table [category_keywords] of [_track_categories], in its order. *)
Definition category_keywords : list (str * list str) :=
  [ (lit "AI/ML", [lit "ai"; lit "ml"; lit "machine learning"; lit "deep learning";
                   lit "neural"; lit "tensorflow"; lit "pytorch"]);
    (lit "Web Development", [lit "react"; lit "vue"; lit "angular"; lit "frontend";
                             lit "backend"; lit "web"; lit "javascript"; lit "css"]);
    (lit "Mobile Development", [lit "ios"; lit "android"; lit "mobile";
                                lit "react native"; lit "flutter"; lit "swift"]);
    (lit "Databases", [lit "sql"; lit "database"; lit "mongodb"; lit "postgresql";
                       lit "redis"; lit "mysql"]);
    (lit "Cloud/DevOps", [lit "docker"; lit "kubernetes"; lit "aws"; lit "azure";
                          lit "cloud"; lit "devops"; lit "ci/cd"]);
    (lit "Security", [lit "security"; lit "auth"; lit "encryption"; lit "owasp";
                      lit "vulnerability"]);
    (lit "Testing", [lit "test"; lit "testing"; lit "jest"; lit "pytest";
                     lit "unit test"; lit "e2e"]);
    (lit "API Development", [lit "api"; lit "rest"; lit "graphql"; lit "grpc";
                             lit "endpoint"]) ].

Definition stop_words : list str :=
  [lit "how"; lit "to"; lit "what"; lit "where"; lit "when"; lit "why"; lit "is";
   lit "are"; lit "the"; lit "a"; lit "an"].

Section Analytics.

Variable A : arith.
Variable lower : str -> str.

(** A row of [search_queries]. *)
Record search_query := {
  sq_query : str;
  sq_results_count : Z;
  sq_clicked_results : list str;
  sq_search_time : num A;
  sq_timestamp : Z
}.

(** A row of [popular_searches], without its key [query]. *)
Record popular_search := {
  search_count : Z;
  last_searched : Z;
  avg_results_count : num A;
  avg_search_time : num A
}.

(** A row of [search_categories], without its key [category]. *)
Record search_category := {
  category_count : Z;
  last_updated : Z
}.

Record missing_doc := {
  topic : str;
  md_query : str;
  request_count : Z;
  first_requested : Z;
  last_requested : Z
}.

Record analytics := {
  search_queries : list search_query;
  popular_searches : gmap (list N) popular_search;
  search_categories : gmap (list N) search_category;
  missing_docs : list missing_doc
}.

Definition empty_analytics : analytics :=
  {| search_queries := []; popular_searches := ∅; search_categories := ∅;
     missing_docs := [] |}.

(** The update of [popular_searches] in [log_search]. *)
Definition update_popular (now : Z) (query : str) (results_count : Z)
    (search_time : num A) (popular : gmap (list N) popular_search)
    : gmap (list N) popular_search :=
  match popular !! query with
  | Some row =>
      let count := search_count row in
      let new_count := count + 1 in
      let new_avg_results :=
        div A (add A (mul A (avg_results_count row) (of_int A count))
                     (of_int A results_count))
              (of_int A new_count) in
      let new_avg_time :=
        div A (add A (mul A (avg_search_time row) (of_int A count)) search_time)
              (of_int A new_count) in
      <[query := {| search_count := new_count; last_searched := now;
                    avg_results_count := new_avg_results;
                    avg_search_time := new_avg_time |}]> popular
  | None =>
      <[query := {| search_count := 1; last_searched := now;
                    avg_results_count := of_int A results_count;
                    avg_search_time := search_time |}]> popular
  end.

(** [_track_categories(query)] *)
Definition detected_categories (query : str) : list str :=
  map fst
    (List.filter
       (fun entry => existsb (fun keyword => contains keyword (lower query)) (snd entry))
       category_keywords).

Definition count_category (now : Z) (categories : gmap (list N) search_category)
    (c : str) : gmap (list N) search_category :=
  match categories !! c with
  | Some row =>
      <[c := {| category_count := category_count row + 1; last_updated := now |}]>
        categories
  | None => <[c := {| category_count := 1; last_updated := now |}]> categories
  end.

Definition _track_categories (now : Z) (query : str)
    (categories : gmap (list N) search_category) : gmap (list N) search_category :=
  fold_left (count_category now) (detected_categories query) categories.

(** [_extract_topic(query)] *)
Definition _extract_topic (query : str) : str :=
  match List.find
          (fun word => negb (existsb (eqb_str word) stop_words) && (len word >? 2))
          (split (lower query)) with
  | Some word => word
  | None => match split query with
            | first :: _ => first
            | [] => lit "unknown"
            end
  end.

(** [_track_missing_docs(query)] *)
Definition _track_missing_docs (now : Z) (query : str)
    (missing : list missing_doc) : list missing_doc :=
  let t := _extract_topic query in
  let same row := eqb_str (topic row) t && eqb_str (md_query row) query in
  if existsb same missing
  then map (fun row =>
              if same row
              then {| topic := topic row; md_query := md_query row;
                      request_count := request_count row + 1;
                      first_requested := first_requested row;
                      last_requested := now |}
              else row) missing
  else missing ++ [{| topic := t; md_query := query; request_count := 1;
                      first_requested := now; last_requested := now |}].

(** [log_search(query, results_count, search_time, clicked_results)], at
    time [now]; [clicked_results] is [[]] when absent. *)
Definition log_search (now : Z) (query : str) (results_count : Z)
    (search_time : num A) (clicked_results : list str) (st : analytics) : analytics :=
  {| search_queries :=
       search_queries st ++
       [{| sq_query := query; sq_results_count := results_count;
           sq_clicked_results := clicked_results; sq_search_time := search_time;
           sq_timestamp := now |}];
     popular_searches :=
       update_popular now query results_count search_time (popular_searches st);
     search_categories := _track_categories now query (search_categories st);
     missing_docs :=
       if results_count =? 0 then _track_missing_docs now query (missing_docs st)
       else missing_docs st |}.

(** The arguments of one call of [log_search], and a sequence of calls. *)
Record call := {
  c_now : Z;
  c_query : str;
  c_results_count : Z;
  c_search_time : num A;
  c_clicked_results : list str
}.

Definition log_searches (calls : list call) (st : analytics) : analytics :=
  fold_left
    (fun st c => log_search (c_now c) (c_query c) (c_results_count c)
                   (c_search_time c) (c_clicked_results c) st)
    calls st.

(** The averages recomputed from the log: the rows of [search_queries]
    with exactly this query text, the sum of their result counts (an
    integer) or of their search times, divided by their number. *)
Definition logged (query : str) (st : analytics) : list search_query :=
  List.filter (fun row => eqb_str (sq_query row) query) (search_queries st).

Definition replayed_avg_results (query : str) (st : analytics) : num A :=
  div A (of_int A (fold_left Z.add (map sq_results_count (logged query st)) 0))
        (of_int A (len (logged query st))).

Definition replayed_avg_time (query : str) (st : analytics) : num A :=
  div A (fold_left (add A) (map sq_search_time (logged query st)) (of_int A 0))
        (of_int A (len (logged query st))).

(** The incremental formula of [log_search] applied to one more row of the
    log: the count and the two running averages so far ([None] before the
    first row) and those after the row. *)
Definition replay_row (running : option (Z * num A * num A)) (row : search_query)
    : option (Z * num A * num A) :=
  match running with
  | Some (count, avg_results, avg_time) =>
      let new_count := count + 1 in
      Some (new_count,
            div A (add A (mul A avg_results (of_int A count))
                         (of_int A (sq_results_count row)))
                  (of_int A new_count),
            div A (add A (mul A avg_time (of_int A count)) (sq_search_time row))
                  (of_int A new_count))
  | None => Some (1, of_int A (sq_results_count row), sq_search_time row)
  end.

(** The formula replayed over the rows of the log with exactly this query
    text, in the order of the log. *)
Definition replayed_running (query : str) (st : analytics)
    : option (Z * num A * num A) :=
  fold_left replay_row (logged query st) None.

End Analytics.

Arguments sq_query {A}.
Arguments sq_results_count {A}.
Arguments sq_search_time {A}.
Arguments search_count {A}.
Arguments avg_results_count {A}.
Arguments avg_search_time {A}.
Arguments search_queries {A}.
Arguments popular_searches {A}.
Arguments logged {A}.
Arguments replayed_running {A}.
Arguments empty_analytics {A}.
Arguments search_categories {A}.
Arguments missing_docs {A}.

(** [get_missing_docs_report(min_requests)] *)
Definition get_missing_docs_report {A} (min_requests : Z) (st : analytics A)
    : list missing_doc :=
  Database.sort_by (fun a b => request_count b <=? request_count a)
    (List.filter (fun row => min_requests <=? request_count row) (missing_docs st)).

(** *** Definitions used in the statements *)

(** The logged searches whose query falls into a category, and the logged
    searches for a query text that found nothing. *)
Definition category_hits {A} (lower : str -> str) (c : str) (st : analytics A) : Z :=
  len (List.filter
         (fun row => existsb (eqb_str c) (detected_categories lower (sq_query row)))
         (search_queries st)).

Definition zero_result_searches {A} (query : str) (st : analytics A) : Z :=
  len (List.filter
         (fun row => eqb_str (sq_query row) query && (sq_results_count row =? 0))
         (search_queries st)).

(** The counters of the three aggregate tables agree with the log. *)
Definition counted {A} (st : analytics A) : Prop :=
  forall query : str,
    match popular_searches st !! query with
    | Some row => search_count row = len (logged query st) /\ 0 < search_count row
    | None => logged query st = []
    end.

Definition categories_counted {A} (lower : str -> str) (st : analytics A) : Prop :=
  forall c : str,
    match search_categories st !! c with
    | Some row => category_count row = category_hits lower c st /\ 0 < category_count row
    | None => category_hits lower c st = 0
    end.

Definition missing_counted {A} (lower : str -> str) (st : analytics A) : Prop :=
  List.NoDup (map md_query (missing_docs st)) /\
  (forall row, In row (missing_docs st) ->
     topic row = _extract_topic lower (md_query row) /\
     request_count row = zero_result_searches (md_query row) st /\
     0 < request_count row) /\
  (forall query, 0 < zero_result_searches query st ->
     In query (map md_query (missing_docs st))).

(** A string that is not empty and holds no whitespace. *)
Definition is_word (w : str) : Prop :=
  w <> [] /\ forallb (fun c => negb (is_space c)) w = true.

(** The aggregate of every query holds what the incremental formula gives
    on the rows of the log for that query. *)
Definition replayed {A} (st : analytics A) : Prop :=
  forall query : str,
    match popular_searches st !! query with
    | Some row =>
        replayed_running query st
        = Some (search_count row, avg_results_count row, avg_search_time row)
    | None => logged query st = []
    end.

(** Eight searches for the same text. *)
Definition eight_calls : list (call binary64) :=
  map (fun results_count =>
         Build_call binary64 0 (lit "rust") results_count
           (PyFloat.decimal_literal 1 2) [])
      [0; 0; 1; 7; 7; 7; 7; 0].

(** *** The running averages in binary64 *)


(** *** The counters, in any arithmetic *)

Section Counters.

Variable A : arith.
Variable lower : str -> str.

Lemma logged_log_search_any now q rc t clicked (st : analytics A) query :
  logged query (log_search A lower now q rc t clicked st) =
  logged query st ++
  (if eqb_str q query
   then [{| sq_query := q; sq_results_count := rc; sq_clicked_results := clicked;
            sq_search_time := t; sq_timestamp := now |}]
   else []).
Proof.
  unfold logged, log_search. cbn [search_queries].
  rewrite List.filter_app. cbn [List.filter sq_query]. reflexivity.
Qed.

Lemma log_search_counted now q rc t clicked (st : analytics A) :
  counted st -> counted (log_search A lower now q rc t clicked st).
Proof.
  intros Hst query. specialize (Hst query).
  rewrite logged_log_search_any.
  unfold log_search at 1. cbn [popular_searches]. unfold update_popular.
  destruct (eqb_str q query) eqn:Hq.
  - apply eqb_str_eq in Hq. subst query.
    destruct (popular_searches st !! q) as [row|] eqn:Hrow.
    + rewrite lookup_insert_eq. cbn [search_count]. rewrite len_app.
      destruct Hst as [Hcount Hpos]. unfold len at 2. cbn [length]. lia.
    + rewrite lookup_insert_eq. cbn [search_count]. rewrite Hst.
      split; [reflexivity|lia].
  - assert (Hneq : q <> query).
    { intros ->. rewrite eqb_str_refl in Hq. discriminate. }
    rewrite app_nil_r.
    destruct (popular_searches st !! q); rewrite lookup_insert_ne by exact Hneq;
      exact Hst.
Qed.

Lemma log_searches_invariant (P : analytics A -> Prop) :
  (forall now q rc t clicked st, P st -> P (log_search A lower now q rc t clicked st)) ->
  forall calls st, P st -> P (log_searches A lower calls st).
Proof.
  intros Hstep calls. induction calls as [|c calls IH]; intros st Hst; [exact Hst|].
  cbn [log_searches fold_left]. apply IH, Hstep, Hst.
Qed.

Lemma log_search_replayed now q rc t clicked (st : analytics A) :
  replayed st -> replayed (log_search A lower now q rc t clicked st).
Proof.
  intros Hst query. specialize (Hst query). unfold replayed_running in *.
  rewrite logged_log_search_any.
  unfold log_search at 1. cbn [popular_searches]. unfold update_popular.
  destruct (eqb_str q query) eqn:Hq.
  - apply eqb_str_eq in Hq. subst query.
    destruct (popular_searches st !! q) as [row|] eqn:Hrow.
    + rewrite lookup_insert_eq, fold_left_app, Hst. reflexivity.
    + rewrite lookup_insert_eq, Hst. reflexivity.
  - assert (Hneq : q <> query).
    { intros ->. rewrite eqb_str_refl in Hq. discriminate. }
    rewrite app_nil_r.
    destruct (popular_searches st !! q); rewrite lookup_insert_ne by exact Hneq;
      exact Hst.
Qed.

Lemma empty_replayed : replayed (@empty_analytics A).
Proof. intros query. cbn [empty_analytics popular_searches]. rewrite lookup_empty. reflexivity. Qed.

Lemma empty_counted : counted (@empty_analytics A).
Proof. intros query. cbn [empty_analytics popular_searches]. rewrite lookup_empty. reflexivity. Qed.

Lemma log_searches_length calls : forall st : analytics A,
  length (search_queries (log_searches A lower calls st))
  = (length (search_queries st) + length calls)%nat.
Proof.
  unfold log_searches.
  induction calls as [|c calls IH]; intros st; cbn [fold_left length]; [lia|].
  rewrite IH. unfold log_search.
  cbn [search_queries]. rewrite length_app. cbn [length]. lia.
Qed.

Lemma category_names_NoDup : List.NoDup (map fst category_keywords).
Proof. repeat constructor; cbn; intuition discriminate. Qed.

Lemma NoDup_map_filter {X Y} (f : X -> Y) (p : X -> bool) l :
  List.NoDup (map f l) -> List.NoDup (map f (List.filter p l)).
Proof.
  induction l as [|x l IH]; intros Hnd; [constructor|].
  cbn [map] in Hnd. inversion Hnd as [|? ? Hnotin Hrest]; subst.
  cbn [List.filter]. destruct (p x); [|apply IH, Hrest].
  cbn [map]. constructor; [|apply IH, Hrest].
  intros Hin. apply Hnotin. apply in_map_iff in Hin.
  destruct Hin as (y & Hy & Hin). apply filter_In in Hin.
  rewrite <- Hy. apply in_map, Hin.
Qed.

Lemma detected_categories_NoDup query : List.NoDup (detected_categories lower query).
Proof. apply NoDup_map_filter, category_names_NoDup. Qed.

Lemma existsb_eqb_str c cs : existsb (eqb_str c) cs = true <-> In c cs.
Proof.
  rewrite existsb_exists. split.
  - intros (x & Hin & Hx). apply eqb_str_eq in Hx. subst x. exact Hin.
  - intros Hin. exists c. split; [exact Hin|apply eqb_str_refl].
Qed.

Lemma track_categories_lookup now cs : forall (m : gmap (list N) search_category) c,
  List.NoDup cs ->
  fold_left (count_category now) cs m !! c =
  if existsb (eqb_str c) cs
  then Some {| category_count := match m !! c with
                                 | Some row => category_count row + 1
                                 | None => 1
                                 end;
               last_updated := now |}
  else m !! c.
Proof.
  induction cs as [|c0 cs IH]; intros m c Hnd; [reflexivity|].
  inversion Hnd as [|? ? Hnotin Hrest]; subst.
  cbn [fold_left existsb]. rewrite (IH _ c Hrest).
  destruct (eqb_str c c0) eqn:Hc.
  - apply eqb_str_eq in Hc. subst c0. cbn [orb].
    destruct (existsb (eqb_str c) cs) eqn:Hin;
      [apply existsb_eqb_str in Hin; contradiction|].
    unfold count_category. destruct (m !! c); rewrite lookup_insert_eq; reflexivity.
  - cbn [orb].
    assert (Hneq : c0 <> c).
    { intros ->. rewrite eqb_str_refl in Hc. discriminate. }
    assert (Hsame : count_category now m c0 !! c = m !! c).
    { unfold count_category. destruct (m !! c0); apply lookup_insert_ne, Hneq. }
    rewrite Hsame. reflexivity.
Qed.

Lemma log_search_categories_counted now q rc t clicked (st : analytics A) :
  categories_counted lower st ->
  categories_counted lower (log_search A lower now q rc t clicked st).
Proof.
  intros Hst c. specialize (Hst c).
  unfold category_hits in *. unfold log_search. cbn [search_categories search_queries].
  unfold _track_categories.
  rewrite (track_categories_lookup now _ _ c (detected_categories_NoDup q)).
  rewrite List.filter_app, len_app. cbn [List.filter sq_query].
  destruct (existsb (eqb_str c) (detected_categories lower q)).
  - cbn [category_count]. unfold len at 2. cbn [length].
    destruct (search_categories st !! c) as [row|]; lia.
  - destruct (search_categories st !! c) as [row|];
      unfold len in *; cbn [length] in *; rewrite Z.add_0_r; exact Hst.
Qed.

Lemma zero_result_searches_nonneg query (st : analytics A) :
  0 <= zero_result_searches query st.
Proof. apply len_nonneg. Qed.

Lemma zero_result_searches_log_search now q rc t clicked (st : analytics A) query :
  zero_result_searches query (log_search A lower now q rc t clicked st)
  = zero_result_searches query st
    + (if eqb_str q query && (rc =? 0) then 1 else 0).
Proof.
  unfold zero_result_searches, log_search. cbn [search_queries].
  rewrite List.filter_app, len_app. cbn [List.filter sq_query sq_results_count].
  destruct (eqb_str q query && (rc =? 0)); reflexivity.
Qed.

Lemma log_search_missing_counted now q rc t clicked (st : analytics A) :
  missing_counted lower st ->
  missing_counted lower (log_search A lower now q rc t clicked st).
Proof.
  intros (Hnd & Hrows & Hcover).
  remember (log_search A lower now q rc t clicked st) as st' eqn:Hst'.
  assert (Hmissing : missing_docs st'
                     = if rc =? 0 then _track_missing_docs lower now q (missing_docs st)
                       else missing_docs st) by (subst st'; reflexivity).
  assert (Hzrs : forall query,
            zero_result_searches query st'
            = zero_result_searches query st
              + (if eqb_str q query && (rc =? 0) then 1 else 0))
    by (intros; subst st'; apply zero_result_searches_log_search).
  clear Hst'. unfold missing_counted. rewrite Hmissing. clear Hmissing.
  revert Hzrs. destruct (rc =? 0); intros Hzrs.
  2:{ assert (Hsame : forall query,
                zero_result_searches query st' = zero_result_searches query st).
      { intros query. rewrite Hzrs, andb_false_r. lia. }
      split; [exact Hnd|]. split.
      - intros row Hin. rewrite Hsame. apply Hrows, Hin.
      - intros query. rewrite Hsame. apply Hcover. }
  assert (Hstep : forall query,
            zero_result_searches query st'
            = zero_result_searches query st + (if eqb_str q query then 1 else 0)).
  { intros query. rewrite Hzrs, andb_true_r. reflexivity. }
  clear Hzrs. unfold _track_missing_docs. cbv zeta.
  assert (Hsame : forall row, In row (missing_docs st) ->
            eqb_str (topic row) (_extract_topic lower q) && eqb_str (md_query row) q
            = eqb_str q (md_query row)).
  { intros row Hin. destruct (Hrows row Hin) as [Htopic _].
    destruct (eqb_str q (md_query row)) eqn:Hq.
    - apply eqb_str_eq in Hq. rewrite Htopic, <- Hq, !eqb_str_refl. reflexivity.
    - destruct (eqb_str (md_query row) q) eqn:Hq'; [|apply andb_false_r].
      apply eqb_str_eq in Hq'. rewrite Hq', eqb_str_refl in Hq. discriminate. }
  match goal with
  | |- context [existsb ?f (missing_docs st)] =>
      destruct (existsb f (missing_docs st)) eqn:Hexists
  end.
  - match goal with
    | |- List.NoDup (map md_query ?updated) /\ _ =>
        assert (Hkeys : map md_query updated = map md_query (missing_docs st))
    end.
    { rewrite map_map. apply map_ext. intros row.
      match goal with |- context [if ?c then _ else _] => destruct c end; reflexivity. }
    split; [rewrite Hkeys; exact Hnd|]. split.
    + intros row' Hin'. apply in_map_iff in Hin'. destruct Hin' as (row & <- & Hin).
      destruct (Hrows row Hin) as (Htopic & Hcount & Hpos).
      rewrite (Hsame row Hin).
      destruct (eqb_str q (md_query row)) eqn:Hq; cbn [topic md_query request_count];
        rewrite Hstep, Hq; (split; [exact Htopic|split; lia]).
    + intros query. rewrite Hstep, Hkeys. destruct (eqb_str q query) eqn:Hq.
      * intros _. apply eqb_str_eq in Hq. subst query.
        apply existsb_exists in Hexists. destruct Hexists as (row & Hin & Hrow).
        cbv beta in Hrow. rewrite (Hsame row Hin) in Hrow. apply eqb_str_eq in Hrow.
        rewrite Hrow. apply in_map, Hin.
      * rewrite Z.add_0_r. apply Hcover.
  - assert (Hfresh : ~ In q (map md_query (missing_docs st))).
    { intros Hin. apply in_map_iff in Hin. destruct Hin as (row & Hq & Hin).
      apply not_true_iff_false in Hexists. apply Hexists.
      apply existsb_exists. exists row. split; [exact Hin|].
      cbv beta. rewrite (Hsame row Hin), Hq. apply eqb_str_refl. }
    assert (Hzero : zero_result_searches q st = 0).
    { pose proof (zero_result_searches_nonneg q st).
      destruct (Z.eq_dec (zero_result_searches q st) 0) as [Hz|Hz]; [exact Hz|].
      exfalso. apply Hfresh, Hcover. lia. }
    rewrite map_app. cbn [map md_query]. split; [|split].
    + apply (Permutation_NoDup (Permutation_cons_append _ _)).
      constructor; assumption.
    + intros row Hin. apply in_app_or in Hin. destruct Hin as [Hin|[<-|[]]].
      * destruct (Hrows row Hin) as (Htopic & Hcount & Hpos). rewrite Hstep.
        destruct (eqb_str q (md_query row)) eqn:Hq.
        -- exfalso. apply eqb_str_eq in Hq. apply Hfresh. rewrite Hq.
           apply in_map, Hin.
        -- split; [exact Htopic|split; lia].
      * cbn [topic md_query request_count]. rewrite Hstep, eqb_str_refl, Hzero.
        split; [reflexivity|split; [reflexivity|lia]].
    + intros query. rewrite Hstep. destruct (eqb_str q query) eqn:Hq.
      * intros _. apply eqb_str_eq in Hq. subst query.
        apply in_or_app. right. left. reflexivity.
      * rewrite Z.add_0_r. intros Hpos. apply in_or_app. left. apply Hcover, Hpos.
Qed.

End Counters.


(** X23. The counters do not depend on the arithmetic: after any sequence of
    [log_search] calls on an empty store, in binary64 as in exact
    arithmetic, the log holds one row per call, and [popular_searches]
    holds a row for a query text exactly when the text was searched for,
    with the number of logged searches for exactly that text as its
    count. *)
Theorem search_counts_are_exact
    (A : arith) (lower : str -> str) (calls : list (call A)) (query : str) :
  let st := log_searches A lower calls empty_analytics in
  length (search_queries st) = length calls /\
  match popular_searches st !! query with
  | Some row => search_count row = len (logged query st) /\ 0 < search_count row
  | None => logged query st = []
  end.
Proof.
  cbv zeta. split; [apply (log_searches_length A lower calls empty_analytics)|].
  apply (log_searches_invariant A lower counted).
  - intros. apply log_search_counted. assumption.
  - intros q. cbn [empty_analytics popular_searches]. rewrite lookup_empty. reflexivity.
Qed.

(** X24. After any sequence of [log_search] calls on an empty store,
    [search_categories] holds a row for a category exactly when some logged
    query contained one of its keywords, and its count is the number of
    logged searches whose query did: a search counts once for a category
    however many of its keywords the query contains. *)
Theorem category_counts_are_exact
    (A : arith) (lower : str -> str) (calls : list (call A)) (c : str) :
  let st := log_searches A lower calls empty_analytics in
  match search_categories st !! c with
  | Some row => category_count row = category_hits lower c st /\ 0 < category_count row
  | None => category_hits lower c st = 0
  end.
Proof.
  cbv zeta. revert c.
  apply (log_searches_invariant A lower (categories_counted lower)).
  - intros. apply log_search_categories_counted. assumption.
  - intros c. cbn [empty_analytics search_categories]. rewrite lookup_empty. reflexivity.
Qed.

Lemma Forall_sort_by {X} (leb : X -> X -> bool) (P : X -> Prop) rows :
  Forall P rows -> Forall P (Database.sort_by leb rows).
Proof.
  induction 1 as [|x rows Hx Hrows IH]; cbn [Database.sort_by fold_right]; [constructor|].
  apply Database.Forall_insert_by; assumption.
Qed.

(** X25. After any sequence of [log_search] calls on an empty store, the
    report of missing documentation lists a query text exactly when it was
    searched for without result at least once and at least [min_requests]
    times; it lists it once, with the topic extracted from it and with the
    number of its searches without result as request count; the rows come
    in the order of the request counts, the largest first. *)
Theorem missing_docs_report_is_exact
    (A : arith) (lower : str -> str) (calls : list (call A)) (min_requests : Z) :
  let st := log_searches A lower calls empty_analytics in
  let report := get_missing_docs_report min_requests st in
  (forall query,
     In query (map md_query report) <->
     0 < zero_result_searches query st /\ min_requests <= zero_result_searches query st) /\
  Forall (fun row => topic row = _extract_topic lower (md_query row) /\
                     request_count row = zero_result_searches (md_query row) st) report /\
  List.NoDup (map md_query report) /\
  StronglySorted (fun a b => request_count b <= request_count a) report.
Proof.
  cbv zeta.
  assert (Hinv : missing_counted lower (log_searches A lower calls empty_analytics)).
  { apply (log_searches_invariant A lower (missing_counted lower)).
    - intros. apply log_search_missing_counted. assumption.
    - split; [constructor|]. split; [intros row []|].
      intros query. unfold zero_result_searches, len.
      cbn [empty_analytics search_queries List.filter length]. lia. }
  set (st := log_searches A lower calls empty_analytics) in *.
  destruct Hinv as (Hnd & Hrows & Hcover).
  unfold get_missing_docs_report.
  set (selected := List.filter (fun row => min_requests <=? request_count row)
                               (missing_docs st)).
  pose proof (Database.sort_by_perm
                (fun a b => request_count b <=? request_count a) selected) as Hperm.
  split; [|split; [|split]].
  - intros query.
    transitivity (In query (map md_query selected)).
    { split; apply Permutation_in;
        [exact (Permutation_map md_query Hperm)
        |exact (Permutation_sym (Permutation_map md_query Hperm))]. }
    unfold selected. rewrite in_map_iff. split.
    + intros (row & <- & Hin). apply filter_In in Hin. destruct Hin as [Hin Hmin].
      destruct (Hrows row Hin) as (_ & Hcount & Hpos). apply Z.leb_le in Hmin. lia.
    + intros [Hpos Hmin]. apply Hcover, in_map_iff in Hpos.
      destruct Hpos as (row & <- & Hin). exists row. split; [reflexivity|].
      apply filter_In. split; [exact Hin|].
      destruct (Hrows row Hin) as (_ & Hcount & _). apply Z.leb_le. lia.
  - apply Forall_sort_by. apply List.Forall_forall. intros row Hin.
    apply filter_In in Hin. destruct (Hrows row (proj1 Hin)) as (Htopic & Hcount & _).
    split; assumption.
  - apply (Permutation_NoDup (Permutation_sym (Permutation_map md_query Hperm))).
    apply NoDup_map_filter, Hnd.
  - apply Database.sort_by_sorted.
    + intros a b H. apply Z.leb_le, H.
    + intros a b H. apply Z.leb_gt in H. lia.
    + intros a b c H1 H2. lia.
Qed.

(** *** _extract_topic *)

Lemma split_from_words s : forall word,
  forallb (fun c => negb (is_space c)) word = true ->
  Forall is_word (split_from s word).
Proof.
  induction s as [|c s IH]; intros word Hword; cbn [split_from].
  - destruct word as [|c0 word]; constructor; [|constructor].
    split; [discriminate|exact Hword].
  - destruct (is_space c) eqn:Hc.
    + destruct word as [|c0 word]; [apply IH; reflexivity|].
      constructor; [split; [discriminate|exact Hword]|apply IH; reflexivity].
    + apply IH. rewrite forallb_app, Hword. cbn [forallb]. rewrite Hc. reflexivity.
Qed.

Lemma split_words s : Forall is_word (split s).
Proof. apply split_from_words. reflexivity. Qed.

(** X26. The topic extracted from a query is never empty and never holds
    whitespace, whatever the query and whatever [str.lower] does: it is a
    word of the lower-cased query, the first word of the query, or
    "unknown". *)
Theorem extract_topic_is_a_word (lower : str -> str) (query : str) :
  is_word (_extract_topic lower query) /\
  (In (_extract_topic lower query) (split (lower query)) \/
   head (split query) = Some (_extract_topic lower query) \/
   (split query = [] /\ _extract_topic lower query = lit "unknown")).
Proof.
  unfold _extract_topic.
  destruct (List.find _ (split (lower query))) as [word|] eqn:Hfind.
  - apply find_some in Hfind. destruct Hfind as [Hin _].
    split; [|left; exact Hin].
    exact (proj1 (List.Forall_forall _ _) (split_words (lower query)) word Hin).
  - pose proof (split_words query) as Hwords.
    destruct (split query) as [|first rest].
    + split; [split; [discriminate|reflexivity]|]. right. right. split; reflexivity.
    + split; [|right; left; reflexivity].
      apply List.Forall_cons_iff in Hwords. apply Hwords.
Qed.

End SearchAnalytics.

(** ** format_handlers.py: the registry of format handlers *)

Module FormatHandlers.
Import Py.

(** [s.endswith(suffix)] *)
Definition ends_with (suffix s : str) : bool := starts_with (rev suffix) (rev s).

(** The handler classes, in the order of [FormatHandlerRegistry.handlers]. *)
Inductive handler :=
| MarkdownHandler | MDXHandler | ReStructuredTextHandler | AsciiDocHandler
| JupyterNotebookHandler.

Definition handlers : list handler :=
  [MarkdownHandler; MDXHandler; ReStructuredTextHandler; AsciiDocHandler;
   JupyterNotebookHandler].

Section Registry.

(** [str.lower] *)
Variable lower : str -> str.

(** [handler.can_handle(file_path)] *)
Definition can_handle (h : handler) (file_path : str) : bool :=
  match h with
  | MarkdownHandler =>
      existsb (fun suffix => ends_with suffix (lower file_path))
              [lit ".md"; lit ".markdown"]
  | MDXHandler => ends_with (lit ".mdx") (lower file_path)
  | ReStructuredTextHandler => ends_with (lit ".rst") (lower file_path)
  | AsciiDocHandler =>
      existsb (fun suffix => ends_with suffix (lower file_path))
              [lit ".adoc"; lit ".asciidoc"]
  | JupyterNotebookHandler => ends_with (lit ".ipynb") (lower file_path)
  end.

(** [FormatHandlerRegistry.get_handler(file_path)] *)
Definition get_handler (file_path : str) : option handler :=
  List.find (fun h => can_handle h file_path) handlers.

(** [FormatHandlerRegistry.is_supported(file_path)] *)
Definition is_supported (file_path : str) : bool :=
  existsb (fun h => can_handle h file_path) handlers.

End Registry.

(** [FormatHandlerRegistry.get_supported_extensions()] *)
Definition get_supported_extensions : list str :=
  let extensions := [] in
  let extensions := extensions ++ [lit ".md"; lit ".markdown"] in
  let extensions := extensions ++ [lit ".mdx"] in
  let extensions := extensions ++ [lit ".rst"] in
  let extensions := extensions ++ [lit ".adoc"; lit ".asciidoc"] in
  let extensions := extensions ++ [lit ".ipynb"] in
  extensions.

Lemma starts_with_both p q : forall s,
  starts_with p s = true -> starts_with q s = true ->
  starts_with p q = true \/ starts_with q p = true.
Proof.
  revert q. induction p as [|a p IH]; intros q s Hp Hq; [left; reflexivity|].
  destruct q as [|b q]; [right; reflexivity|].
  destruct s as [|c s]; [discriminate|].
  cbn [starts_with] in *. apply andb_true_iff in Hp, Hq.
  destruct Hp as [Hac Hp], Hq as [Hbc Hq].
  apply N.eqb_eq in Hac, Hbc. subst a b. rewrite N.eqb_refl. cbn [andb].
  exact (IH q s Hp Hq).
Qed.

Lemma ends_with_both a b s :
  ends_with a s = true -> ends_with b s = true ->
  ends_with a b = true \/ ends_with b a = true.
Proof. unfold ends_with. apply starts_with_both. Qed.

(** X27. The registry and the list of supported extensions agree: a path is
    supported exactly when [get_handler] finds a handler for it, and
    exactly when its lower-cased form ends with one of the extensions that
    [get_supported_extensions] lists. *)
Theorem supported_iff_listed_extension (lower : str -> str) (file_path : str) :
  (is_supported lower file_path = true <-> get_handler lower file_path <> None) /\
  (is_supported lower file_path = true <->
   exists extension, In extension get_supported_extensions /\
                     ends_with extension (lower file_path) = true).
Proof.
  split.
  - unfold is_supported, get_handler. rewrite existsb_exists. split.
    + intros (h & Hin & Hh) Hnone.
      pose proof (find_none _ _ Hnone h Hin) as Hfalse. cbv beta in Hfalse. congruence.
    + intros Hsome. destruct (List.find _ handlers) as [h|] eqn:Hfind; [|congruence].
      apply find_some in Hfind. exists h. exact Hfind.
  - unfold is_supported, handlers, get_supported_extensions. cbv zeta.
    cbn [existsb can_handle app]. rewrite !orb_false_r, !orb_true_iff. split.
    + intros [[H|H]|[H|[H|[[H|H]|H]]]]; eexists; (split; [|exact H]);
        cbn [In]; tauto.
    + intros (extension & Hin & H). cbn [In] in Hin.
      destruct Hin as [<-|[<-|[<-|[<-|[<-|[<-|[<-|[]]]]]]]]; tauto.
Qed.

(** X28. No path is accepted by two handlers: the handler that [get_handler]
    returns is the only one that can handle the path, so the order of the
    registry plays no part. *)
Theorem handlers_are_exclusive (lower : str -> str) (file_path : str) (h h' : handler) :
  can_handle lower h file_path = true ->
  can_handle lower h' file_path = true ->
  h = h' /\ get_handler lower file_path = Some h.
Proof.
  intros Hh Hh'.
  assert (Hunique : forall h1 h2,
            can_handle lower h1 file_path = true ->
            can_handle lower h2 file_path = true -> h1 = h2).
  { clear. intros h1 h2 H1 H2.
    destruct h1, h2; try reflexivity; exfalso;
      cbn [can_handle existsb] in H1, H2;
      repeat rewrite orb_false_r in H1; repeat rewrite orb_false_r in H2;
      repeat rewrite orb_true_iff in H1; repeat rewrite orb_true_iff in H2;
      repeat match goal with H : _ \/ _ |- _ => destruct H as [H|H] end;
      destruct (ends_with_both _ _ _ H1 H2) as [H|H]; vm_compute in H; discriminate H. }
  split; [exact (Hunique h h' Hh Hh')|].
  unfold get_handler. destruct (List.find _ handlers) as [h0|] eqn:Hfind.
  - apply find_some in Hfind. f_equal. apply Hunique; [apply Hfind|exact Hh].
  - exfalso. assert (Hin : In h handlers) by (destruct h; cbn; tauto).
    pose proof (find_none _ _ Hfind h Hin) as Hfalse. cbv beta in Hfalse. congruence.
Qed.

Lemma handlers_are_exclusive_witness :
  get_handler ascii_lower (lit "docs/Guide.MD") = Some MarkdownHandler.
Proof.
  apply (handlers_are_exclusive ascii_lower (lit "docs/Guide.MD")
           MarkdownHandler MarkdownHandler); reflexivity.
Defined.

End FormatHandlers.
